(** * linked-MRCPSP: bound estimation, time normalisation and the
      formulation builders, embedded from [src/src/*.py].

    Python integers are unbounded, so durations, horizons and time
    instants are [Z]; activity, mode and resource indices are [nat]
    (the data model indexes them from 0); a Python list is a [list];
    an exception is the [Raise] branch of [result].  The duration table
    is the one object a builder mutates: it lives in a store and is
    passed by location.  The solver is outside the program: a builder's
    product is the list of variables, the objective and the constraints
    it hands over, kept as expressions in the shape the source writes
    them. *)

From Stdlib Require Import ZArith QArith List Lia Bool.
From stdpp Require Import gmap strings list.

Local Open Scope string_scope.
Local Open Scope Z_scope.
Local Open Scope list_scope.

(** ** Exceptions and the error monad *)

Inductive exn : Type :=
| IndexError          (* list index out of range *)
| KeyError            (* tupledict lookup of an undeclared key *)
| ValueError          (* min()/max() of an empty sequence *)
| ZeroDivisionError   (* integer division by zero *)
| TypeError.          (* the duration table is not a list object *)

Inductive result (A : Type) : Type :=
| Ok (a : A)
| Raise (e : exn).
Arguments Ok {A} a.
Arguments Raise {A} e.

Definition rbind {A B} (c : result A) (k : A -> result B) : result B :=
  match c with
  | Ok a => k a
  | Raise e => Raise e
  end.

Declare Scope res_scope.
Delimit Scope res_scope with res.
Notation "x <- c ;; k" := (rbind c (fun x => k))
  (at level 100, c at next level, right associativity) : res_scope.
Local Open Scope res_scope.

(** [for x in xs: acc = body(acc, x)] *)
Fixpoint for_each {A S} (xs : list A) (body : S -> A -> result S) (acc : S)
  : result S :=
  match xs with
  | [] => Ok acc
  | x :: xs' => acc' <- body acc x ;; for_each xs' body acc'
  end.

(** A comprehension / generator whose element expression may raise. *)
Fixpoint comp {A B} (f : A -> result B) (xs : list A) : result (list B) :=
  match xs with
  | [] => Ok []
  | x :: xs' => y <- f x ;; ys <- comp f xs' ;; Ok (y :: ys)
  end.

Definition is_ok {A} (c : result A) : Prop := exists a, c = Ok a.

(** ** Python list primitives *)

(** [l[i]] for a non-negative index. *)
Definition getitem {A} (l : list A) (i : nat) : result A :=
  match l !! i with
  | Some x => Ok x
  | None => Raise IndexError
  end.

(** [l[i] = v] *)
Definition setitem {A} (l : list A) (i : nat) (v : A) : result (list A) :=
  if (i <? length l)%nat then Ok (<[i := v]> l) else Raise IndexError.

(** [range(n)] over indices, [range(lo, hi)] over instants. *)
Definition range (n : nat) : list nat := seq 0 n.
Definition range_from (lo n : nat) : list nat := seq lo (n - lo).
Definition zrange (lo hi : Z) : list Z :=
  map (fun d => lo + Z.of_nat d) (seq 0 (Z.to_nat (hi - lo))).

(** [min(xs)] and [max(xs)]: ValueError on an empty sequence. *)
Definition py_min (xs : list Z) : result Z :=
  match xs with
  | [] => Raise ValueError
  | x :: xs' => Ok (fold_left Z.min xs' x)
  end.
Definition py_max (xs : list Z) : result Z :=
  match xs with
  | [] => Raise ValueError
  | x :: xs' => Ok (fold_left Z.max xs' x)
  end.

(** ** utils.py *)

Module Utils.

(** [p[j][m]] *)
Definition duration (p : list (list Z)) (j m : nat) : result Z :=
  row <- getitem p j ;; getitem row m.

(** [min(p[j][m] for m in range(M))] *)
Definition min_over_modes (p : list (list Z)) (M j : nat) : result Z :=
  ds <- comp (duration p j) (range M) ;; py_min ds.

(** [max(p[j][m] for m in range(M))] *)
Definition max_over_modes (p : list (list Z)) (M j : nat) : result Z :=
  ds <- comp (duration p j) (range M) ;; py_max ds.

(** Body of [for j, k in E:] in [get_earliest_start_time], at activity [i]. *)
Definition earliest_edge (M : nat) (p : list (list Z)) (i : nat)
    (est : list Z) (e : nat * nat) : result (list Z) :=
  let '(j, k) := e in
  if (k =? i)%nat then
    max_processing_time <- min_over_modes p M j ;;
    ej <- getitem est j ;;
    ei <- getitem est i ;;
    setitem est i (Z.max (ej + max_processing_time) ei)
  else Ok est.

Definition get_earliest_start_time (n : nat) (T : Z) (M : nat) (R : list Z)
    (E : list (nat * nat)) (p : list (list Z)) (L : list (nat * nat))
    (r : list (list (list Z))) (VP : list (nat * nat)) : result (list Z) :=
  let earliest_starting_times := replicate n 0 in
  let current_activity := 0%nat in
  earliest_starting_times <- setitem earliest_starting_times current_activity 0 ;;
  for_each (range_from 1 n)
    (fun est i => for_each E (earliest_edge M p i) est)
    earliest_starting_times.

(** Body of [for k, j in E:] in [get_latest_start_time], at activity [i]. *)
Definition latest_edge (M : nat) (p : list (list Z)) (i : nat)
    (est : list Z) (e : nat * nat) : result (list Z) :=
  let '(k, j) := e in
  if (k =? i)%nat then
    max_processing_time <- max_over_modes p M j ;;
    ej <- getitem est j ;;
    ei <- getitem est i ;;
    setitem est i (Z.max (ej + max_processing_time) ei)
  else Ok est.

(** [n-1] as a list index: on the empty list Python's [l[-1]] raises
    IndexError, and so does index [0] here. *)
Definition get_latest_start_time (n : nat) (T : Z) (M : nat) (R : list Z)
    (E : list (nat * nat)) (p : list (list Z)) (L : list (nat * nat))
    (r : list (list (list Z))) (VP : list (nat * nat)) : result (list Z) :=
  let earliest_starting_times := replicate n (-1) in
  let current_activity := (n - 1)%nat in
  earliest_starting_times <- setitem earliest_starting_times current_activity 0 ;;
  earliest_starting_times <-
    for_each (reverse (range_from 1 n))
      (fun est i => for_each E (latest_edge M p i) est)
      earliest_starting_times ;;
  Ok (reverse earliest_starting_times).

End Utils.

(** ** The solver-facing vocabulary (what the builders hand to gurobipy)

    A variable is its family name and index tuple; a linear expression is
    kept as the builder wrote it; a constraint is [lhs sense rhs]. *)

Definition var : Type := string * list Z.

Inductive vtype : Type := BINARY | CONTINUOUS.

#[warnings="-register-all"]
Inductive expr : Type :=
| Var (v : var)
| Num (c : Z)
| Add (a b : expr)
| Sub (a b : expr)
| Mul (c : Z) (e : expr)        (* c * e *)
| Div (e : expr) (c : Z)        (* e / c *)
| Quicksum (es : list expr).    (* gp.quicksum(...) *)

Inductive sense : Type := LE | GE | EQ.

Record constr : Type := { c_lhs : expr; c_sense : sense; c_rhs : expr }.

Definition le_ (a b : expr) : constr := {| c_lhs := a; c_sense := LE; c_rhs := b |}.
Definition ge_ (a b : expr) : constr := {| c_lhs := a; c_sense := GE; c_rhs := b |}.
Definition eq_ (a b : expr) : constr := {| c_lhs := a; c_sense := EQ; c_rhs := b |}.

(** [model.addVars(keys, vtype=..., name=...)] returns a tupledict. *)
Record tupledict : Type :=
  { td_name : string; td_vtype : vtype; td_keys : list (list Z) }.

Definition addVars (keys : list (list Z)) (vt : vtype) (name : string) : tupledict :=
  {| td_name := name; td_vtype := vt; td_keys := keys |}.

(** [d[k]]: KeyError when the key was never declared. *)
Definition td_get (d : tupledict) (k : list Z) : result expr :=
  if decide (k ∈ td_keys d) then Ok (Var (td_name d, k)) else Raise KeyError.

(** [d.sum(i, '*', '*')]: the declared variables whose first index is [i]. *)
Definition td_sum_first (d : tupledict) (i : nat) : expr :=
  Quicksum (map (fun k => Var (td_name d, k))
                (filter (fun k => head k = Some (Z.of_nat i)) (td_keys d))).

Definition td_vars (d : tupledict) : list (var * vtype) :=
  map (fun k => ((td_name d, k), td_vtype d)) (td_keys d).

Record model : Type :=
  { m_name : string;
    m_vars : list (var * vtype);
    m_objective : expr;                  (* minimised *)
    m_constrs : list (string * constr) }.

(** A generator with a nested [for]: [e for a in xs for b in ys(a)]. *)
Definition comp_flat {A B} (f : A -> result (list B)) (xs : list A)
  : result (list B) :=
  yss <- comp f xs ;; Ok (concat yss).

Definition quicksum (c : result (list expr)) : result expr :=
  es <- c ;; Ok (Quicksum es).

(** [model.addConstrs(gen, name=...)] *)
Definition addConstrs (name : string) (c : result (list constr))
  : result (list (string * constr)) :=
  cs <- c ;; Ok (map (pair name) cs).

Definition key1 (i : nat) : list Z := [Z.of_nat i].
Definition key2 (i m : nat) : list Z := [Z.of_nat i; Z.of_nat m].
Definition key3 (i m : nat) (t : Z) : list Z := [Z.of_nat i; Z.of_nat m; t].
(** [(n-1, m, t)] *)
Definition key_last (n m : nat) (t : Z) : list Z := [Z.of_nat n - 1; Z.of_nat m; t].

(** [[(i, m, t) for i in range(n) for m in range(M) for t in range(T)]] *)
Definition imt_sets (n : nat) (M : nat) (T : Z) : list (list Z) :=
  flat_map (fun i => flat_map (fun m => map (key3 i m) (zrange 0 T)) (range M))
           (range n).

(** [r[i][m][k]] *)
Definition requirement (r : list (list (list Z))) (i m k : nat) : result Z :=
  ri <- getitem r i ;; rim <- getitem ri m ;; getitem rim k.

(** ** pulse.py, after the normalisation prelude

    [T] and [p] are the rescaled horizon and duration table. *)

Module Pulse.
Section Build.
Variables (n : nat) (T : Z) (M : nat) (R : list Z) (E : list (nat * nat))
          (p : list (list Z)) (L : list (nat * nat))
          (r : list (list (list Z))).
Variable (x : tupledict).
Variable (earliest_starting_times : list Z).

(** [quicksum(t * x[n-1, m, t] for t in range(T) for m in range(M))] *)
Definition objective : result expr :=
  quicksum (comp_flat (fun t =>
    comp (fun m => v <- td_get x (key_last n m t) ;; Ok (Mul t v)) (range M))
    (zrange 0 T)).

(** [(x.sum(i, '*', '*') == 1 for i in range(n))] *)
Definition schedule : result (list constr) :=
  comp (fun i => Ok (eq_ (td_sum_first x i) (Num 1))) (range n).

(** Aggregated precedence, one inequality per edge. *)
Definition precedence : result (list constr) :=
  comp (fun '(i, j) =>
    lhs <- quicksum (comp_flat (fun m =>
             comp (fun t => pim <- Utils.duration p i m ;;
                            v <- td_get x (key3 i m t) ;;
                            Ok (Mul (t + pim) v)) (zrange 0 T)) (range M)) ;;
    rhs <- quicksum (comp_flat (fun m =>
             comp (fun t => v <- td_get x (key3 j m t) ;; Ok (Mul t v))
                  (zrange 0 T)) (range M)) ;;
    Ok (le_ lhs rhs)) E.

(** Disaggregated precedence, one inequality per edge and instant. *)
Definition precedence_disaggregated : result (list constr) :=
  comp_flat (fun '(i, j) =>
    comp (fun t =>
      lhs <- quicksum (comp_flat (fun m =>
               pim <- Utils.duration p i m ;;
               comp (fun tau => td_get x (key3 i m tau))
                    (zrange 0 (t - pim + 1))) (range M)) ;;
      rhs <- quicksum (comp_flat (fun m =>
               comp (fun tau => td_get x (key3 j m tau)) (zrange 0 (t + 1)))
               (range M)) ;;
      Ok (ge_ lhs rhs)) (zrange 0 T)) E.

(** Resource availability at every instant, for every resource. *)
Definition resource : result (list constr) :=
  comp_flat (fun t =>
    comp (fun k =>
      lhs <- quicksum (comp_flat (fun m =>
               comp (fun i =>
                 pim <- Utils.duration p i m ;;
                 quicksum (comp (fun tau =>
                   rimk <- requirement r i m k ;;
                   v <- td_get x (key3 i m tau) ;;
                   Ok (Mul rimk v))
                   (zrange (Z.max (t - pim + 1) 0) (t + 1))))
                 (range n)) (range M)) ;;
      Rk <- getitem R k ;;
      Ok (le_ lhs (Num Rk))) (range (length R))) (zrange 0 T).

(** Linked modes. *)
Definition linked : result (list constr) :=
  comp_flat (fun '(i, j) =>
    comp (fun m =>
      lhs <- quicksum (comp (fun t => td_get x (key3 i m t)) (zrange 0 T)) ;;
      rhs <- quicksum (comp (fun t => td_get x (key3 j m t)) (zrange 0 T)) ;;
      Ok (le_ lhs rhs)) (range M)) L.

(** [(x[i, m, t] == 0 for i in range(n) for m in range(M)
      for t in range(earliest_starting_times[i]))] *)
Definition zero_time_slots : result (list constr) :=
  comp_flat (fun i =>
    comp_flat (fun m =>
      esti <- getitem earliest_starting_times i ;;
      comp (fun t => v <- td_get x (key3 i m t) ;; Ok (eq_ v (Num 0)))
           (zrange 0 esti)) (range M)) (range n).

End Build.

(** The body of [pulse_model] / [pulse_model_disaggregated] below the
    normalisation; [disaggregated] selects the precedence family. *)
Definition build (disaggregated : bool) (n : nat) (T : Z) (M : nat) (R : list Z)
    (E : list (nat * nat)) (p : list (list Z)) (L : list (nat * nat))
    (r : list (list (list Z))) (VP : list (nat * nat)) : result model :=
  earliest_starting_times <- Utils.get_earliest_start_time n T M R E p L r VP ;;
  latest_starting_times <- Utils.get_latest_start_time n T M R E p L r VP ;;
  let pulse_sets := imt_sets n M T in
  let x := addVars pulse_sets BINARY "pulse" in
  obj <- objective n T M x ;;
  c1 <- addConstrs "schedule" (schedule n x) ;;
  c2 <- addConstrs "precedence"
          (if disaggregated then precedence_disaggregated T M E p x
           else precedence T M E p x) ;;
  c3 <- addConstrs "resource" (resource n T M R p r x) ;;
  c4 <- addConstrs "linked" (linked T M L x) ;;
  c5 <- addConstrs "zero_time_slots" (zero_time_slots n M x earliest_starting_times) ;;
  Ok {| m_name := if disaggregated then "pulse_disaggregated" else "pulse";
        m_vars := td_vars x;
        m_objective := obj;
        m_constrs := c1 ++ c2 ++ c3 ++ c4 ++ c5 |}.

End Pulse.

(** ** step.py, after the normalisation prelude *)

Module Step.
Section Build.
Variables (n : nat) (T : Z) (M : nat) (R : list Z) (E : list (nat * nat))
          (p : list (list Z)) (L : list (nat * nat))
          (r : list (list (list Z))).
Variable (z : tupledict).
Variable (earliest_starting_times : list Z).

(** [quicksum(t * (z[n-1, m, t] - z[n-1, m, t-1])
              for t in range(1,T) for m in range(M))] *)
Definition objective : result expr :=
  quicksum (comp_flat (fun t =>
    comp (fun m => a <- td_get z (key_last n m t) ;;
                   b <- td_get z (key_last n m (t - 1)) ;;
                   Ok (Mul t (Sub a b))) (range M))
    (zrange 1 T)).

(** [(quicksum(z[i, m, T-1] for m in range(M)) == 1 for i in range(n))] *)
Definition schedule : result (list constr) :=
  comp (fun i =>
    lhs <- quicksum (comp (fun m => td_get z (key3 i m (T - 1))) (range M)) ;;
    Ok (eq_ lhs (Num 1))) (range n).

(** [(z[i, m, t-1] <= z[i, m, t] ... for t in range(1, T))] *)
Definition started_same_mode : result (list constr) :=
  comp_flat (fun i =>
    comp_flat (fun m =>
      comp (fun t => a <- td_get z (key3 i m (t - 1)) ;;
                     b <- td_get z (key3 i m t) ;;
                     Ok (le_ a b)) (zrange 1 T)) (range M)) (range n).

(** [(z[i, m, t-1] if t-1>=0 else 0)] *)
Definition before (i m : nat) (t : Z) : result expr :=
  if 0 <=? t - 1 then td_get z (key3 i m (t - 1)) else Ok (Num 0).

(** [(z[i, m, max(t - p[i][m], 0)] if t-p[i][m]>=0 else 0)] *)
Definition completed (i m : nat) (t : Z) : result expr :=
  pim <- Utils.duration p i m ;;
  if 0 <=? t - pim then td_get z (key3 i m (Z.max (t - pim) 0)) else Ok (Num 0).

Definition precedence : result (list constr) :=
  comp (fun '(i, j) =>
    lhs <- quicksum (comp_flat (fun t =>
             comp (fun m => pim <- Utils.duration p i m ;;
                            a <- td_get z (key3 i m t) ;;
                            b <- before i m t ;;
                            Ok (Mul (t + pim) (Sub a b))) (range M))
             (zrange 0 T)) ;;
    rhs <- quicksum (comp_flat (fun t =>
             comp (fun m => a <- td_get z (key3 j m t) ;;
                            b <- before j m t ;;
                            Ok (Mul t (Sub a b))) (range M))
             (zrange 0 T)) ;;
    Ok (le_ lhs rhs)) E.

Definition precedence_disaggregated : result (list constr) :=
  comp_flat (fun '(i, j) =>
    comp (fun t =>
      lhs <- quicksum (comp (fun m => completed i m t) (range M)) ;;
      rhs <- quicksum (comp (fun m => td_get z (key3 j m t)) (range M)) ;;
      Ok (ge_ lhs rhs)) (zrange 1 T)) E.

Definition resource : result (list constr) :=
  comp_flat (fun t =>
    comp (fun k =>
      lhs <- quicksum (comp_flat (fun m =>
               comp (fun i => rimk <- requirement r i m k ;;
                              a <- td_get z (key3 i m t) ;;
                              b <- completed i m t ;;
                              Ok (Mul rimk (Sub a b))) (range n)) (range M)) ;;
      Rk <- getitem R k ;;
      Ok (le_ lhs (Num Rk))) (range (length R))) (zrange 0 T).

(** [(z[i, m, T-1] == z[j, m, T-1] for i,j in L for m in range(M))] *)
Definition linked : result (list constr) :=
  comp_flat (fun '(i, j) =>
    comp (fun m => a <- td_get z (key3 i m (T - 1)) ;;
                   b <- td_get z (key3 j m (T - 1)) ;;
                   Ok (eq_ a b)) (range M)) L.

(** [(z[i, m, t] == 0 ... for t in range(earliest_starting_times[i]))] *)
Definition earliest_start_times : result (list constr) :=
  comp_flat (fun i =>
    comp_flat (fun m =>
      esti <- getitem earliest_starting_times i ;;
      comp (fun t => v <- td_get z (key3 i m t) ;; Ok (eq_ v (Num 0)))
           (zrange 0 esti)) (range M)) (range n).

End Build.

Definition build (disaggregated : bool) (n : nat) (T : Z) (M : nat) (R : list Z)
    (E : list (nat * nat)) (p : list (list Z)) (L : list (nat * nat))
    (r : list (list (list Z))) (VP : list (nat * nat)) : result model :=
  earliest_starting_times <- Utils.get_earliest_start_time n T M R E p L r VP ;;
  latest_starting_times <- Utils.get_latest_start_time n T M R E p L r VP ;;
  let last_dummy := addVars (map (fun t => [t]) (zrange 0 T)) BINARY "last_dummy" in
  let step_sets := imt_sets n M T in
  let z := addVars step_sets BINARY "pulse" in
  obj <- objective n T M z ;;
  c1 <- addConstrs "schedule" (schedule n T M z) ;;
  c2 <- addConstrs "started_same_mode" (started_same_mode n T M z) ;;
  c3 <- (if disaggregated
         then addConstrs "precedence_disaggregated" (precedence_disaggregated T M E p z)
         else addConstrs "precedence" (precedence T M E p z)) ;;
  c4 <- addConstrs "resource" (resource n T M R p r z) ;;
  c5 <- addConstrs "linked" (linked T M L z) ;;
  c6 <- addConstrs "earliest_start_times"
          (earliest_start_times n M z earliest_starting_times) ;;
  Ok {| m_name := "step";
        m_vars := td_vars last_dummy ++ td_vars z;
        m_objective := obj;
        m_constrs := c1 ++ c2 ++ c3 ++ c4 ++ c5 ++ c6 |}.

End Step.

(** ** onoff.py, after the normalisation prelude *)

Module OnOff.
Section Build.
Variables (n : nat) (T : Z) (M : nat) (R : list Z) (E : list (nat * nat))
          (p : list (list Z)) (L : list (nat * nat))
          (r : list (list (list Z))).
Variable (y : tupledict).
Variable (earliest_starting_times : list Z).

(** [quicksum(t * y[n-1, m, t] for t in range(1,T) for m in range(M))] *)
Definition objective : result expr :=
  quicksum (comp_flat (fun t =>
    comp (fun m => v <- td_get y (key_last n m t) ;; Ok (Mul t v)) (range M))
    (zrange 1 T)).

(** [y[i, m, t]/p[i][m] if p[i][m] > 0 else y[i, m, t]] *)
Definition slot_share (i m : nat) (t : Z) : result expr :=
  pim <- Utils.duration p i m ;;
  if 0 <? pim then v <- td_get y (key3 i m t) ;; Ok (Div v pim)
  else td_get y (key3 i m t).

(** [(quicksum(... for m in range(M) for t in range(T)) == 1
      for i in range(1,n-1))] *)
Definition schedule : result (list constr) :=
  comp (fun i =>
    lhs <- quicksum (comp_flat (fun m => comp (slot_share i m) (zrange 0 T))
                               (range M)) ;;
    Ok (eq_ lhs (Num 1))) (range_from 1 (n - 1)).

(** [quicksum(y[0, m, t] for m in range(M) for t in range(T)) == 1] *)
Definition schedule_first : result constr :=
  lhs <- quicksum (comp_flat (fun m =>
           comp (fun t => td_get y (key3 0 m t)) (zrange 0 T)) (range M)) ;;
  Ok (eq_ lhs (Num 1)).

(** [quicksum(y[n-1, m, t] for m in range(M) for t in range(T)) == 1] *)
Definition schedule_last : result constr :=
  lhs <- quicksum (comp_flat (fun m =>
           comp (fun t => td_get y (key_last n m t)) (zrange 0 T)) (range M)) ;;
  Ok (eq_ lhs (Num 1)).

(** [p[i][m] * (y[i,m,t] - y[i,m,t+1])
     - quicksum(y[i,m,tau] for tau in range(max(t - p[i][m]+1, 0), t)) <= 1] *)
Definition started_same_mode : result (list constr) :=
  comp_flat (fun i =>
    comp_flat (fun m =>
      comp (fun t =>
        pim <- Utils.duration p i m ;;
        a <- td_get y (key3 i m t) ;;
        b <- td_get y (key3 i m (t + 1)) ;;
        s <- quicksum (comp (fun tau => td_get y (key3 i m tau))
                            (zrange (Z.max (t - pim + 1) 0) t)) ;;
        Ok (le_ (Sub (Mul pim (Sub a b)) s) (Num 1)))
        (zrange 0 (T - 1))) (range M)) (range n).

(** [quicksum(y[i,m,tau]/max(p[i][m],1) for m in range(M)
              for tau in range(t + 1 - min(p[i][m], 1)))
     >= quicksum(y[j,m,t] for m in range(M))] *)
Definition precedence : result (list constr) :=
  comp_flat (fun '(i, j) =>
    comp (fun t =>
      lhs <- quicksum (comp_flat (fun m =>
               pim <- Utils.duration p i m ;;
               comp (fun tau => v <- td_get y (key3 i m tau) ;;
                                Ok (Div v (Z.max pim 1)))
                    (zrange 0 (t + 1 - Z.min pim 1))) (range M)) ;;
      rhs <- quicksum (comp (fun m => td_get y (key3 j m t)) (range M)) ;;
      Ok (ge_ lhs rhs)) (zrange 0 T)) E.

(** [quicksum(r[i][m][k] * y[i,m,t] for i in range(n) for m in range(M))
     <= R[k]] *)
Definition resource : result (list constr) :=
  comp_flat (fun t =>
    comp (fun k =>
      lhs <- quicksum (comp_flat (fun i =>
               comp (fun m => rimk <- requirement r i m k ;;
                              v <- td_get y (key3 i m t) ;;
                              Ok (Mul rimk v)) (range M)) (range n)) ;;
      Rk <- getitem R k ;;
      Ok (le_ lhs (Num Rk))) (range (length R))) (zrange 0 T).

(** [quicksum(y[i,m,t]/max(p[i][m],1) for t in range(T))
     == quicksum(y[j,m,t]/max(p[j][m],1) for t in range(T))] *)
Definition linked : result (list constr) :=
  comp_flat (fun '(i, j) =>
    comp (fun m =>
      lhs <- quicksum (comp (fun t => v <- td_get y (key3 i m t) ;;
                                      pim <- Utils.duration p i m ;;
                                      Ok (Div v (Z.max pim 1))) (zrange 0 T)) ;;
      rhs <- quicksum (comp (fun t => v <- td_get y (key3 j m t) ;;
                                      pjm <- Utils.duration p j m ;;
                                      Ok (Div v (Z.max pjm 1))) (zrange 0 T)) ;;
      Ok (eq_ lhs rhs)) (range M)) L.

(** [(y[i, m, t] == 0 ... for t in range(earliest_starting_times[i]))] *)
Definition zero_time_slots : result (list constr) :=
  comp_flat (fun i =>
    comp_flat (fun m =>
      esti <- getitem earliest_starting_times i ;;
      comp (fun t => v <- td_get y (key3 i m t) ;; Ok (eq_ v (Num 0)))
           (zrange 0 esti)) (range M)) (range n).

End Build.

Definition build (n : nat) (T : Z) (M : nat) (R : list Z)
    (E : list (nat * nat)) (p : list (list Z)) (L : list (nat * nat))
    (r : list (list (list Z))) (VP : list (nat * nat)) : result model :=
  earliest_starting_times <- Utils.get_earliest_start_time n T M R E p L r VP ;;
  latest_starting_times <- Utils.get_latest_start_time n T M R E p L r VP ;;
  let step_sets := imt_sets n M T in
  let y := addVars step_sets BINARY "onoff" in
  obj <- objective n T M y ;;
  c1 <- addConstrs "schedule" (schedule n T M p y) ;;
  c2 <- (c <- schedule_first T M y ;; Ok [("schedule_first", c)]) ;;
  c3 <- (c <- schedule_last n T M y ;; Ok [("schedule_last", c)]) ;;
  c4 <- addConstrs "started_same_mode" (started_same_mode n T M p y) ;;
  c5 <- addConstrs "precedence" (precedence T M E p y) ;;
  c6 <- addConstrs "resource" (resource n T M R r y) ;;
  c7 <- addConstrs "linked" (linked T M p L y) ;;
  c8 <- addConstrs "zero_time_slots" (zero_time_slots n M y earliest_starting_times) ;;
  Ok {| m_name := "onoff";
        m_vars := td_vars y;
        m_objective := obj;
        m_constrs := c1 ++ c2 ++ c3 ++ c4 ++ c5 ++ c6 ++ c7 ++ c8 |}.

End OnOff.

(** ** onoff_pulse.py, after the normalisation prelude

    Objective, schedule, precedence (both variants), resource, linked and
    zero_time_slots are written exactly as in pulse.py, over the pulse
    variables [x]; only the two connecting families are new. *)

Module OnOffPulse.
Section Build.
Variables (n : nat) (T : Z) (M : nat) (p : list (list Z)).
Variables (x y : tupledict).

(** [(y[i,m,t] == quicksum(x[i,m,tau]
        for tau in range(max(t - p[i][m] + 1, 0), t+1))
      for i in range(n) for t in range(T) for m in range(M))] *)
Definition connect_pulse_onoff : result (list constr) :=
  comp_flat (fun i =>
    comp_flat (fun t =>
      comp (fun m =>
        a <- td_get y (key3 i m t) ;;
        pim <- Utils.duration p i m ;;
        s <- quicksum (comp (fun tau => td_get x (key3 i m tau))
                            (zrange (Z.max (t - pim + 1) 0) (t + 1))) ;;
        Ok (eq_ a s)) (range M)) (zrange 0 T)) (range n).

(** [(quicksum(y[i,m,t] for t in range(T))
      == quicksum(p[i][m] * x[i,m,t] for t in range(T))
      for i in range(n) for m in range(M))] *)
Definition connect_pulse_onoff_processing_time : result (list constr) :=
  comp_flat (fun i =>
    comp (fun m =>
      lhs <- quicksum (comp (fun t => td_get y (key3 i m t)) (zrange 0 T)) ;;
      rhs <- quicksum (comp (fun t => pim <- Utils.duration p i m ;;
                                      v <- td_get x (key3 i m t) ;;
                                      Ok (Mul pim v)) (zrange 0 T)) ;;
      Ok (eq_ lhs rhs)) (range M)) (range n).

End Build.

Definition build (disaggregated : bool) (n : nat) (T : Z) (M : nat) (R : list Z)
    (E : list (nat * nat)) (p : list (list Z)) (L : list (nat * nat))
    (r : list (list (list Z))) (VP : list (nat * nat)) : result model :=
  earliest_starting_times <- Utils.get_earliest_start_time n T M R E p L r VP ;;
  latest_starting_times <- Utils.get_latest_start_time n T M R E p L r VP ;;
  let pulse_sets := imt_sets n M T in
  let x := addVars pulse_sets BINARY "pulse" in
  let y := addVars pulse_sets BINARY "onoff" in
  obj <- Pulse.objective n T M x ;;
  c1 <- addConstrs "schedule" (Pulse.schedule n x) ;;
  c2 <- addConstrs "connect_pulse_onoff" (connect_pulse_onoff n T M p x y) ;;
  c3 <- addConstrs "connect_pulse_onoff_processing_time"
          (connect_pulse_onoff_processing_time n T M p x y) ;;
  c4 <- addConstrs "precedence"
          (if disaggregated then Pulse.precedence_disaggregated T M E p x
           else Pulse.precedence T M E p x) ;;
  c5 <- addConstrs "resource" (Pulse.resource n T M R p r x) ;;
  c6 <- addConstrs "linked" (Pulse.linked T M L x) ;;
  c7 <- addConstrs "zero_time_slots"
          (Pulse.zero_time_slots n M x earliest_starting_times) ;;
  Ok {| m_name := "onoff_pulse";
        m_vars := td_vars x ++ td_vars y;
        m_objective := obj;
        m_constrs := c1 ++ c2 ++ c3 ++ c4 ++ c5 ++ c6 ++ c7 |}.

End OnOffPulse.

(** ** continuous.py, after the normalisation prelude *)

Module Continuous.
Section Build.
Variables (n : nat) (T : Z) (M : nat) (R : list Z) (E : list (nat * nat))
          (VP : list (nat * nat)) (p : list (list Z)) (L : list (nat * nat))
          (r : list (list (list Z))).
Variables (S x y z u : tupledict).
Variable (earliest_starting_times : list Z).

(** [(S[i] >= earliest_starting_times[i] for i in range(n))] *)
Definition earliest_bounds : result (list constr) :=
  comp (fun i => s <- td_get S (key1 i) ;;
                 esti <- getitem earliest_starting_times i ;;
                 Ok (ge_ s (Num esti))) (range n).

(** [S[n-1]] *)
Definition objective : result expr := td_get S [Z.of_nat n - 1].

(** [quicksum(p[i][m] * x[i, m] for m in range(M))] *)
Definition chosen_duration (i : nat) : result expr :=
  quicksum (comp (fun m => pim <- Utils.duration p i m ;;
                           v <- td_get x (key2 i m) ;;
                           Ok (Mul pim v)) (range M)).

(** [(S[i] + ... <= S[j] + T*(1-y[i, j]) for i,j in VP)] *)
Definition connect_start_completion : result (list constr) :=
  comp (fun '(i, j) =>
    si <- td_get S (key1 i) ;;
    d <- chosen_duration i ;;
    sj <- td_get S (key1 j) ;;
    yij <- td_get y (key2 i j) ;;
    Ok (le_ (Add si d) (Add sj (Mul T (Sub (Num 1) yij))))) VP.

(** [(S[i] + ... <= S[j] for i,j in E)] *)
Definition precedence : result (list constr) :=
  comp (fun '(i, j) =>
    si <- td_get S (key1 i) ;;
    d <- chosen_duration i ;;
    sj <- td_get S (key1 j) ;;
    Ok (le_ (Add si d) sj)) E.

(** [(T * z[i, j] >= S[j] - S[i] + 1 for i,j in VP)] *)
Definition connect_start_start_timing : result (list constr) :=
  comp (fun '(i, j) =>
    zij <- td_get z (key2 i j) ;;
    sj <- td_get S (key1 j) ;;
    si <- td_get S (key1 i) ;;
    Ok (ge_ (Mul T zij) (Add (Sub sj si) (Num 1)))) VP.

(** [(quicksum(x[i, m] for m in range(M)) == 1 for i in range(n))] *)
Definition execute_activity : result (list constr) :=
  comp (fun i =>
    lhs <- quicksum (comp (fun m => td_get x (key2 i m)) (range M)) ;;
    Ok (eq_ lhs (Num 1))) (range n).

(** [quicksum(r[i][m][k] * x[i, m] for m in range(M))] *)
Definition chosen_requirement (i k : nat) : result expr :=
  quicksum (comp (fun m => rimk <- requirement r i m k ;;
                           v <- td_get x (key2 i m) ;;
                           Ok (Mul rimk v)) (range M)).

(** [(... - max(r[j][m][k] for m in range(M))*(1 - z[j, i] + y[j, i])
      <= u[j,i,k] for j, i in VP for k in range(len(R)))] *)
Definition resource : result (list constr) :=
  comp_flat (fun '(j, i) =>
    comp (fun k =>
      d <- chosen_requirement j k ;;
      rs <- comp (fun m => requirement r j m k) (range M) ;;
      mx <- py_max rs ;;
      zji <- td_get z (key2 j i) ;;
      yji <- td_get y (key2 j i) ;;
      ujik <- td_get u (key3 j i (Z.of_nat k)) ;;
      Ok (le_ (Sub d (Mul mx (Add (Sub (Num 1) zji) yji))) ujik))
      (range (length R))) VP.

(** [(... + quicksum(u[j, i, k] for j, i_prime in VP if i_prime == i)
      <= R[k] for i in range(n) for k in range(len(R)))] *)
Definition resource_2 : result (list constr) :=
  comp_flat (fun i =>
    comp (fun k =>
      d <- chosen_requirement i k ;;
      us <- quicksum (comp_flat (fun '(j, i_prime) =>
              if (i_prime =? i)%nat
              then v <- td_get u (key3 j i (Z.of_nat k)) ;; Ok [v]
              else Ok []) VP) ;;
      Rk <- getitem R k ;;
      Ok (le_ (Add d us) (Num Rk))) (range (length R))) (range n).

(** [(x[i, m] == x[j, m] for i,j in L for m in range(M))] *)
Definition linked : result (list constr) :=
  comp_flat (fun '(i, j) =>
    comp (fun m => a <- td_get x (key2 i m) ;;
                   b <- td_get x (key2 j m) ;;
                   Ok (eq_ a b)) (range M)) L.

End Build.

Definition pair_sets (n : nat) : list (list Z) :=
  flat_map (fun i => map (key2 i) (range n)) (range n).

Definition build (n : nat) (T : Z) (M : nat) (R : list Z)
    (E : list (nat * nat)) (VP : list (nat * nat)) (p : list (list Z))
    (L : list (nat * nat)) (r : list (list (list Z))) : result model :=
  earliest_starting_times <- Utils.get_earliest_start_time n T M R E p L r VP ;;
  latest_starting_times <- Utils.get_latest_start_time n T M R E p L r VP ;;
  let S := addVars (map key1 (range n)) CONTINUOUS "activity" in
  c0 <- addConstrs "earliest_starting_times"
          (earliest_bounds n S earliest_starting_times) ;;
  let activity_mode_sets := flat_map (fun i => map (key2 i) (range M)) (range n) in
  let x := addVars activity_mode_sets BINARY "mode" in
  let y := addVars (pair_sets n) BINARY "completion_start_sequence" in
  let z := addVars (pair_sets n) BINARY "start_start_sequence" in
  let resource_sets :=
    flat_map (fun i => flat_map (fun j =>
      map (fun k => key3 i j (Z.of_nat k)) (range (length R))) (range n)) (range n) in
  let u := addVars resource_sets BINARY "resource" in
  obj <- objective n S ;;
  c1 <- addConstrs "connect_start_completion"
          (connect_start_completion T M VP p S x y) ;;
  c2 <- addConstrs "connect_start_completion" (precedence M E p S x) ;;
  c3 <- addConstrs "connect_start_start_timing"
          (connect_start_start_timing T VP S z) ;;
  c4 <- addConstrs "execute_activity" (execute_activity n M x) ;;
  c5 <- addConstrs "resource" (resource M R VP r x y z u) ;;
  c6 <- addConstrs "resource_2" (resource_2 n M R VP r x u) ;;
  c7 <- addConstrs "linked" (linked M L x) ;;
  Ok {| m_name := "continuous";
        m_vars := td_vars S ++ td_vars x ++ td_vars y ++ td_vars z ++ td_vars u;
        m_objective := obj;
        m_constrs := c0 ++ c1 ++ c2 ++ c3 ++ c4 ++ c5 ++ c6 ++ c7 |}.

End Continuous.

(** ** The object store

    The duration table [p] is a mutable Python object that caller and
    builder share by reference: a location in the store.  A table is a
    tree-shaped value (what [json.load] and [copy.deepcopy] produce), so
    rows are not shared between tables.  Integers such as [T] are passed
    by value. *)

Definition loc : Type := positive.
Abbreviation heap := (gmap positive (list (list Z))).

Definition prog (A : Type) : Type := heap -> result A * heap.

Definition pret {A} (a : A) : prog A := fun h => (Ok a, h).
Definition pbind {A B} (c : prog A) (k : A -> prog B) : prog B :=
  fun h => match c h with
           | (Ok a, h') => k a h'
           | (Raise e, h') => (Raise e, h')
           end.
Definition lift {A} (c : result A) : prog A := fun h => (c, h).

Declare Scope prog_scope.
Delimit Scope prog_scope with prog.
Notation "x <~ c ;; k" := (pbind c (fun x => k))
  (at level 100, c at next level, right associativity) : prog_scope.
Local Open Scope prog_scope.

Definition load (l : loc) : prog (list (list Z)) :=
  fun h => match h !! l with
           | Some tbl => (Ok tbl, h)
           | None => (Raise TypeError, h)
           end.
Definition store (l : loc) (tbl : list (list Z)) : prog unit :=
  fun h => (Ok tt, <[l := tbl]> h).
Definition alloc (tbl : list (list Z)) : prog loc :=
  fun h => let l := fresh (dom h) in (Ok l, <[l := tbl]> h).

Fixpoint pfor {A} (xs : list A) (body : A -> prog unit) : prog unit :=
  match xs with
  | [] => pret tt
  | x :: xs' => _ <~ body x ;; pfor xs' body
  end.

(** ** The normalisation prelude shared, verbatim, by all eight builders *)

(** [a // b] on Python integers. *)
Definition floordiv (a b : Z) : result Z :=
  if b =? 0 then Raise ZeroDivisionError else Ok (a / b).

(** [math.gcd] applied to the unpacked list. *)
Definition gcd_all (xs : list Z) : Z := foldr Z.gcd 0 xs.

(** [list(set([i for job in p for i in job]))] followed by [.append(T)];
    the iteration order of the set is whatever [elements] gives. *)
Definition unique_processing_times (tbl : list (list Z)) (T : Z) : list Z :=
  elements (list_to_set (concat tbl) : gset Z) ++ [T].

Definition compute_divisor (tbl : list (list Z)) (T : Z) : Z :=
  gcd_all (unique_processing_times tbl T).

(** [p[i][j] = p[i][j] // divisor] *)
Definition rescale_cell (p : loc) (divisor : Z) (i j : nat) : prog unit :=
  tbl <~ load p ;;
  row <~ lift (getitem tbl i) ;;
  v <~ lift (getitem row j) ;;
  q <~ lift (floordiv v divisor) ;;
  row' <~ lift (setitem row j q) ;;
  tbl' <~ lift (setitem tbl i row') ;;
  store p tbl'.

(** [for j in range(len(p[i])): ...] *)
Definition rescale_row (p : loc) (divisor : Z) (i : nat) : prog unit :=
  tbl <~ load p ;;
  row <~ lift (getitem tbl i) ;;
  pfor (range (length row)) (rescale_cell p divisor i).

(** Returns the rebound local [T] and [divisor]; the table at [p] is
    overwritten in place. *)
Definition normalize (p : loc) (T : Z) : prog (Z * Z) :=
  tbl <~ load p ;;
  let divisor := compute_divisor tbl T in
  _ <~ pfor (range (length tbl)) (rescale_row p divisor) ;;
  T <~ lift (floordiv T divisor) ;;
  pret (T, divisor).

(** ** The eight builders *)

Definition pulse_model (n : nat) (T : Z) (M : nat) (R : list Z)
    (E : list (nat * nat)) (p : loc) (L : list (nat * nat))
    (r : list (list (list Z))) (VP : list (nat * nat)) : prog (model * Z) :=
  nt <~ normalize p T ;;
  let '(T, divisor) := nt in
  tbl <~ load p ;;
  model <~ lift (Pulse.build false n T M R E tbl L r VP) ;;
  pret (model, divisor).

Definition pulse_model_disaggregated (n : nat) (T : Z) (M : nat) (R : list Z)
    (E : list (nat * nat)) (p : loc) (L : list (nat * nat))
    (r : list (list (list Z))) (VP : list (nat * nat)) : prog (model * Z) :=
  nt <~ normalize p T ;;
  let '(T, divisor) := nt in
  tbl <~ load p ;;
  model <~ lift (Pulse.build true n T M R E tbl L r VP) ;;
  pret (model, divisor).

Definition step_model (n : nat) (T : Z) (M : nat) (R : list Z)
    (E : list (nat * nat)) (p : loc) (L : list (nat * nat))
    (r : list (list (list Z))) (VP : list (nat * nat)) : prog (model * Z) :=
  nt <~ normalize p T ;;
  let '(T, divisor) := nt in
  tbl <~ load p ;;
  model <~ lift (Step.build false n T M R E tbl L r VP) ;;
  pret (model, divisor).

Definition step_model_disaggregated (n : nat) (T : Z) (M : nat) (R : list Z)
    (E : list (nat * nat)) (p : loc) (L : list (nat * nat))
    (r : list (list (list Z))) (VP : list (nat * nat)) : prog (model * Z) :=
  nt <~ normalize p T ;;
  let '(T, divisor) := nt in
  tbl <~ load p ;;
  model <~ lift (Step.build true n T M R E tbl L r VP) ;;
  pret (model, divisor).

Definition onoff_model (n : nat) (T : Z) (M : nat) (R : list Z)
    (E : list (nat * nat)) (p : loc) (L : list (nat * nat))
    (r : list (list (list Z))) (VP : list (nat * nat)) : prog (model * Z) :=
  nt <~ normalize p T ;;
  let '(T, divisor) := nt in
  tbl <~ load p ;;
  model <~ lift (OnOff.build n T M R E tbl L r VP) ;;
  pret (model, divisor).

Definition onoff_pulse_model (n : nat) (T : Z) (M : nat) (R : list Z)
    (E : list (nat * nat)) (p : loc) (L : list (nat * nat))
    (r : list (list (list Z))) (VP : list (nat * nat)) : prog (model * Z) :=
  nt <~ normalize p T ;;
  let '(T, divisor) := nt in
  tbl <~ load p ;;
  model <~ lift (OnOffPulse.build false n T M R E tbl L r VP) ;;
  pret (model, divisor).

Definition onoff_pulse_model_disaggregated (n : nat) (T : Z) (M : nat)
    (R : list Z) (E : list (nat * nat)) (p : loc) (L : list (nat * nat))
    (r : list (list (list Z))) (VP : list (nat * nat)) : prog (model * Z) :=
  nt <~ normalize p T ;;
  let '(T, divisor) := nt in
  tbl <~ load p ;;
  model <~ lift (OnOffPulse.build true n T M R E tbl L r VP) ;;
  pret (model, divisor).

Definition continuous_model (n : nat) (T : Z) (M : nat) (R : list Z)
    (E : list (nat * nat)) (VP : list (nat * nat)) (p : loc)
    (L : list (nat * nat)) (r : list (list (list Z))) : prog (model * Z) :=
  nt <~ normalize p T ;;
  let '(T, divisor) := nt in
  tbl <~ load p ;;
  model <~ lift (Continuous.build n T M R E VP tbl L r) ;;
  pret (model, divisor).

(** ** test.py *)

(** The [input] dictionary read from an instance file. *)
Record input : Type :=
  { in_n : nat; in_T : Z; in_M : nat; in_R : list Z;
    in_E : list (nat * nat); in_p : loc; in_L : list (nat * nat);
    in_r : list (list (list Z)) }.

(** [copy.deepcopy(input_base)]: the one mutable member gets a fresh object. *)
Definition deepcopy (input_base : input) : prog input :=
  tbl <~ load (in_p input_base) ;;
  l <~ alloc tbl ;;
  pret {| in_n := in_n input_base; in_T := in_T input_base;
          in_M := in_M input_base; in_R := in_R input_base;
          in_E := in_E input_base; in_p := l; in_L := in_L input_base;
          in_r := in_r input_base |}.

(** [[[i,j] for i in range(n) for j in range(n)
       if [i,j] not in E and [j,i] not in E and i != j]] *)
Definition derive_VP (n : nat) (E : list (nat * nat)) : list (nat * nat) :=
  flat_map (fun i =>
    flat_map (fun j =>
      if negb (bool_decide ((i, j) ∈ E)) && negb (bool_decide ((j, i) ∈ E))
         && negb (i =? j)%nat
      then [(i, j)] else []) (range n)) (range n).

(** A builder called with keyword arguments, as [test_models] does. *)
Definition model_init : Type := input -> list (nat * nat) -> prog (model * Z).

Definition kw (b : nat -> Z -> nat -> list Z -> list (nat * nat) -> loc ->
                   list (nat * nat) -> list (list (list Z)) ->
                   list (nat * nat) -> prog (model * Z)) : model_init :=
  fun i VP => b (in_n i) (in_T i) (in_M i) (in_R i) (in_E i) (in_p i)
                (in_L i) (in_r i) VP.

Definition kw_continuous : model_init :=
  fun i VP => continuous_model (in_n i) (in_T i) (in_M i) (in_R i) (in_E i) VP
                (in_p i) (in_L i) (in_r i).

(** The list handed to [test_models] in [__main__]. *)
Definition models : list (string * model_init) :=
  [ ("PDT", kw pulse_model);
    ("PDDT", kw pulse_model_disaggregated);
    ("SDT", kw step_model);
    ("SDDT", kw step_model_disaggregated);
    ("OODDT", kw onoff_model);
    ("OOPDT", kw onoff_pulse_model);
    ("OOPDDT", kw onoff_pulse_model_disaggregated);
    ("MSEQCT", kw_continuous) ].

(** [test_models], up to the hand-over to the solver: every builder runs
    on its own deep copy of [input_base]. *)
Fixpoint test_models (ms : list (string * model_init)) (input_base : input)
  : prog (list (string * model * Z)) :=
  match ms with
  | [] => pret []
  | (model_name, init) :: ms' =>
      inp <~ deepcopy input_base ;;
      let VP := derive_VP (in_n inp) (in_E inp) in
      md <~ init inp VP ;;
      let '(model, divisor) := md in
      results <~ test_models ms' input_base ;;
      pret ((model_name, model, divisor) :: results)
  end.

(** ** What an optimal solve of an all-binary model reports

    The solver is an external collaborator; for a model whose variables
    are all binary, "solved to provable optimality" means: the least
    objective value over the 0/1 assignments that satisfy every
    constraint.  Coefficients are exact rationals. *)

Fixpoint forallb2 {A} (f : A -> A -> bool) (xs ys : list A) : bool :=
  match xs, ys with
  | [], [] => true
  | x :: xs', y :: ys' => f x y && forallb2 f xs' ys'
  | _, _ => false
  end.

Local Open Scope Q_scope.

Fixpoint eval (a : var -> Q) (e : expr) : Q :=
  match e with
  | Var v => a v
  | Num c => inject_Z c
  | Add e1 e2 => eval a e1 + eval a e2
  | Sub e1 e2 => eval a e1 - eval a e2
  | Mul c e1 => inject_Z c * eval a e1
  | Div e1 c => eval a e1 / inject_Z c
  | Quicksum es => fold_right (fun e1 acc => eval a e1 + acc) 0 es
  end.

Definition holds (a : var -> Q) (c : constr) : bool :=
  match c_sense c with
  | LE => Qle_bool (eval a (c_lhs c)) (eval a (c_rhs c))
  | GE => Qle_bool (eval a (c_rhs c)) (eval a (c_lhs c))
  | EQ => Qeq_bool (eval a (c_lhs c)) (eval a (c_rhs c))
  end.

Definition feasible (m : model) (a : var -> Q) : bool :=
  forallb (fun nc => holds a (snd nc)) (m_constrs m).

Definition var_eqb (v w : var) : bool :=
  String.eqb (fst v) (fst w) && forallb2 Z.eqb (snd v) (snd w).

(** An assignment given by the list of variables set to 1. *)
Definition ones (vs : list var) : var -> Q :=
  fun v => if existsb (var_eqb v) vs then 1 else 0.

(** All 0/1 assignments of the declared variables. *)
Fixpoint binary_assignments (vs : list var) : list (list var) :=
  match vs with
  | [] => [[]]
  | v :: vs' =>
      let rest := binary_assignments vs' in
      rest ++ map (cons v) rest
  end.

Definition all_binary (m : model) : bool :=
  forallb (fun vt => match snd vt with BINARY => true | CONTINUOUS => false end)
          (m_vars m).

Definition qmin_list (xs : list Q) : option Q :=
  match xs with
  | [] => None
  | x :: xs' => Some (fold_left (fun a b => if Qle_bool b a then b else a) xs' x)
  end.

(** [None]: infeasible (or not an all-binary model). *)
Definition optimal_value (m : model) : option Q :=
  if all_binary m then
    let sols := List.filter (fun s => feasible m (ones s))
                            (binary_assignments (map fst (m_vars m))) in
    option_map Qred (qmin_list (map (fun s => eval (ones s) (m_objective m)) sols))
  else None.

(** The figure [test_models] records: [model.objVal * divisor]. *)
Definition reported_objective (md : model * Z) : option Q :=
  option_map (fun v => Qred (v * inject_Z (snd md))) (optimal_value (fst md)).

Local Close Scope Q_scope.

(** ** Specification vocabulary *)

(** The shape the data model gives an instance: a source and a sink
    exist, at least one mode, an [n] by [M] duration table, and edges
    between known activities. *)
Record well_formed (n M : nat) (E : list (nat * nat)) (p : list (list Z))
  : Prop :=
  { wf_n : (1 <= n)%nat;
    wf_M : (1 <= M)%nat;
    wf_rows : length p = n;
    wf_cols : Forall (fun row => length row = M) p;
    wf_E : Forall (fun e => (fst e < n)%nat /\ (snd e < n)%nat) E }.

(** Activities are topologically numbered with respect to [E]. *)
Definition topologically_numbered (E : list (nat * nat)) : Prop :=
  Forall (fun e => (fst e < snd e)%nat) E.

Definition nonneg_durations (p : list (list Z)) : Prop :=
  Forall (Forall (fun v => 0 <= v)) p.

(** [p[i][m] = v] *)
Definition duration_is (p : list (list Z)) (i m : nat) (v : Z) : Prop :=
  exists row, p !! i = Some row /\ row !! m = Some v.

(** [d] is the least duration of activity [i] over the modes [0..M-1]. *)
Definition is_min_over_modes (p : list (list Z)) (M i : nat) (d : Z) : Prop :=
  (exists m, (m < M)%nat /\ duration_is p i m d) /\
  (forall m v, (m < M)%nat -> duration_is p i m v -> d <= v).

(** A path of at least one precedence edge. *)
Inductive path (E : list (nat * nat)) : nat -> nat -> Prop :=
| path_edge i j : (i, j) ∈ E -> path E i j
| path_step i j k : (i, j) ∈ E -> path E j k -> path E i k.

Definition acyclic (E : list (nat * nat)) : Prop := forall i, ~ path E i i.

(** No two activities are ordered both ways. *)
Definition no_antiparallel (E : list (nat * nat)) : Prop :=
  forall i j, i <> j -> ~ ((i, j) ∈ E /\ (j, i) ∈ E).

(** Exactly one of three propositions holds. *)
Definition exactly_one (A B C : Prop) : Prop :=
  (A /\ ~ B /\ ~ C) \/ (~ A /\ B /\ ~ C) \/ (~ A /\ ~ B /\ C).

(** The table with every duration replaced by its quotient by [d]. *)
Definition rescaled (d : Z) (tbl : list (list Z)) : list (list Z) :=
  map (map (fun v => v / d)) tbl.

(** The closed set of encodings, named as [test.py] labels them. *)
Inductive encoding : Type :=
| PDT | PDDT | SDT | SDDT | OODDT | OOPDT | OOPDDT | MSEQCT.

(** The positional signature [(n, T, M, R, E, p, L, r, VP)] shared by the
    discrete builders; [continuous_model] is called through it with its
    [VP] and [p] parameters in their own positions. *)
Definition builder : Type :=
  nat -> Z -> nat -> list Z -> list (nat * nat) -> loc -> list (nat * nat) ->
  list (list (list Z)) -> list (nat * nat) -> prog (model * Z).

Definition builder_of (enc : encoding) : builder :=
  match enc with
  | PDT => pulse_model
  | PDDT => pulse_model_disaggregated
  | SDT => step_model
  | SDDT => step_model_disaggregated
  | OODDT => onoff_model
  | OOPDT => onoff_pulse_model
  | OOPDDT => onoff_pulse_model_disaggregated
  | MSEQCT => fun n T M R E p L r VP => continuous_model n T M R E VP p L r
  end.

(** The model fixes to 0 the indicator [family[i, m, t]] of every
    activity, mode and instant before the activity's earliest start. *)
Definition fixes_early_slots (family : string) (n M : nat) (est : list Z)
    (m : model) : Prop :=
  forall i mo t e, (i < n)%nat -> (mo < M)%nat -> est !! i = Some e ->
    0 <= t < e ->
    exists name, (name, eq_ (Var (family, key3 i mo t)) (Num 0)) ∈ m_constrs m.

(** The model bounds the start variable [S[i]] of every activity from
    below by the activity's earliest start. *)
Definition bounds_start_times (n : nat) (est : list Z) (m : model) : Prop :=
  forall i e, (i < n)%nat -> est !! i = Some e ->
    exists name, (name, ge_ (Var ("activity", key1 i)) (Num e)) ∈ m_constrs m.

(** The bound tightening expected of each encoding: the on-off encoding
    fixes its "active" indicator, the other discrete ones their "start"
    (pulse or step) indicator, a family they all name "pulse". *)
Definition bound_tightening (enc : encoding) (n M : nat) (est : list Z)
    (m : model) : Prop :=
  match enc with
  | MSEQCT => bounds_start_times n est m
  | OODDT => fixes_early_slots "onoff" n M est m
  | _ => fixes_early_slots "pulse" n M est m
  end.

(** A builder writes no location except the table it was handed. *)
Definition writes_only_own_table (b : model_init) : Prop :=
  forall inp VP (h : heap) res h',
    b inp VP h = (res, h') -> forall l, l <> in_p inp -> h' !! l = h !! l.

(** [r[i][m][k]] exists for every activity, mode and resource. *)
Definition requirements_shape (n M K : nat) (r : list (list (list Z))) : Prop :=
  forall i m k, (i < n)%nat -> (m < M)%nat -> (k < K)%nat ->
    exists ri rim v, r !! i = Some ri /\ ri !! m = Some rim /\ rim !! k = Some v.

Definition pairs_in_range (n : nat) (ps : list (nat * nat)) : Prop :=
  Forall (fun e => (fst e < n)%nat /\ (snd e < n)%nat) ps.

(** A rescaled instance every builder can encode: well-formed tables,
    non-negative durations, at least one time slot, and a horizon that
    is not exceeded by any earliest start.  [E] need not be acyclic. *)
Record encodable (n : nat) (T : Z) (M : nat) (R : list Z)
    (E : list (nat * nat)) (p : list (list Z)) (L : list (nat * nat))
    (r : list (list (list Z))) (VP : list (nat * nat)) : Prop :=
  { en_wf : well_formed n M E p;
    en_nonneg : nonneg_durations p;
    en_r : requirements_shape n M (length R) r;
    en_L : pairs_in_range n L;
    en_VP : pairs_in_range n VP;
    en_T : 1 <= T;
    en_est : forall est,
      Utils.get_earliest_start_time n T M R E p L r VP = Ok est ->
      Forall (fun e => e <= T) est }.

(** The body of each builder below its prelude, on the rescaled horizon
    and table. *)
Definition build_of (enc : encoding) (n : nat) (T : Z) (M : nat) (R : list Z)
    (E : list (nat * nat)) (p : list (list Z)) (L : list (nat * nat))
    (r : list (list (list Z))) (VP : list (nat * nat)) : result model :=
  match enc with
  | PDT => Pulse.build false n T M R E p L r VP
  | PDDT => Pulse.build true n T M R E p L r VP
  | SDT => Step.build false n T M R E p L r VP
  | SDDT => Step.build true n T M R E p L r VP
  | OODDT => OnOff.build n T M R E p L r VP
  | OOPDT => OnOffPulse.build false n T M R E p L r VP
  | OOPDDT => OnOffPulse.build true n T M R E p L r VP
  | MSEQCT => Continuous.build n T M R E VP p L r
  end.

(** The time-indexed encodings. *)
Definition discrete (enc : encoding) : Prop := enc <> MSEQCT.

(** The number of variables each encoding declares, for [n] activities,
    [M] modes, [K] resources and [slots] time slots. *)
Definition variable_count (enc : encoding) (n M K slots : nat) : nat :=
  match enc with
  | PDT | PDDT | OODDT => n * M * slots
  | SDT | SDDT => slots + n * M * slots
  | OOPDT | OOPDDT => n * M * slots + n * M * slots
  | MSEQCT => n + n * M + n * n + n * n + n * n * K
  end%nat.

(** The constraints a model holds under a given family name. *)
Definition constraints_named (name : string) (m : model) : list constr :=
  map snd (filter (fun nc => fst nc = name) (m_constrs m)).

(** The family name under which each builder registers its precedence
    constraints, and how many it registers for a given number of edges,
    of non-ordered pairs and of time slots. *)
Definition precedence_family (enc : encoding) : string :=
  match enc with
  | SDDT => "precedence_disaggregated"
  | MSEQCT => "connect_start_completion"
  | _ => "precedence"
  end.

Definition precedence_rows (enc : encoding) (edges pairs slots : nat) : nat :=
  match enc with
  | PDT | SDT | OOPDT => edges
  | PDDT | OODDT | OOPDDT => edges * slots
  | SDDT => edges * (slots - 1)
  | MSEQCT => pairs + edges
  end%nat.

(** An assignment keeps every activity from its early slots (time-indexed
    encodings), resp. starts no activity before its earliest start
    (continuous encoding). *)
Definition respects_earliest_starts (enc : encoding) (n M : nat) (est : list Z)
    (a : var -> Q) : Prop :=
  match enc with
  | MSEQCT =>
      forall i e, (i < n)%nat -> est !! i = Some e ->
        (inject_Z e <= a ("activity", key1 i))%Q
  | OODDT =>
      forall i mo t e, (i < n)%nat -> (mo < M)%nat -> est !! i = Some e ->
        0 <= t < e -> (a ("onoff", key3 i mo t) == 0)%Q
  | _ =>
      forall i mo t e, (i < n)%nat -> (mo < M)%nat -> est !! i = Some e ->
        0 <= t < e -> (a ("pulse", key3 i mo t) == 0)%Q
  end.

(** The variables an expression, a constraint, a model mention, and the
    ones a model declares. *)
Fixpoint expr_vars (e : expr) : list var :=
  match e with
  | Var v => [v]
  | Num _ => []
  | Add a b | Sub a b => expr_vars a ++ expr_vars b
  | Mul _ a | Div a _ => expr_vars a
  | Quicksum es => flat_map expr_vars es
  end.

Definition constr_vars (c : constr) : list var :=
  expr_vars (c_lhs c) ++ expr_vars (c_rhs c).

Definition occurring (m : model) : list var :=
  expr_vars (m_objective m) ++ flat_map (fun nc => constr_vars (snd nc)) (m_constrs m).

Definition declared (m : model) : list var := map fst (m_vars m).

(** ** instances/generator.py: the tasks of a process

    Durations are the integers [PhaseProfile.__init__] has stored; the
    random choices of the generator stay outside. *)

Module Generator.

Inductive NetworkType : Type := INTREE | SINGLE | DOUBLE | TRIPLE.
Inductive ResourceLevel : Type := L1 | L2 | L3.
Inductive Mode : Type := MODE_1 | MODE_2 | MODE_3.

Record Task : Type :=
  { duration : Z; resource : ResourceLevel; earliest_start : Z }.

Record PhaseProfile : Type :=
  { resource_1_duration : Z; resource_2_duration : Z; resource_3_duration : Z }.

Record Process : Type :=
  { network_type : NetworkType; phases : list PhaseProfile }.

(** [sum(t.duration for t in tasks)] *)
Definition sum_durations (tasks : list Task) : Z :=
  foldr (fun t acc => duration t + acc) 0 tasks.

(** [tasks.append(Task(d, level,
                       earliest_start=start_time+sum(t.duration for t in tasks)))] *)
Definition append_task (tasks : list Task) (d : Z) (level : ResourceLevel)
    (start_time : Z) : list Task :=
  tasks ++ [{| duration := d; resource := level;
               earliest_start := start_time + sum_durations tasks |}].

(** The [match mode] statement. *)
Definition tasks_of (phase : PhaseProfile) (mode : Mode) (start_time : Z)
  : list Task :=
  match mode with
  | MODE_1 =>
      let tasks := append_task [] (resource_1_duration phase) L1 start_time in
      let tasks := append_task tasks (resource_2_duration phase) L2 start_time in
      append_task tasks (resource_3_duration phase) L3 start_time
  | MODE_2 =>
      let tasks := append_task [] (resource_2_duration phase * 2) L2 start_time in
      append_task tasks (resource_3_duration phase) L3 start_time
  | MODE_3 =>
      append_task [] (resource_3_duration phase * 3) L3 start_time
  end.

(** "Find start time for the current phase": [done] is the local list
    [phases] built so far. *)
Definition start_time_of (nt : NetworkType) (i : nat) (done : list (list Task))
  : result Z :=
  match nt, i with
  | INTREE, 0%nat | INTREE, 1%nat => Ok 0
  | INTREE, 2%nat =>
      p0 <- getitem done 0 ;;
      p1 <- getitem done 1 ;;
      Ok (Z.max (sum_durations p0) (sum_durations p1))
  | _, _ => Ok (sum_durations (concat done))
  end.

Definition is_network (a b : NetworkType) : bool :=
  match a, b with
  | INTREE, INTREE | SINGLE, SINGLE | DOUBLE, DOUBLE | TRIPLE, TRIPLE => true
  | _, _ => false
  end.

(** One turn of [for i, phase in enumerate(self.phases)]; [Ok done]
    without a new entry is [continue]. *)
Definition phase_step (nt : NetworkType) (modes : list Mode)
    (done : list (list Task)) (ip : nat * PhaseProfile)
  : result (list (list Task)) :=
  let '(i, phase) := ip in
  if is_network nt SINGLE && (1 <=? i)%nat then Ok done
  else if is_network nt DOUBLE && (2 <=? i)%nat then Ok done
  else
    mode <- getitem modes i ;;
    start_time <- start_time_of nt i done ;;
    Ok (done ++ [tasks_of phase mode start_time]).

Definition enumerate {A} (l : list A) : list (nat * A) :=
  combine (seq 0 (length l)) l.

(** [Process.get_tasks] *)
Definition get_tasks (self : Process) (modes : list Mode)
  : result (list (list Task)) :=
  for_each (enumerate (phases self)) (phase_step (network_type self) modes) [].

(** Tasks that run one after the other from [start] on. *)
Fixpoint back_to_back (start : Z) (tasks : list Task) : Prop :=
  match tasks with
  | [] => True
  | t :: tasks' =>
      earliest_start t = start /\ back_to_back (start + duration t) tasks'
  end.

(** How many of [k] phases a network type has tasks built for. *)
Definition phases_built (nt : NetworkType) (k : nat) : nat :=
  match nt with
  | SINGLE => Nat.min 1 k
  | DOUBLE => Nat.min 2 k
  | _ => k
  end.

End Generator.

(** ** Concrete instances *)

(** The 3-activity chain 0 -> 1 -> 2 of the degenerate scenario: source,
    one real activity of duration 3 using the single resource, sink. *)
Definition chain_E : list (nat * nat) := [(0, 1); (1, 2)]%nat.
Definition chain_p : list (list Z) := [[0]; [3]; [0]].
Definition chain_r : list (list (list Z)) := [[[0]]; [[1]]; [[0]]].

(** A precedence relation with the cycle 1 -> 2 -> 1. *)
Definition cyclic_E : list (nat * nat) := [(1, 2); (2, 1)]%nat.
Definition cyclic_p : list (list Z) := [[0]; [1]; [1]].
Definition cyclic_r : list (list (list Z)) := [[[0]]; [[0]]; [[0]]].

(** A chain 0 -> 1 -> 2 -> 3 whose activity 1 has duration zero and
    needs the single unit of resource that activity 2 needs as well. *)
Definition zero_E : list (nat * nat) := [(0, 1); (1, 2); (2, 3)]%nat.
Definition zero_p : list (list Z) := [[0]; [0]; [1]; [0]].
Definition zero_r : list (list (list Z)) := [[[0]]; [[1]]; [[1]]; [[0]]].

(** * Proofs *)

(** ** The error monad and comprehensions *)

Lemma rbind_ok {A B} (c : result A) (k : A -> result B) b :
  rbind c k = Ok b <-> exists a, c = Ok a /\ k a = Ok b.
Proof.
  destruct c as [a|e]; simpl; split.
  - eauto.
  - intros (a' & Ha & Hk). congruence.
  - discriminate.
  - intros (a' & Ha & _). discriminate.
Qed.

Lemma comp_ok_inv {A B} (f : A -> result B) xs ys :
  comp f xs = Ok ys -> Forall2 (fun x y => f x = Ok y) xs ys.
Proof.
  revert ys. induction xs as [|x xs IH]; simpl; intros ys H.
  - injection H as <-. constructor.
  - apply rbind_ok in H as (y & Hy & H).
    apply rbind_ok in H as (ys' & Hys & H).
    injection H as <-. constructor; auto.
Qed.

Lemma comp_ok_intro {A B} (f : A -> result B) xs ys :
  Forall2 (fun x y => f x = Ok y) xs ys -> comp f xs = Ok ys.
Proof.
  induction 1 as [|x y xs ys Hxy _ IH]; simpl; [reflexivity|].
  now rewrite Hxy, IH.
Qed.

Lemma comp_total {A B} (f : A -> result B) xs :
  (forall x, x ∈ xs -> is_ok (f x)) -> is_ok (comp f xs).
Proof.
  induction xs as [|x xs IH]; intros H; simpl.
  - now exists [].
  - destruct (H x) as [y Hy]; [left|].
    destruct IH as [ys Hys]; [intros; apply H; now right|].
    exists (y :: ys). now rewrite Hy, Hys.
Qed.

(** Every element of the source list contributes its image. *)
Lemma comp_elem {A B} (f : A -> result B) xs ys x :
  comp f xs = Ok ys -> x ∈ xs -> exists y, f x = Ok y /\ y ∈ ys.
Proof.
  intros H%comp_ok_inv Hx. induction H as [|x' y xs ys Hxy _ IH].
  - inversion Hx.
  - apply elem_of_cons in Hx as [->|Hx].
    + exists y. split; [assumption|left].
    + destruct (IH Hx) as (y' & ? & ?). exists y'. split; [assumption|now right].
Qed.

Lemma comp_flat_elem {A B} (f : A -> result (list B)) xs zs x :
  comp_flat f xs = Ok zs -> x ∈ xs ->
  exists ys, f x = Ok ys /\ forall y, y ∈ ys -> y ∈ zs.
Proof.
  unfold comp_flat. intros H Hx.
  apply rbind_ok in H as (yss & Hc & H). injection H as <-.
  destruct (comp_elem _ _ _ _ Hc Hx) as (ys & Hf & Hys).
  exists ys. split; [assumption|]. intros y Hy.
  apply list_elem_of_In, in_concat. exists ys.
  split; now apply list_elem_of_In.
Qed.

Lemma getitem_ok {A} (l : list A) i x : getitem l i = Ok x <-> l !! i = Some x.
Proof. unfold getitem. destruct (l !! i); split; congruence. Qed.

Lemma setitem_ok {A} (l : list A) i v :
  (i < length l)%nat -> setitem l i v = Ok (<[i := v]> l).
Proof. intros H. unfold setitem. now apply Nat.ltb_lt in H as ->. Qed.

Lemma setitem_inv {A} (l l' : list A) i v :
  setitem l i v = Ok l' -> (i < length l)%nat /\ l' = <[i := v]> l.
Proof.
  unfold setitem. destruct (Nat.ltb_spec i (length l)); [|discriminate].
  intros [= <-]. auto.
Qed.

Lemma elem_of_range n i : i ∈ range n <-> (i < n)%nat.
Proof. unfold range. rewrite elem_of_seq. lia. Qed.

Lemma elem_of_range_from lo n i : i ∈ range_from lo n <-> (lo <= i < n)%nat.
Proof. unfold range_from. rewrite elem_of_seq. lia. Qed.

Lemma elem_of_zrange lo hi t : t ∈ zrange lo hi <-> lo <= t < hi.
Proof.
  unfold zrange. rewrite list_elem_of_fmap. split.
  - intros (d & -> & Hd%elem_of_seq). lia.
  - intros H. exists (Z.to_nat (t - lo)). split; [lia|].
    apply elem_of_seq. lia.
Qed.

(** ** utils.py: duration lookups and extrema over the modes *)

Lemma duration_iff p j m v : Utils.duration p j m = Ok v <-> duration_is p j m v.
Proof.
  unfold Utils.duration, duration_is. rewrite rbind_ok. split.
  - intros (row & H1%getitem_ok & H2%getitem_ok). eauto.
  - intros (row & H1 & H2). exists row. now rewrite !getitem_ok.
Qed.

Lemma fold_left_min_le xs : forall x,
  fold_left Z.min xs x <= x /\ Forall (fun y => fold_left Z.min xs x <= y) xs.
Proof.
  induction xs as [|y xs IH]; intros x; simpl.
  - split; [lia|constructor].
  - destruct (IH (Z.min x y)) as [H1 H2]. split; [lia|].
    constructor; [lia|assumption].
Qed.

Lemma fold_left_min_in xs : forall x, fold_left Z.min xs x ∈ x :: xs.
Proof.
  induction xs as [|y xs IH]; intros x; simpl.
  - left.
  - specialize (IH (Z.min x y)). apply elem_of_cons in IH as [->|IH].
    + destruct (Z.min_spec x y) as [[_ ->]|[_ ->]]; [left|right; left].
    + right; now right.
Qed.

Lemma py_min_spec xs d :
  py_min xs = Ok d -> d ∈ xs /\ Forall (fun y => d <= y) xs.
Proof.
  destruct xs as [|x xs]; simpl; [discriminate|]. intros [= <-].
  split; [apply fold_left_min_in|].
  destruct (fold_left_min_le xs x). now constructor.
Qed.

Section UtilsFacts.
Context {n M : nat} {E : list (nat * nat)} {p : list (list Z)}.
Hypothesis WF : well_formed n M E p.

Lemma duration_total j m :
  (j < n)%nat -> (m < M)%nat -> is_ok (Utils.duration p j m).
Proof.
  intros Hj Hm. destruct WF as [_ _ Hrows Hcols _].
  destruct (lookup_lt_is_Some_2 p j) as [row Hrow]; [lia|].
  assert (length row = M) as Hlen.
  { rewrite Forall_lookup in Hcols. eauto. }
  destruct (lookup_lt_is_Some_2 row m) as [v Hv]; [lia|].
  exists v. apply duration_iff. exists row. auto.
Qed.

Lemma modes_total j :
  (j < n)%nat -> exists ds, comp (Utils.duration p j) (range M) = Ok ds /\ ds <> [].
Proof.
  intros Hj.
  destruct (comp_total (Utils.duration p j) (range M)) as [ds Hds].
  { intros m Hm%elem_of_range. now apply duration_total. }
  exists ds. split; [assumption|].
  apply comp_ok_inv, Forall2_length in Hds.
  unfold range in Hds. rewrite length_seq in Hds.
  destruct WF. destruct ds; [simpl in Hds; lia|discriminate].
Qed.

Lemma min_over_modes_spec j :
  (j < n)%nat ->
  exists d, Utils.min_over_modes p M j = Ok d /\ is_min_over_modes p M j d.
Proof.
  intros Hj. destruct (modes_total j Hj) as (ds & Hds & Hne).
  unfold Utils.min_over_modes. rewrite Hds. simpl.
  destruct ds as [|x xs]; [contradiction|].
  exists (fold_left Z.min xs x). split; [reflexivity|].
  destruct (py_min_spec (x :: xs) _ eq_refl) as [Hin Hle].
  apply comp_ok_inv in Hds. split.
  - apply list_elem_of_lookup in Hin as [k Hk].
    destruct (Forall2_lookup_r _ _ _ _ _ Hds Hk) as (m & Hm & Hdur).
    exists m. split; [|now apply duration_iff].
    apply elem_of_range, list_elem_of_lookup. eauto.
  - intros m v Hm Hv%duration_iff.
    assert (range M !! m = Some m) as Hlk.
    { unfold range. apply lookup_seq. lia. }
    destruct (Forall2_lookup_l _ _ _ _ _ Hds Hlk) as (v' & Hv' & Hdur).
    assert (v' = v) as -> by congruence.
    rewrite Forall_lookup in Hle. eauto.
Qed.

Lemma max_over_modes_total j :
  (j < n)%nat -> is_ok (Utils.max_over_modes p M j).
Proof.
  intros Hj. destruct (modes_total j Hj) as (ds & Hds & Hne).
  unfold Utils.max_over_modes. rewrite Hds. simpl.
  destruct ds; [contradiction|]. eexists; reflexivity.
Qed.

End UtilsFacts.

(** ** utils.py: the two sweeps *)

(** One edge of the forward sweep either leaves the list alone or raises
    entry [i] to the maximum the source line computes. *)
Lemma earliest_edge_inv M p i est e est' :
  Utils.earliest_edge M p i est e = Ok est' ->
  (snd e <> i /\ est' = est) \/
  (snd e = i /\ exists d ej ei,
      Utils.min_over_modes p M (fst e) = Ok d /\
      est !! fst e = Some ej /\ est !! i = Some ei /\
      est' = <[i := Z.max (ej + d) ei]> est).
Proof.
  destruct e as [j k]. unfold Utils.earliest_edge.
  destruct (Nat.eqb_spec k i) as [->|Hk]; [|intros [= <-]; now left].
  intros H. right. split; [reflexivity|].
  apply rbind_ok in H as (d & Hd & H).
  apply rbind_ok in H as (ej & Hej%getitem_ok & H).
  apply rbind_ok in H as (ei & Hei%getitem_ok & H).
  apply setitem_inv in H as [_ ->]. exists d, ej, ei. auto.
Qed.

Lemma latest_edge_inv M p i est e est' :
  Utils.latest_edge M p i est e = Ok est' ->
  est' = est \/ exists v, est' = <[i := v]> est.
Proof.
  destruct e as [k j]. unfold Utils.latest_edge.
  destruct (Nat.eqb_spec k i) as [->|_]; [|intros [= <-]; now left].
  intros H. right.
  apply rbind_ok in H as (d & Hd & H).
  apply rbind_ok in H as (ej & Hej & H).
  apply rbind_ok in H as (ei & Hei & H).
  apply setitem_inv in H as [_ ->]. eauto.
Qed.

(** The inner loop at activity [i] touches entry [i] only, and never
    lowers it. *)
Lemma earliest_inner_frame M p i El : forall est est',
  for_each El (Utils.earliest_edge M p i) est = Ok est' ->
  length est' = length est /\
  (forall q, q <> i -> est' !! q = est !! q) /\
  (forall v, est !! i = Some v -> exists v', est' !! i = Some v' /\ v <= v').
Proof.
  induction El as [|e El IH]; simpl; intros est est' H.
  - injection H as <-. split; [reflexivity|]. split; [reflexivity|].
    intros v Hv. exists v. split; [assumption|lia].
  - apply rbind_ok in H as (est1 & H1 & H).
    destruct (IH _ _ H) as (Hlen & Hframe & Hmono).
    apply earliest_edge_inv in H1 as [[_ ->]|(_ & d & ej & ei & _ & _ & Hei & ->)].
    + auto.
    + rewrite length_insert in Hlen. split; [assumption|]. split.
      * intros q Hq. rewrite Hframe by assumption.
        now apply list_lookup_insert_ne.
      * intros v Hv. assert (v = ei) as -> by congruence.
        destruct (Hmono (Z.max (ej + d) ei)) as (v' & Hv' & Hle).
        { apply list_lookup_insert_eq. now apply lookup_lt_Some in Hei. }
        exists v'. split; [assumption|lia].
Qed.

Lemma latest_inner_frame M p i El : forall est est',
  for_each El (Utils.latest_edge M p i) est = Ok est' ->
  length est' = length est /\ (forall q, q <> i -> est' !! q = est !! q).
Proof.
  induction El as [|e El IH]; simpl; intros est est' H.
  - injection H as <-. auto.
  - apply rbind_ok in H as (est1 & H1 & H).
    destruct (IH _ _ H) as (Hlen & Hframe).
    apply latest_edge_inv in H1 as [->|[v ->]]; [auto|].
    rewrite length_insert in Hlen. split; [assumption|].
    intros q Hq. rewrite Hframe by assumption.
    now apply list_lookup_insert_ne.
Qed.

(** After the inner loop at [i], entry [i] dominates every edge into [i]
    whose source is another activity. *)
Lemma earliest_inner_edges M p i El : forall est est',
  for_each El (Utils.earliest_edge M p i) est = Ok est' ->
  forall a, (a, i) ∈ El -> a <> i ->
  exists ea d v', est !! a = Some ea /\ Utils.min_over_modes p M a = Ok d /\
                  est' !! i = Some v' /\ ea + d <= v'.
Proof.
  induction El as [|e El IH]; simpl; intros est est' H a Ha Hne.
  - inversion Ha.
  - apply rbind_ok in H as (est1 & H1 & H).
    apply elem_of_cons in Ha as [<-|Ha].
    + apply earliest_edge_inv in H1 as [[Hk _]|(_ & d & ej & ei & Hd & Hej & Hei & ->)].
      * now elim Hk.
      * simpl in *.
        destruct (earliest_inner_frame _ _ _ _ _ _ H) as (_ & _ & Hmono).
        destruct (Hmono (Z.max (ej + d) ei)) as (v' & Hv' & Hle).
        { apply list_lookup_insert_eq. now apply lookup_lt_Some in Hei. }
        exists ej, d, v'. repeat split; try assumption. lia.
    + destruct (IH _ _ H a Ha Hne) as (ea & d & v' & Hea & Hd & Hv' & Hle).
      exists ea, d, v'. repeat split; try assumption.
      apply earliest_edge_inv in H1 as [[_ ->]|(_ & ? & ? & ? & _ & _ & _ & ->)];
        [assumption|].
      now rewrite list_lookup_insert_ne in Hea by auto.
Qed.

(** Non-negativity is preserved by the forward sweep. *)
Lemma earliest_inner_nonneg M p i El : forall est est',
  for_each El (Utils.earliest_edge M p i) est = Ok est' ->
  Forall (fun v => 0 <= v) est -> Forall (fun v => 0 <= v) est'.
Proof.
  induction El as [|e El IH]; simpl; intros est est' H Hpos.
  - now injection H as <-.
  - apply rbind_ok in H as (est1 & H1 & H). apply (IH _ _ H).
    apply earliest_edge_inv in H1 as [[_ ->]|(_ & d & ej & ei & _ & _ & Hei & ->)];
      [assumption|].
    apply Forall_insert; [assumption|].
    rewrite Forall_lookup in Hpos. specialize (Hpos _ _ Hei). simpl in Hpos. lia.
Qed.

Section Sweeps.
Context {n M : nat} {E : list (nat * nat)} {p : list (list Z)}.
Hypothesis WF : well_formed n M E p.

Lemma earliest_edge_total i est e :
  length est = n -> (i < n)%nat -> (fst e < n)%nat ->
  is_ok (Utils.earliest_edge M p i est e).
Proof.
  intros Hlen Hi Hj. destruct e as [j k]. simpl in Hj. unfold Utils.earliest_edge.
  destruct (k =? i)%nat; [|eexists; reflexivity].
  destruct (min_over_modes_spec WF j Hj) as (d & -> & _). simpl.
  destruct (lookup_lt_is_Some_2 est j) as [ej Hej]; [lia|].
  destruct (lookup_lt_is_Some_2 est i) as [ei Hei]; [lia|].
  apply getitem_ok in Hej as ->. apply getitem_ok in Hei as ->. simpl.
  rewrite setitem_ok by lia. eexists; reflexivity.
Qed.

Lemma latest_edge_total i est e :
  length est = n -> (i < n)%nat -> (snd e < n)%nat ->
  is_ok (Utils.latest_edge M p i est e).
Proof.
  intros Hlen Hi Hj. destruct e as [k j]. simpl in Hj. unfold Utils.latest_edge.
  destruct (k =? i)%nat; [|eexists; reflexivity].
  destruct (max_over_modes_total WF j Hj) as (d & ->). simpl.
  destruct (lookup_lt_is_Some_2 est j) as [ej Hej]; [lia|].
  destruct (lookup_lt_is_Some_2 est i) as [ei Hei]; [lia|].
  apply getitem_ok in Hej as ->. apply getitem_ok in Hei as ->. simpl.
  rewrite setitem_ok by lia. eexists; reflexivity.
Qed.

Lemma earliest_inner_total i El : forall est,
  Forall (fun e => (fst e < n)%nat /\ (snd e < n)%nat) El ->
  length est = n -> (i < n)%nat ->
  is_ok (for_each El (Utils.earliest_edge M p i) est).
Proof.
  induction El as [|e El IH]; simpl; intros est HE Hlen Hi.
  - eexists; reflexivity.
  - apply Forall_cons in HE as [[He _] HE'].
    destruct (earliest_edge_total i est e Hlen Hi He) as [est1 H1].
    rewrite H1. simpl. apply IH; try assumption.
    apply earliest_edge_inv in H1 as [[_ ->]|(_ & ? & ? & ? & _ & _ & _ & ->)];
      [assumption|]. now rewrite length_insert.
Qed.

Lemma latest_inner_total i El : forall est,
  Forall (fun e => (fst e < n)%nat /\ (snd e < n)%nat) El ->
  length est = n -> (i < n)%nat ->
  is_ok (for_each El (Utils.latest_edge M p i) est).
Proof.
  induction El as [|e El IH]; simpl; intros est HE Hlen Hi.
  - eexists; reflexivity.
  - apply Forall_cons in HE as [[_ He] HE'].
    destruct (latest_edge_total i est e Hlen Hi He) as [est1 H1].
    rewrite H1. simpl. apply IH; try assumption.
    apply latest_edge_inv in H1 as [->|[v ->]]; [assumption|].
    now rewrite length_insert.
Qed.

(** A sweep over any list of in-range activities returns. *)
Lemma earliest_outer_total is_ : forall est,
  Forall (fun i => (i < n)%nat) is_ -> length est = n ->
  exists est', for_each is_ (fun est i => for_each E (Utils.earliest_edge M p i) est) est
               = Ok est' /\ length est' = n.
Proof.
  induction is_ as [|i is_ IH]; simpl; intros est His Hlen.
  - eauto.
  - apply Forall_cons in His as [Hi His'].
    destruct (earliest_inner_total i E est (wf_E _ _ _ _ WF) Hlen Hi) as [est1 H1].
    rewrite H1. simpl. apply IH; [assumption|].
    apply earliest_inner_frame in H1 as [-> _]. assumption.
Qed.

Lemma latest_outer_total is_ : forall est,
  Forall (fun i => (i < n)%nat) is_ -> length est = n ->
  exists est', for_each is_ (fun est i => for_each E (Utils.latest_edge M p i) est) est
               = Ok est' /\ length est' = n.
Proof.
  induction is_ as [|i is_ IH]; simpl; intros est His Hlen.
  - eauto.
  - apply Forall_cons in His as [Hi His'].
    destruct (latest_inner_total i E est (wf_E _ _ _ _ WF) Hlen Hi) as [est1 H1].
    rewrite H1. simpl. apply IH; [assumption|].
    apply latest_inner_frame in H1 as [-> _]. assumption.
Qed.

End Sweeps.

(** The forward sweep over [lo, lo+1, ...]: entries below [lo] are
    untouched, and every edge into a swept activity is respected. *)
Lemma earliest_outer_edges M p E :
  topologically_numbered E ->
  forall len lo est est',
  for_each (seq lo len) (fun est i => for_each E (Utils.earliest_edge M p i) est) est
    = Ok est' ->
  length est' = length est /\
  (forall q, (q < lo)%nat -> est' !! q = est !! q) /\
  (forall a b, (a, b) ∈ E -> (lo <= b < lo + len)%nat ->
     exists ea eb d, est' !! a = Some ea /\ est' !! b = Some eb /\
                     Utils.min_over_modes p M a = Ok d /\ ea + d <= eb).
Proof.
  intros Htopo. induction len as [|len IH]; simpl; intros lo est est' H.
  - injection H as <-. split; [reflexivity|]. split; [reflexivity|]. intros; lia.
  - apply rbind_ok in H as (est1 & H1 & H).
    destruct (IH _ _ _ H) as (Hlen & Hframe & Hedges).
    destruct (earliest_inner_frame _ _ _ _ _ _ H1) as (Hlen1 & Hframe1 & _).
    split; [congruence|]. split.
    + intros q Hq. rewrite Hframe by lia. apply Hframe1. lia.
    + intros a b Hab Hb.
      destruct (decide (b = lo)) as [->|Hne]; [|apply Hedges; [assumption|lia]].
      assert (a < lo)%nat as Ha.
      { unfold topologically_numbered in Htopo. rewrite Forall_forall in Htopo.
        apply (Htopo _ Hab). }
      destruct (earliest_inner_edges _ _ _ _ _ _ H1 a Hab)
        as (ea & d & v' & Hea & Hd & Hv' & Hle); [lia|].
      exists ea, v', d. rewrite !Hframe by lia.
      rewrite Hframe1 by lia. auto.
Qed.

Lemma earliest_outer_nonneg M p E is_ : forall est est',
  for_each is_ (fun est i => for_each E (Utils.earliest_edge M p i) est) est = Ok est' ->
  Forall (fun v => 0 <= v) est ->
  Forall (fun v => 0 <= v) est' /\ length est' = length est.
Proof.
  induction is_ as [|i is_ IH]; simpl; intros est est' H Hpos.
  - injection H as <-. auto.
  - apply rbind_ok in H as (est1 & H1 & H).
    destruct (IH _ _ H) as [Hpos' Hlen].
    { eapply earliest_inner_nonneg; eassumption. }
    split; [assumption|].
    apply earliest_inner_frame in H1 as [Hlen1 _]. congruence.
Qed.

Lemma latest_outer_frame M p E is_ q : forall est est',
  for_each is_ (fun est i => for_each E (Utils.latest_edge M p i) est) est = Ok est' ->
  q ∉ is_ -> est' !! q = est !! q /\ length est' = length est.
Proof.
  induction is_ as [|i is_ IH]; simpl; intros est est' H Hq.
  - injection H as <-. auto.
  - apply rbind_ok in H as (est1 & H1 & H).
    apply not_elem_of_cons in Hq as [Hqi Hq].
    destruct (IH _ _ H Hq) as [Hlk Hlen].
    apply latest_inner_frame in H1 as [Hlen1 Hframe1].
    split; [|congruence]. rewrite Hlk. now apply Hframe1.
Qed.

(** The list [get_earliest_start_time] returns has [n] non-negative entries. *)
Lemma earliest_nonneg n T M R E p L r VP est :
  Utils.get_earliest_start_time n T M R E p L r VP = Ok est ->
  length est = n /\ Forall (fun v => 0 <= v) est.
Proof.
  unfold Utils.get_earliest_start_time. intros H.
  apply rbind_ok in H as (est0 & H0 & H).
  apply setitem_inv in H0 as [_ ->].
  apply earliest_outer_nonneg in H as [Hpos Hlen].
  - split; [|assumption]. now rewrite Hlen, length_insert, length_replicate.
  - apply Forall_insert; [|lia]. apply Forall_replicate. lia.
Qed.

(** The backward sweep never visits index 0, and [reverse] moves that
    untouched [-1] to the sink's position. *)
Lemma latest_start_of_sink n T M R E p L r VP lst :
  (2 <= n)%nat ->
  Utils.get_latest_start_time n T M R E p L r VP = Ok lst ->
  length lst = n /\ lst !! (n - 1)%nat = Some (-1).
Proof.
  unfold Utils.get_latest_start_time. intros Hn H.
  apply rbind_ok in H as (est0 & H0 & H).
  apply setitem_inv in H0 as [_ ->].
  apply rbind_ok in H as (est' & H & Hret). injection Hret as <-.
  apply (latest_outer_frame _ _ _ _ 0%nat) in H as [Hlk Hlen].
  - rewrite length_insert, length_replicate in Hlen.
    rewrite length_reverse. split; [assumption|].
    rewrite reverse_lookup by lia. rewrite Hlen.
    replace (n - S (n - 1))%nat with 0%nat by lia.
    rewrite Hlk, list_lookup_insert_ne by lia.
    apply lookup_replicate_2. lia.
  - rewrite elem_of_reverse, elem_of_range_from. lia.
Qed.

Lemma topological_path E i j :
  topologically_numbered E -> path E i j -> (i < j)%nat.
Proof.
  intros Htopo. unfold topologically_numbered in Htopo.
  rewrite Forall_forall in Htopo.
  induction 1 as [i j Hij|i j k Hij _ IH].
  - apply (Htopo _ Hij).
  - specialize (Htopo _ Hij). simpl in Htopo. lia.
Qed.

Lemma topological_acyclic E : topologically_numbered E -> acyclic E.
Proof. intros Htopo i Hp%(topological_path _ _ _ Htopo). lia. Qed.

(** Both sweeps return on every well-formed instance. *)
Lemma bounds_total n T M R E p L r VP :
  well_formed n M E p ->
  exists est lst,
    Utils.get_earliest_start_time n T M R E p L r VP = Ok est /\ length est = n /\
    Utils.get_latest_start_time n T M R E p L r VP = Ok lst /\ length lst = n.
Proof.
  intros WF. pose proof (wf_n _ _ _ _ WF) as Hn.
  unfold Utils.get_earliest_start_time, Utils.get_latest_start_time.
  rewrite !setitem_ok by (rewrite length_replicate; lia). simpl.
  destruct (earliest_outer_total WF (range_from 1 n) (<[0%nat := 0]> (replicate n 0)))
    as (est & -> & Hlen).
  { apply Forall_forall. intros i Hi%elem_of_range_from. lia. }
  { now rewrite length_insert, length_replicate. }
  destruct (latest_outer_total WF (reverse (range_from 1 n))
              (<[(n - 1)%nat := 0]> (replicate n (-1)))) as (lst & -> & Hlen').
  { apply Forall_forall. intros i Hi. rewrite elem_of_reverse in Hi.
    apply elem_of_range_from in Hi. lia. }
  { now rewrite length_insert, length_replicate. }
  simpl. exists est, (reverse lst). rewrite length_reverse. auto.
Qed.

(** ** Claims about the bound estimator *)

(** C3. For every instance whose activities are topologically numbered
    with respect to [E] and whose durations are non-negative,
    [get_earliest_start_time] returns a list [est] with [est[0] = 0] and,
    for every precedence edge [(i, j)],
    [est[i] + min over modes m of p[i][m] <= est[j]]. *)
Theorem C3_earliest_respects_precedence n T M R E p L r VP :
  well_formed n M E p -> topologically_numbered E -> nonneg_durations p ->
  exists est,
    Utils.get_earliest_start_time n T M R E p L r VP = Ok est /\
    est !! 0%nat = Some 0 /\
    forall i j, (i, j) ∈ E ->
      exists ei ej d, est !! i = Some ei /\ est !! j = Some ej /\
                      is_min_over_modes p M i d /\ ei + d <= ej.
Proof.
  intros WF Htopo _.
  destruct (bounds_total n T M R E p L r VP WF) as (est & _ & Hest & _ & _).
  exists est. split; [assumption|].
  pose proof (wf_n _ _ _ _ WF) as Hn.
  unfold Utils.get_earliest_start_time in Hest.
  rewrite setitem_ok in Hest by (rewrite length_replicate; lia). simpl in Hest.
  unfold range_from in Hest.
  destruct (earliest_outer_edges M p E Htopo _ _ _ _ Hest) as (_ & Hframe & Hedges).
  split.
  - rewrite Hframe by lia. apply list_lookup_insert_eq.
    rewrite length_replicate. lia.
  - intros i j Hij.
    pose proof (wf_E _ _ _ _ WF) as HE. rewrite Forall_forall in HE.
    destruct (HE _ Hij) as [Hi Hj]. simpl in Hi, Hj.
    unfold topologically_numbered in Htopo. rewrite Forall_forall in Htopo.
    specialize (Htopo _ Hij). simpl in Htopo.
    destruct (Hedges i j Hij) as (ei & ej & d & Hei & Hej & Hd & Hle); [lia|].
    destruct (min_over_modes_spec WF i Hi) as (d' & Hd' & Hmin).
    assert (d' = d) as -> by congruence.
    exists ei, ej, d. auto.
Qed.

Lemma C3_witness :
  exists est,
    Utils.get_earliest_start_time 3 3 1 [1] chain_E chain_p [] chain_r [] = Ok est /\
    est !! 0%nat = Some 0 /\
    forall i j, (i, j) ∈ chain_E ->
      exists ei ej d, est !! i = Some ei /\ est !! j = Some ej /\
                      is_min_over_modes chain_p 1 i d /\ ei + d <= ej.
Proof.
  apply C3_earliest_respects_precedence.
  - constructor; simpl; [lia|lia|reflexivity| |]; repeat constructor.
  - repeat constructor.
  - repeat constructor; lia.
Defined.

(** C5. On the 3-activity chain 0 -> 1 -> 2 with one mode,
    [p = [[0],[3],[0]]], one resource of capacity 1 and requirement 1 for
    activity 1, [get_earliest_start_time] returns exactly [[0, 0, 3]]
    (whatever horizon, linked pairs and non-ordered pairs are passed). *)
Theorem C5_chain_earliest_start T L VP :
  Utils.get_earliest_start_time 3 T 1 [1] chain_E chain_p L chain_r VP
  = Ok [0; 0; 3].
Proof. reflexivity. Qed.

(** C2 fails on the code.  The chain instance is acyclic with
    non-negative durations, yet at the sink (activity 2) the earliest
    start is 3 and the value returned as latest start is -1. *)
Theorem C2_latest_below_earliest_on_chain :
  acyclic chain_E /\ nonneg_durations chain_p /\
  Utils.get_earliest_start_time 3 3 1 [1] chain_E chain_p [] chain_r []
    = Ok [0; 0; 3] /\
  Utils.get_latest_start_time 3 3 1 [1] chain_E chain_p [] chain_r []
    = Ok [0; 0; -1] /\
  ~ (3 <= -1).
Proof.
  split; [|split; [|split; [|split]]].
  - apply topological_acyclic. repeat constructor.
  - repeat constructor; lia.
  - reflexivity.
  - reflexivity.
  - lia.
Qed.

(** The same happens on every instance with at least two activities:
    the sink's "latest start" is -1, below its earliest start. *)
Lemma sink_latest_below_earliest n T M R E p L r VP est lst :
  (2 <= n)%nat ->
  Utils.get_earliest_start_time n T M R E p L r VP = Ok est ->
  Utils.get_latest_start_time n T M R E p L r VP = Ok lst ->
  exists e l, est !! (n - 1)%nat = Some e /\ lst !! (n - 1)%nat = Some l /\ l < e.
Proof.
  intros Hn [Hlen Hpos]%earliest_nonneg [_ Hl]%latest_start_of_sink; [|assumption].
  destruct (lookup_lt_is_Some_2 est (n - 1)) as [e He]; [lia|].
  exists e, (-1). repeat split; try assumption.
  rewrite Forall_lookup in Hpos. specialize (Hpos _ _ He). simpl in Hpos. lia.
Qed.

(** C7 (as stated) fails: on a cyclic precedence relation the bound
    estimator returns normally, and the builder goes on to return a model. *)
Lemma C7_counterexample :
  ~ acyclic cyclic_E /\
  Utils.get_earliest_start_time 3 4 1 [] cyclic_E cyclic_p [] cyclic_r []
    = Ok [0; 1; 2] /\
  Utils.get_latest_start_time 3 4 1 [] cyclic_E cyclic_p [] cyclic_r []
    = Ok [0; 1; -1] /\
  is_ok (fst (pulse_model 3 4 1 [] cyclic_E 1%positive [] cyclic_r []
                {[ 1%positive := cyclic_p ]})).
Proof.
  split; [|split; [|split]].
  - intros H. apply (H 1%nat).
    apply path_step with 2%nat; [|apply path_edge]; unfold cyclic_E.
    + left.
    + right; left.
  - reflexivity.
  - reflexivity.
  - vm_compute. eexists; reflexivity.
Qed.

(** C7, amended.  The estimator makes no acyclicity check: on every
    well-formed instance, cyclic or not, both sweeps return a list of
    [n] values. *)
Theorem C7_bounds_never_reject_cycles n T M R E p L r VP :
  well_formed n M E p ->
  exists est lst,
    Utils.get_earliest_start_time n T M R E p L r VP = Ok est /\ length est = n /\
    Utils.get_latest_start_time n T M R E p L r VP = Ok lst /\ length lst = n.
Proof. apply bounds_total. Qed.

Lemma C7_witness :
  exists est lst,
    Utils.get_earliest_start_time 3 4 1 [] cyclic_E cyclic_p [] cyclic_r [] = Ok est /\
    length est = 3%nat /\
    Utils.get_latest_start_time 3 4 1 [] cyclic_E cyclic_p [] cyclic_r [] = Ok lst /\
    length lst = 3%nat.
Proof.
  apply C7_bounds_never_reject_cycles.
  constructor; simpl; [lia|lia|reflexivity| |]; repeat constructor.
Defined.

(** ** The normalisation prelude *)

(** A list whose first [j] entries have been rewritten by [f]. *)
Lemma prefix_lookup {A} (f : A -> A) (l : list A) : forall j,
  (map f (take j l) ++ drop j l) !! j = l !! j.
Proof.
  induction l as [|x l IH]; intros [|j]; simpl; try reflexivity. apply IH.
Qed.

Lemma prefix_step {A} (f : A -> A) (l : list A) : forall j x,
  l !! j = Some x ->
  <[j := f x]> (map f (take j l) ++ drop j l)
  = map f (take (S j) l) ++ drop (S j) l.
Proof.
  induction l as [|y l IH]; intros [|j] x H; simpl in *; try discriminate.
  - now injection H as ->.
  - f_equal. now apply IH.
Qed.

Lemma prefix_length {A} (f : A -> A) (l : list A) j :
  length (map f (take j l) ++ drop j l) = length l.
Proof.
  rewrite length_app, length_map, <- length_app. now rewrite take_drop.
Qed.

Lemma prefix_all {A} (f : A -> A) (l : list A) :
  map f (take (length l) l) ++ drop (length l) l = map f l.
Proof. rewrite take_ge, drop_ge by lia. apply app_nil_r. Qed.

(** A counted loop that maintains an invariant on the store runs to
    completion. *)
Lemma pfor_seq_inv (I : nat -> heap -> Prop) (body : nat -> prog unit) :
  forall len lo h,
  I lo h ->
  (forall k h1, (lo <= k < lo + len)%nat -> I k h1 ->
     exists h2, body k h1 = (Ok tt, h2) /\ I (S k) h2) ->
  exists h', pfor (seq lo len) body h = (Ok tt, h') /\ I (lo + len)%nat h'.
Proof.
  induction len as [|len IH]; simpl; intros lo h HI Hbody.
  - exists h. rewrite Nat.add_0_r. auto.
  - destruct (Hbody lo h) as (h1 & Hb & HI1); [lia|assumption|].
    destruct (IH (S lo) h1 HI1) as (h' & Hrest & HI').
    { intros k h2 Hk. apply Hbody. lia. }
    exists h'. unfold pbind. rewrite Hb.
    replace (lo + S len)%nat with (S lo + len)%nat by lia. auto.
Qed.

Section Rescale.
Variables (p : loc) (d : Z).
Hypothesis Hd : d <> 0.

Lemma rescale_cell_step (h : heap) (t : list (list Z)) i row j v :
  t !! i = Some row -> row !! j = Some v ->
  rescale_cell p d i j (<[p := t]> h)
  = (Ok tt, <[p := <[i := <[j := v / d]> row]> t]> h).
Proof.
  intros Hrow Hv. unfold rescale_cell, pbind, load, lift, store.
  rewrite lookup_insert_eq.
  apply getitem_ok in Hrow as Hg. rewrite Hg.
  apply getitem_ok in Hv as Hg'. rewrite Hg'.
  unfold floordiv. destruct (Z.eqb_spec d 0) as [?|_]; [contradiction|].
  rewrite (setitem_ok row) by (now apply lookup_lt_Some in Hv).
  rewrite (setitem_ok t) by (now apply lookup_lt_Some in Hrow).
  now rewrite insert_insert_eq.
Qed.

Lemma rescale_row_step (h : heap) (t : list (list Z)) i row :
  t !! i = Some row ->
  rescale_row p d i (<[p := t]> h)
  = (Ok tt, <[p := <[i := map (fun v => v / d) row]> t]> h).
Proof.
  intros Hrow. unfold rescale_row, pbind, load, lift.
  rewrite lookup_insert_eq. apply getitem_ok in Hrow as Hg. rewrite Hg.
  set (f := fun v => v / d). unfold range.
  destruct (pfor_seq_inv
    (fun j h' => h' = <[p := <[i := map f (take j row) ++ drop j row]> t]> h)
    (rescale_cell p d i) (length row) 0 (<[p := t]> h)) as (h' & -> & ->).
  - simpl. now rewrite list_insert_id.
  - intros j h1 Hj ->.
    destruct (lookup_lt_is_Some_2 row j) as [v Hv]; [lia|].
    eexists. split.
    + apply rescale_cell_step with (v := v).
      * apply list_lookup_insert_eq. now apply lookup_lt_Some in Hrow.
      * now rewrite prefix_lookup.
    + rewrite list_insert_insert_eq. change (v / d) with (f v).
      now rewrite (prefix_step f row j v Hv).
  - simpl. now rewrite prefix_all.
Qed.

Lemma rescale_loop (h : heap) (tbl : list (list Z)) :
  h !! p = Some tbl ->
  pfor (range (length tbl)) (rescale_row p d) h
  = (Ok tt, <[p := rescaled d tbl]> h).
Proof.
  intros Hp. set (f := map (fun v => v / d)). unfold range.
  destruct (pfor_seq_inv
    (fun i h' => h' = <[p := map f (take i tbl) ++ drop i tbl]> h)
    (rescale_row p d) (length tbl) 0 h) as (h' & -> & ->).
  - simpl. now rewrite insert_id.
  - intros i h1 Hi ->.
    destruct (lookup_lt_is_Some_2 tbl i) as [row Hrow]; [lia|].
    eexists. split.
    + apply rescale_row_step with (row := row). now rewrite prefix_lookup.
    + change (map (fun v => v / d) row) with (f row).
      now rewrite (prefix_step f tbl i row Hrow).
  - simpl. now rewrite prefix_all.
Qed.

End Rescale.

(** With a non-zero divisor the prelude overwrites the table with the
    quotients and returns the quotient of the horizon. *)
Lemma normalize_spec p T (h : heap) tbl :
  h !! p = Some tbl ->
  compute_divisor tbl T <> 0 ->
  normalize p T h
  = (Ok (T / compute_divisor tbl T, compute_divisor tbl T),
     <[p := rescaled (compute_divisor tbl T) tbl]> h).
Proof.
  intros Hp Hd. unfold normalize, pbind at 1, load. rewrite Hp.
  unfold pbind. rewrite (rescale_loop p _ Hd h tbl Hp).
  unfold lift, floordiv, pret.
  now destruct (Z.eqb_spec (compute_divisor tbl T) 0).
Qed.

(** A zero divisor (every duration and the horizon are zero) ends in
    ZeroDivisionError at the latest at [T // divisor]. *)
Lemma normalize_zero p T (h : heap) tbl :
  h !! p = Some tbl -> compute_divisor tbl T = 0 ->
  forall v h', normalize p T h <> (Ok v, h').
Proof.
  intros Hp Hd v h'. unfold normalize, pbind at 1, load. rewrite Hp.
  unfold pbind. destruct (pfor _ _ h) as [[[]|e] h1]; [|discriminate].
  unfold lift, floordiv. rewrite Hd. simpl. discriminate.
Qed.

Lemma normalize_inv p T (h : heap) T' d h' :
  normalize p T h = (Ok (T', d), h') ->
  exists tbl, h !! p = Some tbl /\ d = compute_divisor tbl T /\ d <> 0 /\
              T' = T / d /\ h' = <[p := rescaled d tbl]> h.
Proof.
  intros H. destruct (h !! p) as [tbl|] eqn:Hp.
  - destruct (Z.eq_dec (compute_divisor tbl T) 0) as [Hz|Hnz].
    + exfalso. exact (normalize_zero p T h tbl Hp Hz _ _ H).
    + rewrite (normalize_spec p T h tbl Hp Hnz) in H.
      injection H as <- <- <-. exists tbl. auto.
  - unfold normalize, pbind, load in H. rewrite Hp in H. discriminate.
Qed.

(** ** The divisor *)

Lemma gcd_all_nonneg xs : 0 <= gcd_all xs.
Proof. destruct xs; simpl; [lia|apply Z.gcd_nonneg]. Qed.

Lemma gcd_all_divides xs x : x ∈ xs -> (gcd_all xs | x).
Proof.
  induction xs as [|y xs IH]; intros Hx; [inversion Hx|]. simpl.
  apply elem_of_cons in Hx as [->|Hx].
  - apply Z.gcd_divide_l.
  - etransitivity; [apply Z.gcd_divide_r|auto].
Qed.

Lemma gcd_all_greatest xs c : (forall x, x ∈ xs -> (c | x)) -> (c | gcd_all xs).
Proof.
  induction xs as [|y xs IH]; intros H; simpl.
  - apply Z.divide_0_r.
  - apply Z.gcd_greatest; [apply H; left|apply IH; intros; apply H; now right].
Qed.

Lemma gcd_all_pos xs x : x ∈ xs -> x <> 0 -> 0 < gcd_all xs.
Proof.
  intros Hx Hne. pose proof (gcd_all_nonneg xs) as Hge.
  destruct (Z.eq_dec (gcd_all xs) 0) as [Hz|]; [|lia].
  apply gcd_all_divides in Hx. rewrite Hz in Hx.
  apply Z.divide_0_l in Hx. contradiction.
Qed.

(** The order in which the set of durations is enumerated is immaterial. *)
Lemma gcd_all_same_elements xs ys :
  (forall x, x ∈ xs <-> x ∈ ys) -> gcd_all xs = gcd_all ys.
Proof.
  intros H. apply Z.divide_antisym_nonneg; try apply gcd_all_nonneg;
    apply gcd_all_greatest; intros x Hx; apply gcd_all_divides, H, Hx.
Qed.

Lemma elem_of_unique_times tbl T v :
  v ∈ unique_processing_times tbl T <->
  v = T \/ exists row, row ∈ tbl /\ v ∈ row.
Proof.
  unfold unique_processing_times.
  rewrite elem_of_app, elem_of_elements, elem_of_list_to_set, list_elem_of_singleton.
  rewrite list_elem_of_In, in_concat. split.
  - intros [(row & H1 & H2)| ->]; [right|now left].
    exists row. now rewrite !list_elem_of_In.
  - intros [->|(row & H1 & H2)]; [now right|left].
    exists row. now rewrite <- !list_elem_of_In.
Qed.

Lemma divisor_divides_horizon tbl T : (compute_divisor tbl T | T).
Proof. apply gcd_all_divides, elem_of_unique_times. now left. Qed.

Lemma divisor_divides_entry tbl T row v :
  row ∈ tbl -> v ∈ row -> (compute_divisor tbl T | v).
Proof. intros. apply gcd_all_divides, elem_of_unique_times. right. eauto. Qed.

Lemma exact_division d v : d <> 0 -> (d | v) -> v / d * d = v.
Proof. intros Hd [q ->]. now rewrite Z.div_mul. Qed.

(** ** What a builder does to the store *)

(** Every builder is the prelude followed by a computation that only
    reads: a returned model pins down the store it leaves behind. *)
Lemma builder_inv (build : Z -> list (list Z) -> result model) p T (h : heap) md h' :
  (nt <~ normalize p T ;;
   let '(T, divisor) := nt in
   tbl <~ load p ;;
   model <~ lift (build T tbl) ;;
   pret (model, divisor)) h = (Ok md, h') ->
  exists tbl, h !! p = Some tbl /\
    snd md = compute_divisor tbl T /\ snd md <> 0 /\
    h' = <[p := rescaled (snd md) tbl]> h /\
    build (T / snd md) (rescaled (snd md) tbl) = Ok (fst md).
Proof.
  unfold pbind at 1. destruct (normalize p T h) as [[[T' d]|e] h1] eqn:Hn;
    [|discriminate].
  apply normalize_inv in Hn as (tbl & Hp & -> & Hd & -> & ->).
  unfold pbind, load, lift, pret. rewrite lookup_insert_eq.
  destruct (build _ _) as [m|e] eqn:Hb; [|discriminate].
  intros [= <- <-]. exists tbl. simpl. auto.
Qed.

Lemma builder_of_inv enc n T M R E p L r VP (h : heap) md h' :
  builder_of enc n T M R E p L r VP h = (Ok md, h') ->
  exists tbl, h !! p = Some tbl /\
    snd md = compute_divisor tbl T /\ snd md <> 0 /\
    h' = <[p := rescaled (snd md) tbl]> h.
Proof.
  intros H. destruct enc; simpl in H;
    apply builder_inv in H as (tbl & ? & ? & ? & ? & _); eauto.
Qed.

(** C4 (as stated) fails: after [pulse_model] returns on the chain
    instance with horizon 3, the caller's table reads [[0],[1],[0]]. *)
Lemma C4_counterexample :
  exists md h',
    pulse_model 3 3 1 [1] chain_E 1%positive [] chain_r []
      {[ 1%positive := chain_p ]} = (Ok md, h') /\
    h' !! 1%positive = Some [[0]; [1]; [0]] /\
    h' !! 1%positive <> ({[ 1%positive := chain_p ]} : heap) !! 1%positive.
Proof.
  eexists _, _. split; [vm_compute; reflexivity|].
  split; [reflexivity|]. vm_compute. discriminate.
Qed.

(** C4, amended.  When any of the eight builders returns, the store
    differs from the one it was called in exactly at the caller's
    duration table, which now holds every duration divided by the
    returned divisor; the horizon is an integer passed by value and is
    not something a builder can change. *)
Theorem C4_builders_rescale_in_place enc n T M R E p L r VP (h : heap) md h' :
  builder_of enc n T M R E p L r VP h = (Ok md, h') ->
  exists tbl, h !! p = Some tbl /\
    snd md = compute_divisor tbl T /\
    h' = <[p := rescaled (snd md) tbl]> h.
Proof.
  intros H. destruct (builder_of_inv _ _ _ _ _ _ _ _ _ _ _ _ _ H)
    as (tbl & ? & ? & _ & ?). eauto.
Qed.

Lemma C4_witness :
  exists md h',
    pulse_model 3 3 1 [1] chain_E 1%positive [] chain_r []
      {[ 1%positive := chain_p ]} = (Ok md, h') /\
    exists tbl, ({[ 1%positive := chain_p ]} : heap) !! 1%positive = Some tbl /\
      snd md = compute_divisor tbl 3 /\
      h' = <[1%positive := rescaled (snd md) tbl]> {[ 1%positive := chain_p ]}.
Proof.
  eexists _, _. split; [vm_compute; reflexivity|].
  apply (C4_builders_rescale_in_place PDT 3%nat 3 1%nat [1] chain_E
           1%positive [] chain_r []).
  vm_compute. reflexivity.
Defined.

(** Nothing but the table handed over is written, whatever the outcome. *)
Lemma pfor_frame {A} (body : A -> prog unit) (p : loc) xs :
  (forall x (h : heap) res h', body x h = (res, h') ->
     forall l, l <> p -> h' !! l = h !! l) ->
  forall (h : heap) res h', pfor xs body h = (res, h') ->
  forall l, l <> p -> h' !! l = h !! l.
Proof.
  intros Hbody. induction xs as [|x xs IH]; simpl; intros h res h' H l Hl.
  - unfold pret in H. now injection H as _ <-.
  - unfold pbind in H. destruct (body x h) as [[[]|e] h1] eqn:Hb.
    + rewrite (IH _ _ _ H l Hl). eapply Hbody; eassumption.
    + injection H as _ <-. eapply Hbody; eassumption.
Qed.

Lemma rescale_cell_frame p d i j (h : heap) res h' :
  rescale_cell p d i j h = (res, h') -> forall l, l <> p -> h' !! l = h !! l.
Proof.
  unfold rescale_cell, pbind, load, lift, store. intros H l Hl.
  destruct (h !! p) as [tbl|]; [|now injection H as _ <-].
  destruct (getitem tbl i) as [row|]; [|now injection H as _ <-].
  destruct (getitem row j) as [v|]; [|now injection H as _ <-].
  destruct (floordiv v d) as [q|]; [|now injection H as _ <-].
  destruct (setitem row j q) as [row'|]; [|now injection H as _ <-].
  destruct (setitem tbl i row') as [tbl'|]; injection H as _ <-; [|reflexivity].
  now apply lookup_insert_ne.
Qed.

Lemma rescale_row_frame p d i (h : heap) res h' :
  rescale_row p d i h = (res, h') -> forall l, l <> p -> h' !! l = h !! l.
Proof.
  unfold rescale_row, pbind, load, lift. intros H l Hl.
  destruct (h !! p) as [tbl|]; [|now injection H as _ <-].
  destruct (getitem tbl i) as [row|]; [|now injection H as _ <-].
  eapply (pfor_frame _ p); [|exact H|exact Hl].
  intros. eapply rescale_cell_frame; eassumption.
Qed.

Lemma normalize_frame p T (h : heap) res h' :
  normalize p T h = (res, h') -> forall l, l <> p -> h' !! l = h !! l.
Proof.
  unfold normalize, pbind at 1, load. intros H l Hl.
  destruct (h !! p) as [tbl|]; [|now injection H as _ <-].
  unfold pbind in H.
  destruct (pfor _ _ h) as [[[]|e] h1] eqn:Hloop.
  - unfold lift, pret in H.
    destruct (floordiv _ _); injection H as _ <-;
      (eapply (pfor_frame _ p); [|exact Hloop|exact Hl]);
      intros; eapply rescale_row_frame; eassumption.
  - injection H as _ <-.
    eapply (pfor_frame _ p); [|exact Hloop|exact Hl].
    intros; eapply rescale_row_frame; eassumption.
Qed.

Lemma builder_frame (build : Z -> list (list Z) -> result model) p T (h : heap) res h' :
  (nt <~ normalize p T ;;
   let '(T, divisor) := nt in
   tbl <~ load p ;;
   model <~ lift (build T tbl) ;;
   pret (model, divisor)) h = (res, h') ->
  forall l, l <> p -> h' !! l = h !! l.
Proof.
  unfold pbind at 1. intros H l Hl.
  destruct (normalize p T h) as [[[T' d]|e] h1] eqn:Hn.
  - rewrite <- (normalize_frame _ _ _ _ _ Hn l Hl).
    unfold pbind, load, lift, pret in H.
    destruct (h1 !! p); [|now injection H as _ <-].
    destruct (build T' _); now injection H as _ <-.
  - injection H as _ <-. eapply normalize_frame; eassumption.
Qed.

Lemma models_write_only_own_table name init :
  (name, init) ∈ models -> writes_only_own_table init.
Proof.
  unfold models. rewrite !elem_of_cons, elem_of_nil.
  intros [[= _ ->]|[[= _ ->]|[[= _ ->]|[[= _ ->]|[[= _ ->]|[[= _ ->]|[[= _ ->]|[[= _ ->]|[]]]]]]]]];
    intros inp VP h res h' H; eapply builder_frame; exact H.
Qed.

(** [test_models] hands every builder a deep copy, so the table of
    [input_base] reads the same afterwards, whatever the builders did. *)
Lemma test_models_preserves_base ms input_base :
  (forall name init, (name, init) ∈ ms -> writes_only_own_table init) ->
  forall (h : heap) res h',
  test_models ms input_base h = (res, h') ->
  h' !! in_p input_base = h !! in_p input_base.
Proof.
  induction ms as [|[name init] ms IH]; intros Hms h res h' H; simpl in H.
  - unfold pret in H. now injection H as _ <-.
  - unfold pbind at 1, deepcopy, pbind at 1, load in H.
    destruct (h !! in_p input_base) as [tbl|] eqn:Hp; [|now injection H as _ <-].
    unfold pbind, alloc, pret in H. simpl in H.
    remember (fresh (dom h)) as l eqn:Hfresh.
    assert (l <> in_p input_base) as Hl.
    { intros Heq. apply elem_of_dom_2 in Hp.
      rewrite <- Heq, Hfresh in Hp. exact (is_fresh _ Hp). }
    destruct (init _ _ _) as [[[m d]|e] h1] eqn:Hinit.
    + pose proof (Hms name init (list_elem_of_here _ _) _ _ _ _ _ Hinit
                    (in_p input_base) (not_eq_sym Hl)) as Hfr.
      simpl in Hfr. rewrite lookup_insert_ne in Hfr by assumption.
      destruct (test_models ms input_base h1) as [[rs|e] h2] eqn:Hrest;
        injection H as _ <-;
        (rewrite (IH (fun n i Hni => Hms n i (list_elem_of_further _ _ _ Hni))
                     _ _ _ Hrest); congruence).
    + injection H as _ <-.
      rewrite (Hms name init (list_elem_of_here _ _) _ _ _ _ _ Hinit
                 (in_p input_base) (not_eq_sym Hl)).
      simpl. now rewrite lookup_insert_ne.
Qed.

(** ** Exactness of the rescaling *)

(** C10. Whenever [T > 0] or some duration is positive, the divisor the
    shared prelude computes (the gcd of [T] and the distinct durations)
    is positive and divides the horizon and every duration exactly: the
    integer divisions do not truncate, multiplying a quotient by the
    divisor gives back the original value, the prelude ends without an
    error, and a builder that returns hands back exactly this divisor
    and leaves exactly these quotients in the table. *)
Theorem C10_divisor_divides_exactly enc n T M R E p L r VP (h : heap) tbl :
  h !! p = Some tbl ->
  (0 < T \/ exists row v, row ∈ tbl /\ v ∈ row /\ 0 < v) ->
  exists d,
    d = compute_divisor tbl T /\ 0 < d /\
    (d | T) /\ T / d * d = T /\
    Forall (Forall (fun v => (d | v) /\ v / d * d = v)) tbl /\
    normalize p T h = (Ok (T / d, d), <[p := rescaled d tbl]> h) /\
    forall md h',
      builder_of enc n T M R E p L r VP h = (Ok md, h') ->
      snd md = d /\ h' = <[p := rescaled d tbl]> h.
Proof.
  intros Hp Hpos.
  assert (0 < compute_divisor tbl T) as Hd.
  { destruct Hpos as [HT|(row & v & Hrow & Hv & Hv0)].
    - apply (gcd_all_pos _ T); [|lia]. apply elem_of_unique_times. now left.
    - apply (gcd_all_pos _ v); [|lia]. apply elem_of_unique_times. right. eauto. }
  exists (compute_divisor tbl T).
  split; [reflexivity|]. split; [assumption|].
  split; [apply divisor_divides_horizon|].
  split; [apply exact_division; [lia|apply divisor_divides_horizon]|].
  split; [|split].
  - apply Forall_forall. intros row Hrow. apply Forall_forall. intros v Hv.
    pose proof (divisor_divides_entry tbl T row v Hrow Hv) as Hdiv.
    split; [assumption|]. apply exact_division; [lia|assumption].
  - apply normalize_spec; [assumption|lia].
  - intros md h' H.
    apply builder_of_inv in H as (tbl' & Hp' & -> & _ & ->).
    assert (tbl' = tbl) as -> by congruence. auto.
Qed.

Lemma C10_witness :
  exists d,
    d = compute_divisor [[0]; [4]; [0]] 6 /\ 0 < d /\
    (d | 6) /\ 6 / d * d = 6 /\
    Forall (Forall (fun v => (d | v) /\ v / d * d = v)) [[0]; [4]; [0]] /\
    normalize 1%positive 6 {[ 1%positive := [[0]; [4]; [0]] ]}
    = (Ok (6 / d, d), <[1%positive := rescaled d [[0]; [4]; [0]]]>
                        {[ 1%positive := [[0]; [4]; [0]] ]}) /\
    forall md h',
      builder_of PDT 3%nat 6 1%nat [1] chain_E 1%positive [] chain_r []
        {[ 1%positive := [[0]; [4]; [0]] ]} = (Ok md, h') ->
      snd md = d /\
      h' = <[1%positive := rescaled d [[0]; [4]; [0]]]>
             {[ 1%positive := [[0]; [4]; [0]] ]}.
Proof.
  apply C10_divisor_divides_exactly.
  - reflexivity.
  - left. lia.
Defined.

(** ** The derived non-ordered pairs *)

Lemma elem_of_flat_map {A B} (f : A -> list B) (xs : list A) (y : B) :
  y ∈ flat_map f xs <-> exists x, x ∈ xs /\ y ∈ f x.
Proof.
  rewrite list_elem_of_In, in_flat_map. split; intros (x & H1 & H2); exists x.
  - now rewrite !list_elem_of_In.
  - now rewrite <- !list_elem_of_In.
Qed.

Lemma elem_of_derive_VP n E i j :
  (i, j) ∈ derive_VP n E <->
  (i < n)%nat /\ (j < n)%nat /\ ((i, j) ∉ E) /\ ((j, i) ∉ E) /\ i <> j.
Proof.
  unfold derive_VP. rewrite elem_of_flat_map. split.
  - intros (i' & Hi%elem_of_range & (j' & Hj%elem_of_range & H)%elem_of_flat_map).
    destruct (bool_decide_reflect ((i', j') ∈ E)); simpl in H; [inversion H|].
    destruct (bool_decide_reflect ((j', i') ∈ E)); simpl in H; [inversion H|].
    destruct (Nat.eqb_spec i' j'); simpl in H; [inversion H|].
    apply list_elem_of_singleton in H as [= -> ->]. auto.
  - intros (Hi & Hj & H1 & H2 & Hne). exists i. split; [now apply elem_of_range|].
    apply elem_of_flat_map. exists j. split; [now apply elem_of_range|].
    rewrite !bool_decide_eq_false_2 by assumption.
    destruct (Nat.eqb_spec i j); [contradiction|]. simpl. left.
Qed.

(** No pair is both precedence-related and non-ordered. *)
Lemma VP_disjoint_from_E n E i j :
  (i, j) ∈ derive_VP n E -> ((i, j) ∉ E) /\ ((j, i) ∉ E).
Proof. intros (_ & _ & ? & ? & _)%elem_of_derive_VP. auto. Qed.

Lemma acyclic_no_antiparallel E : acyclic E -> no_antiparallel E.
Proof.
  intros Hac i j _ [Hij Hji]. apply (Hac i).
  apply path_step with j; [assumption|now apply path_edge].
Qed.

(** Where [E] never orders a pair both ways, every pair of distinct
    activities falls under exactly one of the three alternatives. *)
Lemma VP_partitions_unordered_pairs n E i j :
  no_antiparallel E ->
  (i < n)%nat -> (j < n)%nat -> i <> j ->
  exactly_one ((i, j) ∈ E) ((j, i) ∈ E) ((i, j) ∈ derive_VP n E).
Proof.
  intros Hanti Hi Hj Hne. unfold exactly_one. rewrite elem_of_derive_VP.
  specialize (Hanti i j Hne).
  destruct (decide ((i, j) ∈ E)) as [H1|H1], (decide ((j, i) ∈ E)) as [H2|H2].
  - exfalso. auto.
  - left. repeat split; [assumption..|]. intros (_ & _ & H & _). contradiction.
  - right; left. repeat split; [assumption..|]. intros (_ & _ & _ & H & _). contradiction.
  - right; right. repeat split; assumption.
Qed.

(** The precondition is used: an [E] outside the data model that orders
    a pair both ways, [E = [(0,1), (1,0)]], puts the pair (0,1) under two
    of the alternatives. *)
Lemma antiparallel_pair_is_ordered_twice :
  ~ exactly_one ((0, 1)%nat ∈ [(0, 1); (1, 0)]%nat)
                ((1, 0)%nat ∈ [(0, 1); (1, 0)]%nat)
                ((0, 1)%nat ∈ derive_VP 2 [(0, 1); (1, 0)]%nat).
Proof.
  assert ((0, 1)%nat ∈ [(0, 1); (1, 0)]%nat) as H1 by left.
  assert ((1, 0)%nat ∈ [(0, 1); (1, 0)]%nat) as H2 by (right; left).
  intros [(_ & H & _)|[(H & _ & _)|(H & _ & _)]]; contradiction.
Qed.

(** C9.  For every instance of the data model, whose precedence edges
    [E] form a DAG, the derived list [VP] together with [E] and its
    transpose partitions the pairs of distinct activities: for every
    [i <> j] exactly one holds, [(i,j)] is in [E], [(j,i)] is in [E], or
    [(i,j)] is in [VP]; in particular no pair is both precedence-related
    and in [VP]. *)
Theorem C9_VP_partitions_pairs n E i j :
  acyclic E ->
  (i < n)%nat -> (j < n)%nat -> i <> j ->
  exactly_one ((i, j) ∈ E) ((j, i) ∈ E) ((i, j) ∈ derive_VP n E).
Proof.
  intros Hac. apply VP_partitions_unordered_pairs.
  now apply acyclic_no_antiparallel.
Qed.

Lemma C9_witness :
  exactly_one ((0, 2)%nat ∈ chain_E) ((2, 0)%nat ∈ chain_E)
              ((0, 2)%nat ∈ derive_VP 3 chain_E).
Proof.
  apply C9_VP_partitions_pairs; [|lia|lia|lia].
  apply topological_acyclic. repeat constructor.
Defined.

(** ** What the builders emit *)

Lemma td_get_inv d k v :
  td_get d k = Ok v -> v = Var (td_name d, k) /\ k ∈ td_keys d.
Proof. unfold td_get. case_decide; [|discriminate]. intros [= <-]. auto. Qed.

Lemma addConstrs_inv name c ncs :
  addConstrs name c = Ok ncs -> exists cs, c = Ok cs /\ ncs = map (pair name) cs.
Proof.
  unfold addConstrs. intros (cs & Hc & [= <-])%rbind_ok. eauto.
Qed.

Lemma addConstrs_elem name c ncs x :
  addConstrs name c = Ok ncs ->
  (forall cs, c = Ok cs -> x ∈ cs) -> (name, x) ∈ ncs.
Proof.
  intros (cs & Hc & ->)%addConstrs_inv Hx.
  apply list_elem_of_In, in_map, list_elem_of_In. auto.
Qed.

(** The family written [(v[i, m, t] == 0 for i in range(n) for m in
    range(M) for t in range(earliest_starting_times[i]))] holds a
    constraint for every instant before the earliest start. *)
Lemma zero_time_slots_elem n M x est cs i mo t e :
  Pulse.zero_time_slots n M x est = Ok cs ->
  (i < n)%nat -> (mo < M)%nat -> est !! i = Some e -> 0 <= t < e ->
  eq_ (Var (td_name x, key3 i mo t)) (Num 0) ∈ cs.
Proof.
  unfold Pulse.zero_time_slots. intros H Hi Hm He Ht.
  destruct (comp_flat_elem _ _ _ i H) as (ys & Hys & Hsub);
    [now apply elem_of_range|]. apply Hsub.
  destruct (comp_flat_elem _ _ _ mo Hys) as (zs & Hzs & Hsub');
    [now apply elem_of_range|]. apply Hsub'.
  apply rbind_ok in Hzs as (e' & He'%getitem_ok & Hzs).
  assert (e' = e) as -> by congruence.
  destruct (comp_elem _ _ _ t Hzs) as (c & Hc & Hin);
    [now apply elem_of_zrange|].
  apply rbind_ok in Hc as (v & [-> _]%td_get_inv & [= <-]). exact Hin.
Qed.

Lemma earliest_bounds_elem n S est cs i e :
  Continuous.earliest_bounds n S est = Ok cs ->
  (i < n)%nat -> est !! i = Some e ->
  ge_ (Var (td_name S, key1 i)) (Num e) ∈ cs.
Proof.
  unfold Continuous.earliest_bounds. intros H Hi He.
  destruct (comp_elem _ _ _ i H) as (c & Hc & Hin); [now apply elem_of_range|].
  apply rbind_ok in Hc as (v & [-> _]%td_get_inv & Hc).
  apply rbind_ok in Hc as (e' & He'%getitem_ok & [= <-]).
  assert (e' = e) as -> by congruence. exact Hin.
Qed.

Lemma pulse_build_tightening dis n T M R E p L r VP m :
  Pulse.build dis n T M R E p L r VP = Ok m ->
  exists est, Utils.get_earliest_start_time n T M R E p L r VP = Ok est /\
              fixes_early_slots "pulse" n M est m.
Proof.
  unfold Pulse.build. intros H.
  apply rbind_ok in H as (est & Hest & H).
  apply rbind_ok in H as (lst & _ & H). cbv zeta in H.
  apply rbind_ok in H as (obj & _ & H).
  apply rbind_ok in H as (c1 & _ & H).
  apply rbind_ok in H as (c2 & _ & H).
  apply rbind_ok in H as (c3 & _ & H).
  apply rbind_ok in H as (c4 & _ & H).
  apply rbind_ok in H as (c5 & H5 & [= <-]).
  exists est. split; [assumption|].
  intros i mo t e Hi Hm He Ht. exists "zero_time_slots". simpl.
  rewrite !elem_of_app. do 4 right.
  apply (addConstrs_elem _ _ _ _ H5). intros cs Hcs.
  eapply (zero_time_slots_elem _ _ _ _ _ _ _ _ _ Hcs); eassumption.
Qed.

Lemma onoff_pulse_build_tightening dis n T M R E p L r VP m :
  OnOffPulse.build dis n T M R E p L r VP = Ok m ->
  exists est, Utils.get_earliest_start_time n T M R E p L r VP = Ok est /\
              fixes_early_slots "pulse" n M est m.
Proof.
  unfold OnOffPulse.build. intros H.
  apply rbind_ok in H as (est & Hest & H).
  apply rbind_ok in H as (lst & _ & H). cbv zeta in H.
  apply rbind_ok in H as (obj & _ & H).
  apply rbind_ok in H as (c1 & _ & H).
  apply rbind_ok in H as (c2 & _ & H).
  apply rbind_ok in H as (c3 & _ & H).
  apply rbind_ok in H as (c4 & _ & H).
  apply rbind_ok in H as (c5 & _ & H).
  apply rbind_ok in H as (c6 & _ & H).
  apply rbind_ok in H as (c7 & H7 & [= <-]).
  exists est. split; [assumption|].
  intros i mo t e Hi Hm He Ht. exists "zero_time_slots". simpl.
  rewrite !elem_of_app. do 6 right.
  apply (addConstrs_elem _ _ _ _ H7). intros cs Hcs.
  eapply (zero_time_slots_elem _ _ _ _ _ _ _ _ _ Hcs); eassumption.
Qed.

Lemma step_build_tightening dis n T M R E p L r VP m :
  Step.build dis n T M R E p L r VP = Ok m ->
  exists est, Utils.get_earliest_start_time n T M R E p L r VP = Ok est /\
              fixes_early_slots "pulse" n M est m.
Proof.
  unfold Step.build. intros H.
  apply rbind_ok in H as (est & Hest & H).
  apply rbind_ok in H as (lst & _ & H). cbv zeta in H.
  apply rbind_ok in H as (obj & _ & H).
  apply rbind_ok in H as (c1 & _ & H).
  apply rbind_ok in H as (c2 & _ & H).
  apply rbind_ok in H as (c3 & _ & H).
  apply rbind_ok in H as (c4 & _ & H).
  apply rbind_ok in H as (c5 & _ & H).
  apply rbind_ok in H as (c6 & H6 & [= <-]).
  exists est. split; [assumption|].
  intros i mo t e Hi Hm He Ht. exists "earliest_start_times". simpl.
  rewrite !elem_of_app. do 5 right.
  apply (addConstrs_elem _ _ _ _ H6). intros cs Hcs.
  eapply (zero_time_slots_elem _ _ _ _ _ _ _ _ _ Hcs); eassumption.
Qed.

Lemma onoff_build_tightening n T M R E p L r VP m :
  OnOff.build n T M R E p L r VP = Ok m ->
  exists est, Utils.get_earliest_start_time n T M R E p L r VP = Ok est /\
              fixes_early_slots "onoff" n M est m.
Proof.
  unfold OnOff.build. intros H.
  apply rbind_ok in H as (est & Hest & H).
  apply rbind_ok in H as (lst & _ & H). cbv zeta in H.
  apply rbind_ok in H as (obj & _ & H).
  apply rbind_ok in H as (c1 & _ & H).
  apply rbind_ok in H as (c2 & _ & H).
  apply rbind_ok in H as (c3 & _ & H).
  apply rbind_ok in H as (c4 & _ & H).
  apply rbind_ok in H as (c5 & _ & H).
  apply rbind_ok in H as (c6 & _ & H).
  apply rbind_ok in H as (c7 & _ & H).
  apply rbind_ok in H as (c8 & H8 & [= <-]).
  exists est. split; [assumption|].
  intros i mo t e Hi Hm He Ht. exists "zero_time_slots". simpl.
  rewrite !elem_of_app. do 7 right.
  apply (addConstrs_elem _ _ _ _ H8). intros cs Hcs.
  eapply (zero_time_slots_elem _ _ _ _ _ _ _ _ _ Hcs); eassumption.
Qed.

Lemma continuous_build_tightening n T M R E VP p L r m :
  Continuous.build n T M R E VP p L r = Ok m ->
  exists est, Utils.get_earliest_start_time n T M R E p L r VP = Ok est /\
              bounds_start_times n est m.
Proof.
  unfold Continuous.build. intros H.
  apply rbind_ok in H as (est & Hest & H).
  apply rbind_ok in H as (lst & _ & H). cbv zeta in H.
  apply rbind_ok in H as (c0 & H0 & H).
  apply rbind_ok in H as (obj & _ & H).
  apply rbind_ok in H as (c1 & _ & H).
  apply rbind_ok in H as (c2 & _ & H).
  apply rbind_ok in H as (c3 & _ & H).
  apply rbind_ok in H as (c4 & _ & H).
  apply rbind_ok in H as (c5 & _ & H).
  apply rbind_ok in H as (c6 & _ & H).
  apply rbind_ok in H as (c7 & _ & [= <-]).
  exists est. split; [assumption|].
  intros i e Hi He. exists "earliest_starting_times". simpl.
  rewrite !elem_of_app. left.
  apply (addConstrs_elem _ _ _ _ H0). intros cs Hcs.
  eapply (earliest_bounds_elem _ _ _ _ _ _ Hcs); eassumption.
Qed.

(** Whenever a builder returns a model, the model carries the bound
    tightening of its encoding, for the earliest start times computed on
    the rescaled instance. *)
Lemma returned_model_is_tightened enc n T M R E p L r VP (h : heap) md h' :
  builder_of enc n T M R E p L r VP h = (Ok md, h') ->
  exists tbl est,
    h' !! p = Some tbl /\
    Utils.get_earliest_start_time n (T / snd md) M R E tbl L r VP = Ok est /\
    length est = n /\
    bound_tightening enc n M est (fst md).
Proof.
  intros H.
  assert (exists tbl est, h' !! p = Some tbl /\
            Utils.get_earliest_start_time n (T / snd md) M R E tbl L r VP = Ok est /\
            bound_tightening enc n M est (fst md)) as (tbl & est & Hp & Hest & Hb).
  { destruct enc; simpl in H;
      apply builder_inv in H as (tbl & _ & _ & _ & -> & Hb);
      exists (rescaled (snd md) tbl); rewrite lookup_insert_eq;
      [ apply pulse_build_tightening in Hb
      | apply pulse_build_tightening in Hb
      | apply step_build_tightening in Hb
      | apply step_build_tightening in Hb
      | apply onoff_build_tightening in Hb
      | apply onoff_pulse_build_tightening in Hb
      | apply onoff_pulse_build_tightening in Hb
      | apply continuous_build_tightening in Hb ];
      destruct Hb as (est & Hest & Hb); exists est; auto. }
  exists tbl, est. pose proof (earliest_nonneg _ _ _ _ _ _ _ _ _ _ Hest) as [Hlen _].
  auto.
Qed.

(** ** Zero-duration activities in the on-off encoding *)

(** C8 (as stated) fails: activity 1 of the instance below is neither
    source nor sink and has duration zero, and both builders of the
    on-off family return a model. *)
Lemma C8_counterexample :
  duration_is zero_p 1 0 0 /\
  is_ok (fst (onoff_model 4 3 1 [1] zero_E 1%positive [] zero_r []
                {[ 1%positive := zero_p ]})) /\
  is_ok (fst (onoff_pulse_model 4 3 1 [1] zero_E 1%positive [] zero_r []
                {[ 1%positive := zero_p ]})).
Proof.
  split; [|split].
  - exists [0]. split; reflexivity.
  - vm_compute. eexists; reflexivity.
  - vm_compute. eexists; reflexivity.
Qed.

Lemma onoff_schedule_terms n T M p y cs i :
  OnOff.schedule n T M p y = Ok cs ->
  (1 <= i < n - 1)%nat ->
  exists terms, eq_ (Quicksum terms) (Num 1) ∈ cs /\
    forall mo t d, (mo < M)%nat -> 0 <= t < T -> duration_is p i mo d ->
      (if 0 <? d then Div (Var (td_name y, key3 i mo t)) d
       else Var (td_name y, key3 i mo t)) ∈ terms.
Proof.
  unfold OnOff.schedule. intros H Hi.
  destruct (comp_elem _ _ _ i H) as (c & Hc & Hin);
    [apply elem_of_range_from; lia|].
  apply rbind_ok in Hc as (lhs & Hlhs & [= <-]).
  unfold quicksum in Hlhs. apply rbind_ok in Hlhs as (terms & Hterms & [= <-]).
  exists terms. split; [assumption|].
  intros mo t d Hm Ht Hd.
  destruct (comp_flat_elem _ _ _ mo Hterms) as (ys & Hys & Hsub);
    [now apply elem_of_range|]. apply Hsub.
  destruct (comp_elem _ _ _ t Hys) as (e & He & Hine);
    [now apply elem_of_zrange|].
  unfold OnOff.slot_share in He.
  apply rbind_ok in He as (d' & Hd'%duration_iff & He).
  assert (d' = d) as ->.
  { destruct Hd as (row & H1 & H2), Hd' as (row' & H1' & H2'). congruence. }
  destruct (0 <? d).
  - apply rbind_ok in He as (v & [-> _]%td_get_inv & [= <-]). exact Hine.
  - apply td_get_inv in He as [-> _]. exact Hine.
Qed.

(** C8, amended.  [onoff_model] raises nothing on account of a
    zero-duration activity.  Whenever it returns a model, the schedule
    constraint of every non-dummy activity [i] sums, over the modes and
    instants, [y[i,m,t] / p[i][m]] where the rescaled duration is positive
    and the bare [y[i,m,t]] where it is zero, and equates the sum to 1. *)
Theorem C8_onoff_counts_zero_duration_slots n T M R E p L r VP (h : heap) md h' :
  onoff_model n T M R E p L r VP h = (Ok md, h') ->
  exists tbl, h' !! p = Some tbl /\
    forall i, (1 <= i < n - 1)%nat ->
    exists terms,
      ("schedule", eq_ (Quicksum terms) (Num 1)) ∈ m_constrs (fst md) /\
      forall mo t d, (mo < M)%nat -> 0 <= t < T / snd md -> duration_is tbl i mo d ->
        (if 0 <? d then Div (Var ("onoff", key3 i mo t)) d
         else Var ("onoff", key3 i mo t)) ∈ terms.
Proof.
  intros H. apply builder_inv in H as (tbl & _ & _ & _ & -> & Hb).
  exists (rescaled (snd md) tbl). rewrite lookup_insert_eq. split; [reflexivity|].
  intros i Hi. unfold OnOff.build in Hb.
  apply rbind_ok in Hb as (est & _ & Hb).
  apply rbind_ok in Hb as (lst & _ & Hb). cbv zeta in Hb.
  apply rbind_ok in Hb as (obj & _ & Hb).
  apply rbind_ok in Hb as (c1 & H1 & Hb).
  apply rbind_ok in Hb as (c2 & _ & Hb).
  apply rbind_ok in Hb as (c3 & _ & Hb).
  apply rbind_ok in Hb as (c4 & _ & Hb).
  apply rbind_ok in Hb as (c5 & _ & Hb).
  apply rbind_ok in Hb as (c6 & _ & Hb).
  apply rbind_ok in Hb as (c7 & _ & Hb).
  apply rbind_ok in Hb as (c8 & _ & [= <-]). simpl.
  apply addConstrs_inv in H1 as (cs & Hcs & ->).
  destruct (onoff_schedule_terms _ _ _ _ _ _ i Hcs Hi) as (terms & Hin & Hterms).
  exists terms. split; [|exact Hterms].
  rewrite !elem_of_app. left.
  apply list_elem_of_In, in_map, list_elem_of_In. exact Hin.
Qed.

Lemma C8_witness :
  exists md h',
    onoff_model 4 3 1 [1] zero_E 1%positive [] zero_r []
      {[ 1%positive := zero_p ]} = (Ok md, h') /\
    exists tbl, h' !! 1%positive = Some tbl /\
      forall i, (1 <= i < 4 - 1)%nat ->
      exists terms,
        ("schedule", eq_ (Quicksum terms) (Num 1)) ∈ m_constrs (fst md) /\
        forall mo t d, (mo < 1)%nat -> 0 <= t < 3 / snd md ->
          duration_is tbl i mo d ->
          (if 0 <? d then Div (Var ("onoff", key3 i mo t)) d
           else Var ("onoff", key3 i mo t)) ∈ terms.
Proof.
  eexists _, _. split; [vm_compute; reflexivity|].
  apply (C8_onoff_counts_zero_duration_slots 4 3 1 [1] zero_E 1%positive []
           zero_r [] {[ 1%positive := zero_p ]}).
  vm_compute. reflexivity.
Defined.

(** ** Cross-encoding equivalence *)

(** C1 fails on the code.  On the instance below (activity 1 has
    duration zero and needs the one unit of resource that activity 2
    also needs) both models are feasible, the divisor is 1, and the
    optimal objective of the pulse model is 1 while that of the on-off
    model is 2. *)
Theorem C1_pulse_and_onoff_optima_differ :
  exists md_pulse md_onoff h1 h2,
    pulse_model 4 3 1 [1] zero_E 1%positive [] zero_r []
      {[ 1%positive := zero_p ]} = (Ok md_pulse, h1) /\
    onoff_model 4 3 1 [1] zero_E 1%positive [] zero_r []
      {[ 1%positive := zero_p ]} = (Ok md_onoff, h2) /\
    reported_objective md_pulse = Some 1%Q /\
    reported_objective md_onoff = Some 2%Q.
Proof.
  eexists _, _, _, _.
  split; [vm_compute; reflexivity|].
  split; [vm_compute; reflexivity|].
  split; vm_compute; reflexivity.
Qed.

(** ** Every builder returns on an encodable instance *)

Lemma rbind_total {A B} (c : result A) (k : A -> result B) :
  is_ok c -> (forall a, c = Ok a -> is_ok (k a)) -> is_ok (rbind c k).
Proof. intros [a ->] Hk. simpl. now apply Hk. Qed.

Lemma comp_flat_total {A B} (f : A -> result (list B)) xs :
  (forall x, x ∈ xs -> is_ok (f x)) -> is_ok (comp_flat f xs).
Proof.
  intros H. unfold comp_flat. destruct (comp_total f xs H) as [yss ->].
  simpl. eexists; reflexivity.
Qed.

Lemma quicksum_total c : is_ok c -> is_ok (quicksum c).
Proof. intros [es ->]. eexists; reflexivity. Qed.

Lemma addConstrs_total name c : is_ok c -> is_ok (addConstrs name c).
Proof. intros [cs ->]. eexists; reflexivity. Qed.

Lemma td_get_total d k : k ∈ td_keys d -> is_ok (td_get d k).
Proof. intros H. unfold td_get. rewrite decide_True by assumption. eexists; reflexivity. Qed.

Lemma getitem_total {A} (l : list A) i : (i < length l)%nat -> is_ok (getitem l i).
Proof.
  intros H. destruct (lookup_lt_is_Some_2 l i H) as [x Hx].
  exists x. now apply getitem_ok.
Qed.

Lemma key3_in_imt n M T i m t :
  (i < n)%nat -> (m < M)%nat -> 0 <= t < T -> key3 i m t ∈ imt_sets n M T.
Proof.
  intros Hi Hm Ht. unfold imt_sets.
  apply elem_of_flat_map. exists i. split; [now apply elem_of_range|].
  apply elem_of_flat_map. exists m. split; [now apply elem_of_range|].
  apply list_elem_of_fmap. exists t. split; [reflexivity|now apply elem_of_zrange].
Qed.

Lemma key_last_in_imt n M T m t :
  (1 <= n)%nat -> (m < M)%nat -> 0 <= t < T -> key_last n m t ∈ imt_sets n M T.
Proof.
  intros Hn Hm Ht. unfold key_last.
  replace (Z.of_nat n - 1) with (Z.of_nat (n - 1)) by lia.
  apply (key3_in_imt n M T (n - 1) m t); [lia|assumption..].
Qed.

Lemma requirement_total n M K r i m k :
  requirements_shape n M K r ->
  (i < n)%nat -> (m < M)%nat -> (k < K)%nat -> is_ok (requirement r i m k).
Proof.
  intros Hr Hi Hm Hk. destruct (Hr i m k Hi Hm Hk) as (ri & rim & v & H1 & H2 & H3).
  exists v. unfold requirement.
  apply getitem_ok in H1 as ->. simpl. apply getitem_ok in H2 as ->. simpl.
  now apply getitem_ok.
Qed.

Lemma duration_nonneg p i m v :
  nonneg_durations p -> Utils.duration p i m = Ok v -> 0 <= v.
Proof.
  intros Hp (row & H1 & H2)%duration_iff. unfold nonneg_durations in Hp.
  rewrite Forall_lookup in Hp. specialize (Hp _ _ H1).
  rewrite Forall_lookup in Hp. exact (Hp _ _ H2).
Qed.

Lemma pair_in_range n ps i j :
  pairs_in_range n ps -> (i, j) ∈ ps -> (i < n)%nat /\ (j < n)%nat.
Proof.
  unfold pairs_in_range. rewrite Forall_forall. intros H Hin. exact (H _ Hin).
Qed.

Lemma key1_in n i : (i < n)%nat -> key1 i ∈ map key1 (range n).
Proof.
  intros Hi. apply list_elem_of_In, in_map, list_elem_of_In. now apply elem_of_range.
Qed.

Lemma key1_last_in n : (1 <= n)%nat -> [Z.of_nat n - 1] ∈ map key1 (range n).
Proof.
  intros Hn. replace (Z.of_nat n - 1) with (Z.of_nat (n - 1)) by lia.
  apply (key1_in n (n - 1)). lia.
Qed.

Lemma key2_in n M i m :
  (i < n)%nat -> (m < M)%nat ->
  key2 i m ∈ flat_map (fun i => map (key2 i) (range M)) (range n).
Proof.
  intros Hi Hm. apply elem_of_flat_map. exists i. split; [now apply elem_of_range|].
  apply list_elem_of_In, in_map, list_elem_of_In. now apply elem_of_range.
Qed.

Lemma key3_in_resource_sets n K i j k :
  (i < n)%nat -> (j < n)%nat -> (k < K)%nat ->
  key3 i j (Z.of_nat k) ∈
    flat_map (fun i => flat_map (fun j =>
      map (fun k => key3 i j (Z.of_nat k)) (range K)) (range n)) (range n).
Proof.
  intros Hi Hj Hk. apply elem_of_flat_map. exists i. split; [now apply elem_of_range|].
  apply elem_of_flat_map. exists j. split; [now apply elem_of_range|].
  apply list_elem_of_fmap. exists k. split; [reflexivity|now apply elem_of_range].
Qed.

Lemma py_max_total {A} (f : A -> result Z) xs ys :
  comp f xs = Ok ys -> xs <> [] -> is_ok (py_max ys).
Proof.
  intros H%comp_ok_inv%Forall2_length Hne.
  destruct ys; [destruct xs; [contradiction|discriminate]|].
  eexists; reflexivity.
Qed.

(** One step of the obligation: peel a comprehension, a bind or a lookup. *)
Ltac ok_step :=
  match goal with
  | |- is_ok (Ok _) => eexists; reflexivity
  | |- is_ok (match ?e with (_, _) => _ end) => destruct e
  | |- is_ok (comp _ _) => apply comp_total; intros ? ?
  | |- is_ok (comp_flat _ _) => apply comp_flat_total; intros ? ?
  | |- is_ok (quicksum _) => apply quicksum_total
  | |- is_ok (addConstrs _ _) => apply addConstrs_total
  | |- is_ok (rbind _ _) => apply rbind_total; [|intros ? ?]
  | |- is_ok (td_get _ _) => apply td_get_total; simpl
  | |- is_ok (if ?b then _ else _) => destruct b eqn:?
  end.

(** Turn range memberships and comparisons in the context into
    arithmetic facts. *)
Ltac ranges :=
  repeat match goal with
  | H : _ ∈ range _ |- _ => apply elem_of_range in H
  | H : _ ∈ range_from _ _ |- _ => apply elem_of_range_from in H
  | H : _ ∈ zrange _ _ |- _ => apply elem_of_zrange in H
  | H : (_ <=? _) = true |- _ => apply Z.leb_le in H
  | H : (_ <=? _) = false |- _ => apply Z.leb_gt in H
  | H : (_ <? _) = true |- _ => apply Z.ltb_lt in H
  | H : (_ <? _) = false |- _ => apply Z.ltb_ge in H
  | H : (_ =? _)%nat = true |- _ => apply Nat.eqb_eq in H
  | H : (_ =? _)%nat = false |- _ => apply Nat.eqb_neq in H
  end.

Section Encodable.
Context {n : nat} {T : Z} {M : nat} {R : list Z} {E : list (nat * nat)}
        {p : list (list Z)} {L : list (nat * nat)}
        {r : list (list (list Z))} {VP : list (nat * nat)}.
Hypothesis EN : encodable n T M R E p L r VP.

Local Abbreviation WF := (en_wf _ _ _ _ _ _ _ _ _ EN).

Lemma edge_in_range i j : (i, j) ∈ E -> (i < n)%nat /\ (j < n)%nat.
Proof. apply (pair_in_range n E), (wf_E _ _ _ _ WF). Qed.

Lemma link_in_range i j : (i, j) ∈ L -> (i < n)%nat /\ (j < n)%nat.
Proof. apply (pair_in_range n L), (en_L _ _ _ _ _ _ _ _ _ EN). Qed.

Lemma nonordered_in_range i j : (i, j) ∈ VP -> (i < n)%nat /\ (j < n)%nat.
Proof. apply (pair_in_range n VP), (en_VP _ _ _ _ _ _ _ _ _ EN). Qed.

(** Side conditions: a key is declared, an index is in range. *)
Ltac side :=
  ranges;
  repeat match goal with
  | H : (_, _) ∈ E |- _ => apply edge_in_range in H as [? ?]
  | H : (_, _) ∈ L |- _ => apply link_in_range in H as [? ?]
  | H : (_, _) ∈ VP |- _ => apply nonordered_in_range in H as [? ?]
  | H : Utils.duration p _ _ = Ok _ |- _ =>
      apply (duration_nonneg _ _ _ _ (en_nonneg _ _ _ _ _ _ _ _ _ EN)) in H
  end;
  pose proof (wf_n _ _ _ _ WF); pose proof (wf_M _ _ _ _ WF);
  pose proof (en_T _ _ _ _ _ _ _ _ _ EN);
  first
    [ lia
    | apply key3_in_imt; lia
    | apply key_last_in_imt; lia
    | apply (duration_total WF); lia
    | apply (requirement_total n M (length R) r _ _ _ (en_r _ _ _ _ _ _ _ _ _ EN)); lia
    | apply getitem_total; lia
    | apply key1_in; lia
    | apply key1_last_in; lia
    | apply key2_in; lia
    | apply key3_in_resource_sets; lia ].

Ltac ok := repeat ok_step; try side.

Lemma pulse_objective_total :
  is_ok (Pulse.objective n T M (addVars (imt_sets n M T) BINARY "pulse")).
Proof. unfold Pulse.objective. ok. Qed.

Lemma pulse_schedule_total x : is_ok (Pulse.schedule n x).
Proof. unfold Pulse.schedule. ok. Qed.

Lemma pulse_precedence_total :
  is_ok (Pulse.precedence T M E p (addVars (imt_sets n M T) BINARY "pulse")).
Proof. unfold Pulse.precedence. ok. Qed.

Lemma pulse_precedence_disaggregated_total :
  is_ok (Pulse.precedence_disaggregated T M E p
           (addVars (imt_sets n M T) BINARY "pulse")).
Proof. unfold Pulse.precedence_disaggregated. ok. Qed.

Lemma pulse_resource_total :
  is_ok (Pulse.resource n T M R p r (addVars (imt_sets n M T) BINARY "pulse")).
Proof. unfold Pulse.resource. ok. Qed.

Lemma pulse_linked_total :
  is_ok (Pulse.linked T M L (addVars (imt_sets n M T) BINARY "pulse")).
Proof. unfold Pulse.linked. ok. Qed.

Lemma pulse_zero_time_slots_total family est :
  Utils.get_earliest_start_time n T M R E p L r VP = Ok est ->
  is_ok (Pulse.zero_time_slots n M (addVars (imt_sets n M T) BINARY family) est).
Proof.
  intros Hest. pose proof (en_est _ _ _ _ _ _ _ _ _ EN est Hest) as Hle.
  apply earliest_nonneg in Hest as [Hlen _].
  unfold Pulse.zero_time_slots. ok.
  match goal with H : getitem est _ = Ok _ |- _ => apply getitem_ok in H as Hlk end.
  rewrite Forall_lookup in Hle. specialize (Hle _ _ Hlk). simpl in Hle.
  ranges. apply key3_in_imt; lia.
Qed.

Lemma bounds_ok :
  exists est lst,
    Utils.get_earliest_start_time n T M R E p L r VP = Ok est /\
    Utils.get_latest_start_time n T M R E p L r VP = Ok lst.
Proof.
  destruct (bounds_total n T M R E p L r VP WF) as (est & lst & ? & _ & ? & _).
  eauto.
Qed.

Lemma earliest_ok : is_ok (Utils.get_earliest_start_time n T M R E p L r VP).
Proof. destruct bounds_ok as (est & _ & -> & _). eexists; reflexivity. Qed.

Lemma latest_ok : is_ok (Utils.get_latest_start_time n T M R E p L r VP).
Proof. destruct bounds_ok as (_ & lst & _ & ->). eexists; reflexivity. Qed.

Lemma pulse_build_total dis : is_ok (Pulse.build dis n T M R E p L r VP).
Proof.
  unfold Pulse.build.
  apply rbind_total; [apply earliest_ok|intros est Hest].
  apply rbind_total; [apply latest_ok|intros lst _]. cbv zeta.
  apply rbind_total; [apply pulse_objective_total|intros obj _].
  apply rbind_total; [apply addConstrs_total, pulse_schedule_total|intros c1 _].
  apply rbind_total; [apply addConstrs_total|intros c2 _].
  { destruct dis; [apply pulse_precedence_disaggregated_total
                  |apply pulse_precedence_total]. }
  apply rbind_total; [apply addConstrs_total, pulse_resource_total|intros c3 _].
  apply rbind_total; [apply addConstrs_total, pulse_linked_total|intros c4 _].
  apply rbind_total;
    [apply addConstrs_total, pulse_zero_time_slots_total, Hest|intros c5 _].
  eexists; reflexivity.
Qed.

(** step.py *)

Local Abbreviation z := (addVars (imt_sets n M T) BINARY "pulse").

Lemma step_before_total i m t :
  (i < n)%nat -> (m < M)%nat -> 0 <= t < T -> is_ok (Step.before z i m t).
Proof. intros. unfold Step.before. ok. Qed.

Lemma step_completed_total i m t :
  (i < n)%nat -> (m < M)%nat -> 0 <= t < T -> is_ok (Step.completed p z i m t).
Proof. intros. unfold Step.completed. ok. Qed.

Lemma step_objective_total : is_ok (Step.objective n T M z).
Proof. unfold Step.objective. ok. Qed.

Lemma step_schedule_total : is_ok (Step.schedule n T M z).
Proof. unfold Step.schedule. ok. Qed.

Lemma step_started_same_mode_total : is_ok (Step.started_same_mode n T M z).
Proof. unfold Step.started_same_mode. ok. Qed.

Lemma step_precedence_total : is_ok (Step.precedence T M E p z).
Proof.
  unfold Step.precedence. ok; try (apply step_before_total; side).
Qed.

Lemma step_precedence_disaggregated_total :
  is_ok (Step.precedence_disaggregated T M E p z).
Proof.
  unfold Step.precedence_disaggregated. ok; try (apply step_completed_total; side).
Qed.

Lemma step_resource_total : is_ok (Step.resource n T M R p r z).
Proof.
  unfold Step.resource. ok; try (apply step_completed_total; side).
Qed.

Lemma step_linked_total : is_ok (Step.linked T M L z).
Proof. unfold Step.linked. ok. Qed.

Lemma step_build_total dis : is_ok (Step.build dis n T M R E p L r VP).
Proof.
  unfold Step.build.
  apply rbind_total; [apply earliest_ok|intros est Hest].
  apply rbind_total; [apply latest_ok|intros lst _]. cbv zeta.
  apply rbind_total; [apply step_objective_total|intros obj _].
  apply rbind_total; [apply addConstrs_total, step_schedule_total|intros c1 _].
  apply rbind_total;
    [apply addConstrs_total, step_started_same_mode_total|intros c2 _].
  apply rbind_total; [|intros c3 _].
  { destruct dis; apply addConstrs_total;
      [apply step_precedence_disaggregated_total|apply step_precedence_total]. }
  apply rbind_total; [apply addConstrs_total, step_resource_total|intros c4 _].
  apply rbind_total; [apply addConstrs_total, step_linked_total|intros c5 _].
  apply rbind_total;
    [apply addConstrs_total, (pulse_zero_time_slots_total "pulse"), Hest
    |intros c6 _].
  eexists; reflexivity.
Qed.

(** onoff.py *)

Local Abbreviation y := (addVars (imt_sets n M T) BINARY "onoff").

Lemma onoff_objective_total : is_ok (OnOff.objective n T M y).
Proof. unfold OnOff.objective. ok. Qed.

Lemma onoff_schedule_total : is_ok (OnOff.schedule n T M p y).
Proof. unfold OnOff.schedule, OnOff.slot_share. ok. Qed.

Lemma onoff_schedule_first_total : is_ok (OnOff.schedule_first T M y).
Proof.
  unfold OnOff.schedule_first. ok.
Qed.

Lemma onoff_schedule_last_total : is_ok (OnOff.schedule_last n T M y).
Proof. unfold OnOff.schedule_last. ok. Qed.

Lemma onoff_started_same_mode_total : is_ok (OnOff.started_same_mode n T M p y).
Proof. unfold OnOff.started_same_mode. ok. Qed.

Lemma onoff_precedence_total : is_ok (OnOff.precedence T M E p y).
Proof. unfold OnOff.precedence. ok. Qed.

Lemma onoff_resource_total : is_ok (OnOff.resource n T M R r y).
Proof. unfold OnOff.resource. ok. Qed.

Lemma onoff_linked_total : is_ok (OnOff.linked T M p L y).
Proof. unfold OnOff.linked. ok. Qed.

Lemma onoff_build_total : is_ok (OnOff.build n T M R E p L r VP).
Proof.
  unfold OnOff.build.
  apply rbind_total; [apply earliest_ok|intros est Hest].
  apply rbind_total; [apply latest_ok|intros lst _]. cbv zeta.
  apply rbind_total; [apply onoff_objective_total|intros obj _].
  apply rbind_total; [apply addConstrs_total, onoff_schedule_total|intros c1 _].
  apply rbind_total; [|intros c2 _].
  { apply rbind_total; [apply onoff_schedule_first_total|intros; ok]. }
  apply rbind_total; [|intros c3 _].
  { apply rbind_total; [apply onoff_schedule_last_total|intros; ok]. }
  apply rbind_total;
    [apply addConstrs_total, onoff_started_same_mode_total|intros c4 _].
  apply rbind_total; [apply addConstrs_total, onoff_precedence_total|intros c5 _].
  apply rbind_total; [apply addConstrs_total, onoff_resource_total|intros c6 _].
  apply rbind_total; [apply addConstrs_total, onoff_linked_total|intros c7 _].
  apply rbind_total;
    [apply addConstrs_total, (pulse_zero_time_slots_total "onoff"), Hest
    |intros c8 _].
  eexists; reflexivity.
Qed.

(** onoff_pulse.py *)

Lemma connect_pulse_onoff_total :
  is_ok (OnOffPulse.connect_pulse_onoff n T M p z y).
Proof. unfold OnOffPulse.connect_pulse_onoff. ok. Qed.

Lemma connect_pulse_onoff_processing_time_total :
  is_ok (OnOffPulse.connect_pulse_onoff_processing_time n T M p z y).
Proof. unfold OnOffPulse.connect_pulse_onoff_processing_time. ok. Qed.

Lemma onoff_pulse_build_total dis :
  is_ok (OnOffPulse.build dis n T M R E p L r VP).
Proof.
  unfold OnOffPulse.build.
  apply rbind_total; [apply earliest_ok|intros est Hest].
  apply rbind_total; [apply latest_ok|intros lst _]. cbv zeta.
  apply rbind_total; [apply pulse_objective_total|intros obj _].
  apply rbind_total; [apply addConstrs_total, pulse_schedule_total|intros c1 _].
  apply rbind_total;
    [apply addConstrs_total, connect_pulse_onoff_total|intros c2 _].
  apply rbind_total;
    [apply addConstrs_total, connect_pulse_onoff_processing_time_total
    |intros c3 _].
  apply rbind_total; [apply addConstrs_total|intros c4 _].
  { destruct dis; [apply pulse_precedence_disaggregated_total
                  |apply pulse_precedence_total]. }
  apply rbind_total; [apply addConstrs_total, pulse_resource_total|intros c5 _].
  apply rbind_total; [apply addConstrs_total, pulse_linked_total|intros c6 _].
  apply rbind_total;
    [apply addConstrs_total, pulse_zero_time_slots_total, Hest|intros c7 _].
  eexists; reflexivity.
Qed.

(** continuous.py *)

Local Abbreviation S := (addVars (map key1 (range n)) CONTINUOUS "activity").
Local Abbreviation xm :=
  (addVars (flat_map (fun i => map (key2 i) (range M)) (range n)) BINARY "mode").
Local Abbreviation yc :=
  (addVars (Continuous.pair_sets n) BINARY "completion_start_sequence").
Local Abbreviation zs :=
  (addVars (Continuous.pair_sets n) BINARY "start_start_sequence").
Local Abbreviation u :=
  (addVars
     (flat_map (fun i => flat_map (fun j =>
        map (fun k => key3 i j (Z.of_nat k)) (range (length R))) (range n))
        (range n))
     BINARY "resource").

Lemma chosen_duration_total i :
  (i < n)%nat -> is_ok (Continuous.chosen_duration M p xm i).
Proof. intros. unfold Continuous.chosen_duration. ok. Qed.

Lemma chosen_requirement_total i k :
  (i < n)%nat -> (k < length R)%nat ->
  is_ok (Continuous.chosen_requirement M r xm i k).
Proof. intros. unfold Continuous.chosen_requirement. ok. Qed.

Lemma continuous_earliest_bounds_total est :
  Utils.get_earliest_start_time n T M R E p L r VP = Ok est ->
  is_ok (Continuous.earliest_bounds n S est).
Proof.
  intros [Hlen _]%earliest_nonneg. unfold Continuous.earliest_bounds. ok.
Qed.

Lemma continuous_objective_total : is_ok (Continuous.objective n S).
Proof. unfold Continuous.objective. ok. Qed.

Lemma connect_start_completion_total :
  is_ok (Continuous.connect_start_completion T M VP p S xm yc).
Proof.
  unfold Continuous.connect_start_completion, Continuous.pair_sets.
  ok; try (apply chosen_duration_total; side).
Qed.

Lemma continuous_precedence_total :
  is_ok (Continuous.precedence M E p S xm).
Proof.
  unfold Continuous.precedence. ok; try (apply chosen_duration_total; side).
Qed.

Lemma connect_start_start_timing_total :
  is_ok (Continuous.connect_start_start_timing T VP S zs).
Proof.
  unfold Continuous.connect_start_start_timing, Continuous.pair_sets. ok.
Qed.

Lemma execute_activity_total : is_ok (Continuous.execute_activity n M xm).
Proof. unfold Continuous.execute_activity. ok. Qed.

Lemma continuous_resource_total :
  is_ok (Continuous.resource M R VP r xm yc zs u).
Proof.
  unfold Continuous.resource, Continuous.pair_sets.
  ok; try (apply chosen_requirement_total; side).
  eapply py_max_total; [eassumption|].
  pose proof (wf_M _ _ _ _ WF). unfold range. destruct M; [lia|discriminate].
Qed.

Lemma continuous_resource_2_total :
  is_ok (Continuous.resource_2 n M R VP r xm u).
Proof.
  unfold Continuous.resource_2.
  ok; try (apply chosen_requirement_total; side).
Qed.

Lemma continuous_linked_total : is_ok (Continuous.linked M L xm).
Proof. unfold Continuous.linked. ok. Qed.

Lemma continuous_build_total : is_ok (Continuous.build n T M R E VP p L r).
Proof.
  unfold Continuous.build.
  apply rbind_total; [apply earliest_ok|intros est Hest].
  apply rbind_total; [apply latest_ok|intros lst _]. cbv zeta.
  apply rbind_total;
    [apply addConstrs_total, continuous_earliest_bounds_total, Hest|intros c0 _].
  apply rbind_total; [apply continuous_objective_total|intros obj _].
  apply rbind_total;
    [apply addConstrs_total, connect_start_completion_total|intros c1 _].
  apply rbind_total;
    [apply addConstrs_total, continuous_precedence_total|intros c2 _].
  apply rbind_total;
    [apply addConstrs_total, connect_start_start_timing_total|intros c3 _].
  apply rbind_total; [apply addConstrs_total, execute_activity_total|intros c4 _].
  apply rbind_total; [apply addConstrs_total, continuous_resource_total|intros c5 _].
  apply rbind_total;
    [apply addConstrs_total, continuous_resource_2_total|intros c6 _].
  apply rbind_total; [apply addConstrs_total, continuous_linked_total|intros c7 _].
  eexists; reflexivity.
Qed.

End Encodable.

(** On every instance whose rescaled form is encodable, each of the
    eight builders returns a model together with the divisor, leaving
    the rescaled table in the store. *)
Lemma builders_return enc n T M R E p L r VP (h : heap) tbl :
  h !! p = Some tbl ->
  compute_divisor tbl T <> 0 ->
  encodable n (T / compute_divisor tbl T) M R E
            (rescaled (compute_divisor tbl T) tbl) L r VP ->
  exists m,
    builder_of enc n T M R E p L r VP h
    = (Ok (m, compute_divisor tbl T),
       <[p := rescaled (compute_divisor tbl T) tbl]> h).
Proof.
  intros Hp Hd EN.
  assert (forall build : Z -> list (list Z) -> result model,
    is_ok (build (T / compute_divisor tbl T) (rescaled (compute_divisor tbl T) tbl)) ->
    exists m,
      (nt <~ normalize p T ;;
       let '(T, divisor) := nt in
       tbl <~ load p ;;
       model <~ lift (build T tbl) ;;
       pret (model, divisor)) h
      = (Ok (m, compute_divisor tbl T),
         <[p := rescaled (compute_divisor tbl T) tbl]> h)) as Hrun.
  { intros build [m Hm]. exists m. unfold pbind at 1.
    rewrite (normalize_spec p T h tbl Hp Hd).
    unfold pbind, load, lift, pret. rewrite lookup_insert_eq. now rewrite Hm. }
  destruct enc; simpl; apply Hrun.
  - apply (pulse_build_total EN).
  - apply (pulse_build_total EN).
  - apply (step_build_total EN).
  - apply (step_build_total EN).
  - apply (onoff_build_total EN).
  - apply (onoff_pulse_build_total EN).
  - apply (onoff_pulse_build_total EN).
  - apply (continuous_build_total EN).
Qed.

(** The rescaled chain instance is encodable, so the lemma above applies
    to it for every encoding. *)
Lemma chain_encodable :
  encodable 3 1 1 [1] chain_E [[0]; [1]; [0]] [] chain_r (derive_VP 3 chain_E).
Proof.
  constructor.
  - constructor; simpl; [lia|lia|reflexivity| |]; repeat constructor.
  - repeat constructor; lia.
  - intros i m k Hi Hm Hk. simpl in Hk.
    assert (m = 0%nat) as -> by lia. assert (k = 0%nat) as -> by lia.
    destruct i as [|[|[|i]]]; [..|lia]; eexists _, _, _; repeat split.
  - constructor.
  - apply Forall_forall. intros [i j] (Hi & Hj & _)%elem_of_derive_VP. auto.
  - lia.
  - intros est [= <-]. repeat constructor; lia.
Qed.

(** ** Bound tightening *)

(** C6. Every discrete-time builder emits, for every activity [i], every
    mode [m] and every instant [t] strictly before the earliest start
    time of [i], a constraint fixing its start/active indicator of
    [(i, m, t)] to 0, and the continuous-time builder emits, for every
    activity [i], the lower bound [S[i] >= earliestStart[i]]; the
    earliest start times are those computed on the rescaled instance.
    This holds of every model a builder returns, and a builder does
    return a model on every instance whose rescaled form is encodable. *)
Theorem C6_bound_tightening enc n T M R E p L r VP (h : heap) :
  (forall md h',
     builder_of enc n T M R E p L r VP h = (Ok md, h') ->
     exists tbl est,
       h' !! p = Some tbl /\
       Utils.get_earliest_start_time n (T / snd md) M R E tbl L r VP = Ok est /\
       length est = n /\
       bound_tightening enc n M est (fst md)) /\
  (forall tbl,
     h !! p = Some tbl ->
     compute_divisor tbl T <> 0 ->
     encodable n (T / compute_divisor tbl T) M R E
               (rescaled (compute_divisor tbl T) tbl) L r VP ->
     exists m,
       builder_of enc n T M R E p L r VP h
       = (Ok (m, compute_divisor tbl T),
          <[p := rescaled (compute_divisor tbl T) tbl]> h)).
Proof.
  split.
  - intros md h'. apply returned_model_is_tightened.
  - intros tbl. apply builders_return.
Qed.

Lemma C6_witness :
  exists m est,
    builder_of PDT 3%nat 3 1%nat [1] chain_E 1%positive [] chain_r
      (derive_VP 3 chain_E) {[ 1%positive := chain_p ]}
    = (Ok (m, 3), <[1%positive := [[0]; [1]; [0]]]> {[ 1%positive := chain_p ]}) /\
    Utils.get_earliest_start_time 3 1 1 [1] chain_E [[0]; [1]; [0]] [] chain_r
      (derive_VP 3 chain_E) = Ok est /\
    length est = 3%nat /\
    bound_tightening PDT 3 1 est m.
Proof.
  destruct (C6_bound_tightening PDT 3%nat 3 1%nat [1] chain_E 1%positive []
              chain_r (derive_VP 3 chain_E) {[ 1%positive := chain_p ]})
    as [Hreturned Hreturns].
  destruct (Hreturns chain_p) as [m Hm].
  - reflexivity.
  - vm_compute. discriminate.
  - exact chain_encodable.
  - destruct (Hreturned _ _ Hm) as (tbl & est & Htbl & Hest & Hlen & Htight).
    exists m, est. split; [exact Hm|].
    injection Htbl as <-. auto.
Defined.

(** * Further properties of the code *)

(** ** utils.py: the forward sweep *)

Lemma earliest_outer_frame M p E is_ q : forall est est',
  for_each is_ (fun est i => for_each E (Utils.earliest_edge M p i) est) est = Ok est' ->
  q ∉ is_ -> est' !! q = est !! q.
Proof.
  induction is_ as [|i is_ IH]; simpl; intros est est' H Hq.
  - now injection H as <-.
  - apply rbind_ok in H as (est1 & H1 & H).
    apply not_elem_of_cons in Hq as [Hqi Hq].
    rewrite (IH _ _ H Hq).
    apply earliest_inner_frame in H1 as (_ & Hframe & _). now apply Hframe.
Qed.

Lemma earliest_shape n T M R E p L r VP est :
  Utils.get_earliest_start_time n T M R E p L r VP = Ok est ->
  length est = n /\ est !! 0%nat = Some 0 /\ Forall (fun v => 0 <= v) est.
Proof.
  intros H. destruct (earliest_nonneg _ _ _ _ _ _ _ _ _ _ H) as [Hlen Hpos].
  split; [assumption|]. split; [|assumption].
  unfold Utils.get_earliest_start_time in H.
  apply rbind_ok in H as (est0 & H0 & H).
  apply setitem_inv in H0 as [Hn ->].
  rewrite (earliest_outer_frame _ _ _ _ 0%nat _ _ H).
  - now apply list_lookup_insert_eq.
  - rewrite elem_of_range_from. lia.
Qed.

(** Whatever the instance, a returned list of earliest starts has [n]
    entries, none negative, and starts the source at 0. *)
Theorem earliest_starts_are_nonnegative n T M R E p L r VP est :
  Utils.get_earliest_start_time n T M R E p L r VP = Ok est ->
  length est = n /\ est !! 0%nat = Some 0 /\ Forall (fun v => 0 <= v) est.
Proof. apply earliest_shape. Qed.

Lemma earliest_starts_are_nonnegative_witness :
  length [0; 1; 2] = 3%nat /\ [0; 1; 2] !! 0%nat = Some 0 /\
  Forall (fun v => 0 <= v) [0; 1; 2].
Proof.
  apply (earliest_starts_are_nonnegative 3 4 1 [] cyclic_E cyclic_p [] cyclic_r []).
  reflexivity.
Defined.

(** An inner loop in which no edge enters [i] changes nothing. *)
Lemma earliest_inner_no_edge M p i El : forall est,
  (forall a, (a, i) ∉ El) ->
  for_each El (Utils.earliest_edge M p i) est = Ok est.
Proof.
  induction El as [|[j k] El IH]; simpl; intros est Hno; [reflexivity|].
  destruct (Nat.eqb_spec k i) as [->|_].
  - exfalso. apply (Hno j). left.
  - simpl. apply IH. intros a Ha. apply (Hno a). now right.
Qed.

(** An activity that no precedence edge enters gets earliest start 0,
    on any instance on which the sweep returns. *)
Theorem earliest_start_without_predecessor n T M R E p L r VP est i :
  Utils.get_earliest_start_time n T M R E p L r VP = Ok est ->
  (i < n)%nat -> (forall a, (a, i) ∉ E) ->
  est !! i = Some 0.
Proof.
  unfold Utils.get_earliest_start_time. intros H Hi Hno.
  apply rbind_ok in H as (est0 & H0 & H).
  apply setitem_inv in H0 as [Hn ->].
  assert (forall is_ est1 est2,
    for_each is_ (fun est i => for_each E (Utils.earliest_edge M p i) est) est1 = Ok est2 ->
    est2 !! i = est1 !! i) as Hloop.
  { induction is_ as [|k is_ IH]; simpl; intros est1 est2 H12.
    - now injection H12 as <-.
    - apply rbind_ok in H12 as (est3 & H13 & H32). rewrite (IH _ _ H32).
      destruct (decide (k = i)) as [->|Hk].
      + rewrite earliest_inner_no_edge in H13 by assumption. now injection H13 as <-.
      + apply earliest_inner_frame in H13 as (_ & Hframe & _). apply Hframe. auto. }
  rewrite (Hloop _ _ _ H).
  destruct (decide (i = 0%nat)) as [->|Hi0].
  - now apply list_lookup_insert_eq.
  - rewrite list_lookup_insert_ne by auto. now apply lookup_replicate_2.
Qed.

Lemma earliest_start_without_predecessor_witness :
  [0; 0; 3] !! 0%nat = Some 0.
Proof.
  apply (earliest_start_without_predecessor 3 3 1 [1] chain_E chain_p [] chain_r []).
  - reflexivity.
  - lia.
  - intros a Ha. unfold chain_E in Ha.
    apply elem_of_cons in Ha as [Ha|Ha]; [discriminate|].
    apply elem_of_cons in Ha as [Ha|Ha]; [discriminate|]. inversion Ha.
Defined.

(** After the inner loop at [i], entry [i] is what it was or the value
    some edge into [i] contributed. *)
Lemma earliest_inner_attained M p i El : forall est est',
  for_each El (Utils.earliest_edge M p i) est = Ok est' ->
  (forall a, (a, i) ∈ El -> a <> i) ->
  est' !! i = est !! i \/
  exists a ea d, (a, i) ∈ El /\ est !! a = Some ea /\
                 Utils.min_over_modes p M a = Ok d /\ est' !! i = Some (ea + d).
Proof.
  induction El as [|e El IH]; simpl; intros est est' H Hne.
  - injection H as <-. now left.
  - apply rbind_ok in H as (est1 & H1 & H).
    assert (forall a, (a, i) ∈ El -> a <> i) as Hne'
      by (intros a Ha; apply Hne; now right).
    destruct (IH _ _ H Hne') as [Hsame|(a & ea & d & Ha & Hea & Hd & Hv)].
    + apply earliest_edge_inv in H1
        as [[_ ->]|(Hk & d & ej & ei & Hd & Hej & Hei & ->)]; [now left|].
      rewrite Hsame. rewrite list_lookup_insert_eq by (now apply lookup_lt_Some in Hei).
      destruct (Z.max_spec (ej + d) ei) as [[_ ->]|[_ ->]]; [now left|].
      right. exists (fst e), ej, d. repeat split; try assumption.
      destruct e as [j k]. simpl in *. subst k. left.
    + right. exists a, ea, d. split; [now right|]. split; [|auto].
      apply earliest_edge_inv in H1 as [[_ ->]|(_ & ? & ? & ? & _ & _ & _ & ->)];
        [assumption|].
      rewrite list_lookup_insert_ne in Hea; [assumption|].
      intros <-. now apply (Hne' i).
Qed.

Lemma earliest_outer_attained M p E :
  topologically_numbered E ->
  forall len lo est est',
  for_each (seq lo len) (fun est i => for_each E (Utils.earliest_edge M p i) est) est
    = Ok est' ->
  forall b, (lo <= b < lo + len)%nat ->
    est' !! b = est !! b \/
    exists a ea d, (a, b) ∈ E /\ est' !! a = Some ea /\
                   Utils.min_over_modes p M a = Ok d /\ est' !! b = Some (ea + d).
Proof.
  intros Htopo. induction len as [|len IH]; simpl; intros lo est est' H b Hb; [lia|].
  apply rbind_ok in H as (est1 & H1 & H).
  destruct (earliest_outer_edges M p E Htopo _ _ _ _ H) as (_ & Hframe & _).
  destruct (earliest_inner_frame _ _ _ _ _ _ H1) as (_ & Hframe1 & _).
  assert (forall a, (a, b) ∈ E -> (a < b)%nat) as Hlt.
  { intros a Ha. unfold topologically_numbered in Htopo.
    rewrite Forall_forall in Htopo. apply (Htopo _ Ha). }
  destruct (decide (b = lo)) as [->|Hne].
  - destruct (earliest_inner_attained _ _ _ _ _ _ H1)
      as [Hsame|(a & ea & d & Ha & Hea & Hd & Hv)].
    + intros a Ha. specialize (Hlt a Ha). lia.
    + left. rewrite Hframe by lia. exact Hsame.
    + right. exists a, ea, d. specialize (Hlt a Ha).
      rewrite !Hframe by lia. rewrite Hframe1 by lia. auto.
  - destruct (IH _ _ _ H b) as [Hsame|Hatt]; [lia| |now right].
    left. rewrite Hsame. apply Hframe1. lia.
Qed.

Lemma earliest_attained n T M R E p L r VP est j ej :
  well_formed n M E p -> topologically_numbered E ->
  Utils.get_earliest_start_time n T M R E p L r VP = Ok est ->
  est !! j = Some ej ->
  ej = 0 \/
  exists i ei d, (i, j) ∈ E /\ est !! i = Some ei /\
                 is_min_over_modes p M i d /\ ej = ei + d.
Proof.
  intros WF Htopo Hest Hj.
  pose proof (earliest_shape _ _ _ _ _ _ _ _ _ _ Hest)
    as (Hlen & H0 & _).
  assert (j < n)%nat as Hjn by (rewrite <- Hlen; now apply lookup_lt_Some in Hj).
  destruct (decide (j = 0%nat)) as [->|Hj0].
  { left. rewrite H0 in Hj. now injection Hj. }
  unfold Utils.get_earliest_start_time in Hest.
  apply rbind_ok in Hest as (est0 & Hs & Hest).
  apply setitem_inv in Hs as [_ ->]. unfold range_from in Hest.
  destruct (earliest_outer_attained M p E Htopo _ _ _ _ Hest j)
    as [Hsame|(a & ea & d & Ha & Hea & Hd & Hv)]; [lia| |].
  - left. rewrite Hsame, list_lookup_insert_ne, lookup_replicate_2 in Hj by lia.
    congruence.
  - right. exists a, ea, d.
    pose proof (wf_E _ _ _ _ WF) as HE. rewrite Forall_forall in HE.
    destruct (HE _ Ha) as [Han _]. simpl in Han.
    destruct (min_over_modes_spec WF a Han) as (d' & Hd' & Hmin).
    assert (d' = d) as -> by congruence.
    split; [assumption|]. split; [assumption|]. split; [assumption|].
    rewrite Hv in Hj. now injection Hj.
Qed.

(** The earliest starts are tight: on a well-formed, topologically
    numbered instance each one is 0 or is reached through some
    predecessor, as that predecessor's earliest start plus its least
    duration. *)
Theorem earliest_start_is_attained n T M R E p L r VP est j ej :
  well_formed n M E p -> topologically_numbered E ->
  Utils.get_earliest_start_time n T M R E p L r VP = Ok est ->
  est !! j = Some ej ->
  ej = 0 \/
  exists i ei d, (i, j) ∈ E /\ est !! i = Some ei /\
                 is_min_over_modes p M i d /\ ej = ei + d.
Proof. apply earliest_attained. Qed.

Lemma earliest_start_is_attained_witness :
  3 = 0 \/
  exists i ei d, (i, 2%nat) ∈ chain_E /\ [0; 0; 3] !! i = Some ei /\
                 is_min_over_modes chain_p 1 i d /\ 3 = ei + d.
Proof.
  apply (earliest_start_is_attained 3 3 1 [1] chain_E chain_p [] chain_r [] [0; 0; 3]).
  - constructor; simpl; [lia|lia|reflexivity| |]; repeat constructor.
  - repeat constructor.
  - reflexivity.
  - reflexivity.
Defined.

(** The earliest starts are a valid lower bound, and the least one: any
    non-negative start times that respect every precedence edge under
    some choice of modes start each activity no earlier. *)
Theorem earliest_start_bounds_every_schedule n T M R E p L r VP est (S : nat -> Z) :
  well_formed n M E p -> topologically_numbered E ->
  Utils.get_earliest_start_time n T M R E p L r VP = Ok est ->
  (forall i, 0 <= S i) ->
  (forall i j, (i, j) ∈ E ->
     exists m v, (m < M)%nat /\ duration_is p i m v /\ S i + v <= S j) ->
  forall j ej, est !! j = Some ej -> ej <= S j.
Proof.
  intros WF Htopo Hest Hpos Hprec j.
  induction j as [j IH] using lt_wf_ind. intros ej Hj.
  destruct (earliest_attained _ _ _ _ _ _ _ _ _ _ _ _ WF Htopo Hest Hj)
    as [->|(i & ei & d & Hij & Hi & [_ Hmin] & ->)]; [apply Hpos|].
  assert (i < j)%nat as Hlt.
  { unfold topologically_numbered in Htopo. rewrite Forall_forall in Htopo.
    apply (Htopo _ Hij). }
  specialize (IH i Hlt ei Hi).
  destruct (Hprec i j Hij) as (m & v & Hm & Hv & Hle).
  specialize (Hmin m v Hm Hv). lia.
Qed.

Lemma earliest_start_bounds_every_schedule_witness :
  3 <= (fun i => match i with 0%nat => 1 | 1%nat => 2 | _ => 7 end) 2%nat.
Proof.
  refine (earliest_start_bounds_every_schedule 3 3 1 [1] chain_E chain_p []
            chain_r [] [0; 0; 3]
            (fun i => match i with 0%nat => 1 | 1%nat => 2 | _ => 7 end)
            _ _ _ _ _ 2%nat 3 _).
  - constructor; simpl; [lia|lia|reflexivity| |]; repeat constructor.
  - repeat constructor.
  - reflexivity.
  - intros [|[|i]]; lia.
  - intros i j Hij. unfold chain_E in Hij.
    apply elem_of_cons in Hij as [[= -> ->]|Hij].
    { exists 0%nat, 0. split; [lia|]. split; [exists [0]; split; reflexivity|lia]. }
    apply elem_of_cons in Hij as [[= -> ->]|Hij]; [|inversion Hij].
    exists 0%nat, 3. split; [lia|]. split; [exists [3]; split; reflexivity|lia].
  - reflexivity.
Defined.

(** With no modes, the first edge the sweep meets makes [min] raise. *)
Lemma earliest_inner_no_modes p i El : forall est,
  (exists a, (a, i) ∈ El) ->
  for_each El (Utils.earliest_edge 0 p i) est = Raise ValueError.
Proof.
  induction El as [|[j k] El IH]; simpl; intros est [a Ha]; [inversion Ha|].
  destruct (Nat.eqb_spec k i) as [->|Hk]; [reflexivity|]. simpl.
  apply IH. apply elem_of_cons in Ha as [[= _ <-]|Ha]; [contradiction|eauto].
Qed.

(** With [M = 0], as soon as some edge enters an activity other than the
    source, [get_earliest_start_time] raises ValueError (the minimum over
    an empty range of modes), whatever the duration table holds. *)
Theorem earliest_start_needs_a_mode n T R E p L r VP a k :
  (a, k) ∈ E -> (1 <= k < n)%nat ->
  Utils.get_earliest_start_time n T 0 R E p L r VP = Raise ValueError.
Proof.
  intros Hak Hk. unfold Utils.get_earliest_start_time.
  rewrite setitem_ok by (rewrite length_replicate; lia). simpl.
  assert (forall is_ est, k ∈ is_ ->
    for_each is_ (fun est i => for_each E (Utils.earliest_edge 0 p i) est) est
    = Raise ValueError) as Hloop.
  { induction is_ as [|i is_ IH]; intros est Hin; [inversion Hin|]. simpl.
    destruct (decide (Exists (fun e => snd e = i) E)) as [Hex|Hno].
    - apply Exists_exists in Hex as ([a' k'] & Hin' & Hk'). simpl in Hk'. subst k'.
      rewrite earliest_inner_no_modes by eauto. reflexivity.
    - rewrite earliest_inner_no_edge.
      + simpl. apply IH. apply elem_of_cons in Hin as [->|Hin]; [|assumption].
        exfalso. apply Hno, Exists_exists. exists (a, i). auto.
      + intros a' Ha'. apply Hno, Exists_exists. exists (a', i). auto. }
  apply Hloop, elem_of_range_from. lia.
Qed.

Lemma earliest_start_needs_a_mode_witness :
  Utils.get_earliest_start_time 3 3 0 [1] chain_E [[]; []; []] [] chain_r []
  = Raise ValueError.
Proof.
  apply (earliest_start_needs_a_mode 3 3 [1] chain_E [[]; []; []] [] chain_r []
           0%nat 1%nat).
  - left.
  - lia.
Defined.

(** ** utils.py: the backward sweep *)

Lemma latest_edge_floor M p i est e est' :
  Utils.latest_edge M p i est e = Ok est' ->
  Forall (fun v => -1 <= v) est -> Forall (fun v => -1 <= v) est'.
Proof.
  destruct e as [k j]. unfold Utils.latest_edge.
  destruct (k =? i)%nat; [|now intros [= <-]].
  intros H Hfl.
  apply rbind_ok in H as (d & _ & H).
  apply rbind_ok in H as (ej & _ & H).
  apply rbind_ok in H as (ei & Hei%getitem_ok & H).
  apply setitem_inv in H as [_ ->].
  apply Forall_insert; [assumption|].
  rewrite Forall_lookup in Hfl. specialize (Hfl _ _ Hei). simpl in Hfl. lia.
Qed.

Lemma latest_outer_floor M p E is_ : forall est est',
  for_each is_ (fun est i => for_each E (Utils.latest_edge M p i) est) est = Ok est' ->
  Forall (fun v => -1 <= v) est -> Forall (fun v => -1 <= v) est'.
Proof.
  assert (forall i El est est',
    for_each El (Utils.latest_edge M p i) est = Ok est' ->
    Forall (fun v => -1 <= v) est -> Forall (fun v => -1 <= v) est') as Hinner.
  { intros i. induction El as [|e El IH]; simpl; intros est est' H Hfl.
    - now injection H as <-.
    - apply rbind_ok in H as (est1 & H1 & H). apply (IH _ _ H).
      eapply latest_edge_floor; eassumption. }
  induction is_ as [|i is_ IH]; simpl; intros est est' H Hfl.
  - now injection H as <-.
  - apply rbind_ok in H as (est1 & H1 & H). apply (IH _ _ H).
    eapply Hinner; eassumption.
Qed.

(** What [get_latest_start_time] hands back, on any instance on which it
    returns: [n] entries, none below the initial -1; and with at least
    two activities the last entry, the sink's, is that -1, because the
    backward loop stops before index 0 and the final [reverse] moves
    index 0 to the end. *)
Theorem latest_start_values n T M R E p L r VP lst :
  Utils.get_latest_start_time n T M R E p L r VP = Ok lst ->
  length lst = n /\ Forall (fun v => -1 <= v) lst /\
  ((2 <= n)%nat -> lst !! (n - 1)%nat = Some (-1)).
Proof.
  intros H. split; [|split].
  - unfold Utils.get_latest_start_time in H.
    apply rbind_ok in H as (est0 & H0 & H).
    apply setitem_inv in H0 as [_ ->].
    apply rbind_ok in H as (est' & H & [= <-]).
    rewrite length_reverse.
    assert (forall is_ est1 est2,
      for_each is_ (fun est i => for_each E (Utils.latest_edge M p i) est) est1 = Ok est2 ->
      length est2 = length est1) as Hlen.
    { induction is_ as [|i is_ IH]; simpl; intros est1 est2 H12.
      - now injection H12 as <-.
      - apply rbind_ok in H12 as (est3 & H13 & H32). rewrite (IH _ _ H32).
        now apply latest_inner_frame in H13 as [-> _]. }
    rewrite (Hlen _ _ _ H). now rewrite length_insert, length_replicate.
  - unfold Utils.get_latest_start_time in H.
    apply rbind_ok in H as (est0 & H0 & H).
    apply setitem_inv in H0 as [_ ->].
    apply rbind_ok in H as (est' & H & [= <-]).
    apply Forall_reverse. apply (latest_outer_floor _ _ _ _ _ _ H).
    apply Forall_insert; [|lia]. apply Forall_replicate. lia.
  - intros Hn. now apply (latest_start_of_sink n T M R E p L r VP).
Qed.

Lemma latest_start_values_witness :
  length [0; 1; -1] = 3%nat /\ Forall (fun v => -1 <= v) [0; 1; -1] /\
  ((2 <= 3)%nat -> [0; 1; -1] !! (3 - 1)%nat = Some (-1)).
Proof.
  apply (latest_start_values 3 4 1 [] cyclic_E cyclic_p [] cyclic_r []).
  reflexivity.
Defined.

(** ** The normalisation prelude: degenerate and repeated use *)

Lemma gcd_all_zero xs : (forall x, x ∈ xs -> x = 0) -> gcd_all xs = 0.
Proof.
  induction xs as [|x xs IH]; intros H; simpl; [reflexivity|].
  rewrite (H x) by left. rewrite IH by (intros; apply H; now right). reflexivity.
Qed.

Lemma pfor_same_store {A} (body : A -> prog unit) (e : exn) (h : heap) xs :
  (forall x, x ∈ xs -> body x h = (Ok tt, h) \/ body x h = (Raise e, h)) ->
  pfor xs body h = (Ok tt, h) \/ pfor xs body h = (Raise e, h).
Proof.
  induction xs as [|x xs IH]; intros H; simpl; [now left|].
  unfold pbind. destruct (H x) as [-> | ->]; [left| |now right].
  apply IH. intros; apply H. now right.
Qed.

Lemma rescale_row_by_zero p (h : heap) tbl i :
  h !! p = Some tbl -> (i < length tbl)%nat ->
  rescale_row p 0 i h = (Ok tt, h) \/
  rescale_row p 0 i h = (Raise ZeroDivisionError, h).
Proof.
  intros Hp Hi. destruct (lookup_lt_is_Some_2 tbl i Hi) as [row Hrow].
  apply getitem_ok in Hrow as Hg.
  assert (rescale_row p 0 i h = pfor (range (length row)) (rescale_cell p 0 i) h)
    as -> by (unfold rescale_row, pbind, load, lift; now rewrite Hp, Hg).
  apply pfor_same_store. intros j Hj%elem_of_range. right.
  destruct (lookup_lt_is_Some_2 row j Hj) as [v Hv].
  unfold rescale_cell, pbind, load, lift. rewrite Hp, Hg.
  apply getitem_ok in Hv as ->. reflexivity.
Qed.

(** A zero divisor stops the prelude with ZeroDivisionError before
    anything has been written. *)
Lemma normalize_by_zero p T (h : heap) tbl :
  h !! p = Some tbl -> compute_divisor tbl T = 0 ->
  normalize p T h = (Raise ZeroDivisionError, h).
Proof.
  intros Hp Hd.
  destruct (pfor_same_store (rescale_row p 0) ZeroDivisionError h
              (range (length tbl))) as [Hl|Hl].
  - intros i Hi%elem_of_range. now apply (rescale_row_by_zero p h tbl).
  - unfold normalize, pbind, load. rewrite Hp, Hd, Hl.
    unfold lift, floordiv. reflexivity.
  - unfold normalize, pbind, load. now rewrite Hp, Hd, Hl.
Qed.

(** When the horizon and every duration are zero the gcd is zero, and
    every builder stops in its prelude with ZeroDivisionError, before it
    has written anything. *)
Theorem all_zero_instance_divides_by_zero enc n M R E p L r VP (h : heap) tbl :
  h !! p = Some tbl ->
  Forall (Forall (fun v => v = 0)) tbl ->
  builder_of enc n 0 M R E p L r VP h = (Raise ZeroDivisionError, h).
Proof.
  intros Hp Hzero.
  assert (compute_divisor tbl 0 = 0) as Hd.
  { apply gcd_all_zero. intros x [->|(row & Hrow & Hx)]%elem_of_unique_times;
      [reflexivity|].
    rewrite Forall_forall in Hzero. specialize (Hzero _ Hrow).
    rewrite Forall_forall in Hzero. exact (Hzero _ Hx). }
  pose proof (normalize_by_zero p 0 h tbl Hp Hd) as Hn.
  destruct enc; simpl;
    unfold pulse_model, pulse_model_disaggregated, step_model,
      step_model_disaggregated, onoff_model, onoff_pulse_model,
      onoff_pulse_model_disaggregated, continuous_model;
    unfold pbind at 1; now rewrite Hn.
Qed.

Lemma all_zero_instance_divides_by_zero_witness :
  builder_of OODDT 3%nat 0 1%nat [1] chain_E 1%positive [] chain_r []
    {[ 1%positive := [[0]; [0]; [0]] ]}
  = (Raise ZeroDivisionError, {[ 1%positive := [[0]; [0]; [0]] ]}).
Proof.
  apply (all_zero_instance_divides_by_zero OODDT 3%nat 1%nat [1] chain_E
           1%positive [] chain_r [] _ [[0]; [0]; [0]]).
  - reflexivity.
  - repeat constructor.
Defined.

Lemma divisor_greatest tbl T c :
  (c | T) -> Forall (Forall (fun v => (c | v))) tbl ->
  (c | compute_divisor tbl T).
Proof.
  intros HT Htbl. apply gcd_all_greatest.
  intros x [->|(row & Hrow & Hx)]%elem_of_unique_times; [assumption|].
  rewrite Forall_forall in Htbl. specialize (Htbl _ Hrow).
  rewrite Forall_forall in Htbl. exact (Htbl _ Hx).
Qed.

(** The divisor is the greatest common divisor in the full sense: every
    common divisor of the horizon and of all durations divides it. *)
Theorem divisor_is_greatest tbl T c :
  (c | T) -> Forall (Forall (fun v => (c | v))) tbl ->
  (c | compute_divisor tbl T).
Proof. apply divisor_greatest. Qed.

Lemma divisor_is_greatest_witness : (2 | compute_divisor [[0]; [4]; [0]] 6).
Proof.
  apply divisor_is_greatest.
  - exists 3. reflexivity.
  - constructor; [constructor; [exists 0; reflexivity|constructor]|].
    constructor; [constructor; [exists 2; reflexivity|constructor]|].
    constructor; [constructor; [exists 0; reflexivity|constructor]|constructor].
Defined.

(** Rescaling leaves nothing to rescale: the horizon and durations a
    builder works with have greatest common divisor 1. *)
Theorem rescaled_instance_is_reduced tbl T :
  compute_divisor tbl T <> 0 ->
  compute_divisor (rescaled (compute_divisor tbl T) tbl) (T / compute_divisor tbl T) = 1.
Proof.
  intros Hd. set (d := compute_divisor tbl T) in *.
  set (g := compute_divisor (rescaled d tbl) (T / d)).
  assert (0 <= g) as Hg by apply gcd_all_nonneg.
  assert ((g * d | d)) as Hdiv.
  { apply divisor_greatest.
    - destruct (divisor_divides_horizon (rescaled d tbl) (T / d)) as [q Hq].
      fold g in Hq. exists q.
      rewrite <- (exact_division d T Hd (divisor_divides_horizon tbl T)).
      rewrite Hq. ring.
    - apply Forall_forall. intros row Hrow. apply Forall_forall. intros v Hv.
      assert ((g | v / d)) as [q Hq].
      { apply (divisor_divides_entry (rescaled d tbl) (T / d)
                 (map (fun v => v / d) row)).
        - unfold rescaled.
          apply list_elem_of_In, (in_map (map (fun v => v / d))).
          now apply list_elem_of_In.
        - apply list_elem_of_In, (in_map (fun v => v / d)).
          now apply list_elem_of_In. }
      exists q.
      rewrite <- (exact_division d v Hd (divisor_divides_entry tbl T row v Hrow Hv)).
      rewrite Hq. ring. }
  destruct Hdiv as [q Hq].
  assert (q * g = 1) as Hone.
  { apply (Z.mul_reg_r _ _ d Hd). rewrite <- Z.mul_assoc, <- Hq. lia. }
  rewrite Z.mul_comm in Hone. apply Z.eq_mul_1 in Hone.
  subst g. lia.
Qed.

Lemma rescaled_instance_is_reduced_witness :
  compute_divisor (rescaled (compute_divisor [[0]; [4]; [0]] 6) [[0]; [4]; [0]])
                  (6 / compute_divisor [[0]; [4]; [0]] 6) = 1.
Proof.
  apply rescaled_instance_is_reduced. vm_compute. discriminate.
Defined.

Lemma lookup_map_Some {A B} (f : A -> B) (l : list A) : forall i x,
  l !! i = Some x -> map f l !! i = Some (f x).
Proof.
  induction l as [|y l IH]; intros [|i] x H; simpl in *; try discriminate.
  - now injection H as ->.
  - now apply IH.
Qed.

(** Rescaling keeps the shape of the table and the sign of every
    duration: a zero stays zero, and a positive duration stays positive
    (it is never rounded down to the zero-duration special case). *)
Theorem rescaling_keeps_shape_and_sign tbl T i m v :
  0 < compute_divisor tbl T ->
  duration_is tbl i m v ->
  duration_is (rescaled (compute_divisor tbl T) tbl) i m (v / compute_divisor tbl T) /\
  (v = 0 -> v / compute_divisor tbl T = 0) /\
  (0 < v -> 1 <= v / compute_divisor tbl T) /\
  length (rescaled (compute_divisor tbl T) tbl) = length tbl.
Proof.
  intros Hd (row & Hrow & Hv). set (d := compute_divisor tbl T) in *.
  assert ((d | v)) as Hdiv.
  { apply (divisor_divides_entry tbl T row v).
    - apply list_elem_of_lookup. eauto.
    - apply list_elem_of_lookup. eauto. }
  split; [|split; [|split]].
  - exists (map (fun v => v / d) row). unfold rescaled. split.
    + now apply (lookup_map_Some (map (fun v => v / d))).
    + now apply (lookup_map_Some (fun v => v / d)).
  - intros ->. apply Z.div_0_l. lia.
  - intros Hpos. pose proof (exact_division d v ltac:(lia) Hdiv). nia.
  - unfold rescaled. apply length_map.
Qed.

Lemma rescaling_keeps_shape_and_sign_witness :
  duration_is (rescaled (compute_divisor [[0]; [4]; [0]] 6) [[0]; [4]; [0]])
              1 0 (4 / compute_divisor [[0]; [4]; [0]] 6) /\
  (4 = 0 -> 4 / compute_divisor [[0]; [4]; [0]] 6 = 0) /\
  (0 < 4 -> 1 <= 4 / compute_divisor [[0]; [4]; [0]] 6) /\
  length (rescaled (compute_divisor [[0]; [4]; [0]] 6) [[0]; [4]; [0]])
  = length [[0]; [4]; [0]].
Proof.
  apply rescaling_keeps_shape_and_sign.
  - vm_compute. reflexivity.
  - exists [4]. split; reflexivity.
Defined.

(** ** What a builder run amounts to *)

Lemma builder_shape_run (build : Z -> list (list Z) -> result model) p T (h : heap) :
  (nt <~ normalize p T ;;
   let '(T, divisor) := nt in
   tbl <~ load p ;;
   model <~ lift (build T tbl) ;;
   pret (model, divisor)) h
  = match h !! p with
    | None => (Raise TypeError, h)
    | Some tbl =>
        let d := compute_divisor tbl T in
        if d =? 0 then (Raise ZeroDivisionError, h)
        else (match build (T / d) (rescaled d tbl) with
              | Ok m => Ok (m, d)
              | Raise e => Raise e
              end, <[p := rescaled d tbl]> h)
    end.
Proof.
  destruct (h !! p) as [tbl|] eqn:Hp.
  - cbv zeta. destruct (Z.eqb_spec (compute_divisor tbl T) 0) as [Hz|Hnz].
    + unfold pbind at 1. now rewrite (normalize_by_zero p T h tbl Hp Hz).
    + unfold pbind at 1. rewrite (normalize_spec p T h tbl Hp Hnz).
      unfold pbind, load, lift, pret. rewrite lookup_insert_eq.
      now destruct (build _ _).
  - unfold pbind at 1, normalize, pbind at 1, load. now rewrite Hp.
Qed.

(** A builder run in closed form.  Without a table it raises TypeError;
    with a zero gcd it raises ZeroDivisionError; in both cases the store
    is untouched.  Otherwise the table is rescaled in full, and the
    outcome is the model together with the divisor, or whatever the body
    raised, the table staying rescaled either way. *)
Lemma builder_run enc n T M R E p L r VP (h : heap) :
  builder_of enc n T M R E p L r VP h
  = match h !! p with
    | None => (Raise TypeError, h)
    | Some tbl =>
        let d := compute_divisor tbl T in
        if d =? 0 then (Raise ZeroDivisionError, h)
        else (match build_of enc n (T / d) M R E (rescaled d tbl) L r VP with
              | Ok m => Ok (m, d)
              | Raise e => Raise e
              end, <[p := rescaled d tbl]> h)
    end.
Proof.
  destruct enc; simpl;
    [ apply (builder_shape_run (fun T tbl => Pulse.build false n T M R E tbl L r VP))
    | apply (builder_shape_run (fun T tbl => Pulse.build true n T M R E tbl L r VP))
    | apply (builder_shape_run (fun T tbl => Step.build false n T M R E tbl L r VP))
    | apply (builder_shape_run (fun T tbl => Step.build true n T M R E tbl L r VP))
    | apply (builder_shape_run (fun T tbl => OnOff.build n T M R E tbl L r VP))
    | apply (builder_shape_run (fun T tbl => OnOffPulse.build false n T M R E tbl L r VP))
    | apply (builder_shape_run (fun T tbl => OnOffPulse.build true n T M R E tbl L r VP))
    | apply (builder_shape_run (fun T tbl => Continuous.build n T M R E VP tbl L r)) ].
Qed.

(** Whatever the outcome, a builder writes nowhere but to the table it
    was handed. *)
Theorem builder_writes_only_its_table enc n T M R E p L r VP (h : heap) l :
  l <> p ->
  snd (builder_of enc n T M R E p L r VP h) !! l = h !! l.
Proof.
  intros Hl. rewrite builder_run. destruct (h !! p) as [tbl|]; [|reflexivity].
  cbv zeta. destruct (_ =? 0); [reflexivity|]. simpl.
  apply lookup_insert_ne. auto.
Qed.

Lemma builder_writes_only_its_table_witness :
  snd (builder_of SDT 3%nat 3 1%nat [1] chain_E 1%positive [] chain_r []
         (<[2%positive := [[7]]]> {[ 1%positive := chain_p ]})) !! 2%positive
  = (<[2%positive := [[7]]]> {[ 1%positive := chain_p ]} : heap) !! 2%positive.
Proof.
  apply (builder_writes_only_its_table SDT 3%nat 3 1%nat [1] chain_E 1%positive
           [] chain_r []).
  discriminate.
Defined.

(** With no activity at all, every builder raises IndexError out of the
    bound estimator, after the prelude has already rescaled the table. *)
Theorem empty_instance_raises_after_rescaling enc T M R E p L r VP (h : heap) tbl :
  h !! p = Some tbl -> compute_divisor tbl T <> 0 ->
  builder_of enc 0%nat T M R E p L r VP h
  = (Raise IndexError, <[p := rescaled (compute_divisor tbl T) tbl]> h).
Proof.
  intros Hp Hd. rewrite builder_run, Hp. cbv zeta.
  destruct (Z.eqb_spec (compute_divisor tbl T) 0); [contradiction|].
  now destruct enc.
Qed.

Lemma empty_instance_raises_after_rescaling_witness :
  builder_of MSEQCT 0%nat 6 1%nat [1] [] 1%positive [] [] []
    {[ 1%positive := [[4]] ]}
  = (Raise IndexError,
     <[1%positive := rescaled (compute_divisor [[4]] 6) [[4]]]>
       {[ 1%positive := [[4]] ]}).
Proof.
  apply (empty_instance_raises_after_rescaling MSEQCT 6 1%nat [1] [] 1%positive
           [] [] [] _ [[4]]).
  - reflexivity.
  - vm_compute. discriminate.
Defined.

(** Nothing is rolled back: when the body of a builder raises, below a
    prelude that went through, the caller's table is left rescaled. *)
Theorem failed_build_leaves_table_rescaled enc n T M R E p L r VP (h : heap) tbl e h' :
  h !! p = Some tbl -> compute_divisor tbl T <> 0 ->
  builder_of enc n T M R E p L r VP h = (Raise e, h') ->
  h' = <[p := rescaled (compute_divisor tbl T) tbl]> h /\
  build_of enc n (T / compute_divisor tbl T) M R E
           (rescaled (compute_divisor tbl T) tbl) L r VP = Raise e.
Proof.
  intros Hp Hd. rewrite builder_run, Hp. cbv zeta.
  destruct (Z.eqb_spec (compute_divisor tbl T) 0); [contradiction|].
  destruct (build_of _ _ _ _ _ _ _ _ _ _); [discriminate|].
  intros [= -> <-]. auto.
Qed.

Lemma failed_build_leaves_table_rescaled_witness :
  (<[1%positive := [[0]; [4]; [0]]]> ∅ : heap) !! 1%positive = Some [[0]; [4]; [0]] /\
  (<[1%positive := [[0]; [2]; [0]]]> (<[1%positive := [[0]; [4]; [0]]]> ∅) : heap)
  = <[1%positive := rescaled (compute_divisor [[0]; [4]; [0]] 2) [[0]; [4]; [0]]]>
      (<[1%positive := [[0]; [4]; [0]]]> ∅) /\
  build_of PDT 3 (2 / compute_divisor [[0]; [4]; [0]] 2) 1 [1] chain_E
           (rescaled (compute_divisor [[0]; [4]; [0]] 2) [[0]; [4]; [0]]) [] chain_r []
  = Raise KeyError.
Proof.
  split; [reflexivity|].
  apply (failed_build_leaves_table_rescaled PDT 3 2 1 [1] chain_E 1%positive []
           chain_r [] (<[1%positive := [[0]; [4]; [0]]]> ∅) [[0]; [4]; [0]]).
  - reflexivity.
  - vm_compute. discriminate.
  - vm_compute. reflexivity.
Defined.

(** ** What a returned model says about the instance *)

Lemma imt_key_inv n M T i m t :
  key3 i m t ∈ imt_sets n M T -> (i < n)%nat /\ (m < M)%nat /\ 0 <= t < T.
Proof.
  unfold imt_sets. intros (i' & Hi%elem_of_range & H)%elem_of_flat_map.
  apply elem_of_flat_map in H as (m' & Hm%elem_of_range & H).
  apply list_elem_of_fmap in H as (t' & Hk & Ht%elem_of_zrange).
  unfold key3 in Hk. injection Hk as Hi' Hm' ->.
  apply Nat2Z.inj in Hi', Hm'. subst. auto.
Qed.

(** The family [(v[i, m, t] == 0 ... for t in range(est[i]))] can only be
    written when no earliest start lies beyond the last declared slot. *)
Lemma zero_slots_need_horizon n M T name est cs :
  Pulse.zero_time_slots n M (addVars (imt_sets n M T) BINARY name) est = Ok cs ->
  (1 <= M)%nat -> length est = n ->
  Forall (fun e => e <= Z.max 0 T) est.
Proof.
  unfold Pulse.zero_time_slots. intros H HM Hlen.
  apply Forall_lookup. intros i e He.
  assert (i < n)%nat as Hi by (rewrite <- Hlen; eapply lookup_lt_Some; eassumption).
  destruct (comp_flat_elem _ _ _ i H) as (ys & Hys & _); [now apply elem_of_range|].
  destruct (comp_flat_elem _ _ _ 0%nat Hys) as (zs & Hzs & _);
    [apply elem_of_range; lia|].
  apply rbind_ok in Hzs as (e' & He'%getitem_ok & Hzs).
  assert (e' = e) as -> by congruence.
  destruct (Z_lt_le_dec e 1) as [|Hpos]; [lia|].
  destruct (comp_elem _ _ _ (e - 1) Hzs) as (c & Hc & _);
    [apply elem_of_zrange; lia|].
  apply rbind_ok in Hc as (v & Hv%td_get_inv & _).
  destruct Hv as [_ Hk]. simpl in Hk.
  apply imt_key_inv in Hk. lia.
Qed.

Lemma discrete_build_fits_horizon enc n T M R E p L r VP m :
  discrete enc -> (1 <= M)%nat ->
  build_of enc n T M R E p L r VP = Ok m ->
  exists est, Utils.get_earliest_start_time n T M R E p L r VP = Ok est /\
              Forall (fun e => e <= Z.max 0 T) est.
Proof.
  intros Hd HM H.
  destruct enc; simpl in H; try (exfalso; now apply Hd);
    [ unfold Pulse.build in H | unfold Pulse.build in H
    | unfold Step.build in H | unfold Step.build in H
    | unfold OnOff.build in H
    | unfold OnOffPulse.build in H | unfold OnOffPulse.build in H ];
    apply rbind_ok in H as (est & Hest & H);
    apply rbind_ok in H as (lst & _ & H); cbv zeta in H;
    exists est; (split; [exact Hest|]);
    destruct (earliest_nonneg _ _ _ _ _ _ _ _ _ _ Hest) as [Hlen _];
    repeat match type of H with
    | rbind (addConstrs _ (Pulse.zero_time_slots _ _ _ _)) _ = Ok _ =>
        apply rbind_ok in H as (c & (cs & Hc & _)%addConstrs_inv & _);
        exact (zero_slots_need_horizon _ _ _ _ _ _ Hc HM Hlen)
    | rbind (addConstrs _ (Step.earliest_start_times _ _ _ _)) _ = Ok _ =>
        apply rbind_ok in H as (c & (cs & Hc & _)%addConstrs_inv & _);
        exact (zero_slots_need_horizon _ _ _ _ _ _ Hc HM Hlen)
    | rbind (addConstrs _ (OnOff.zero_time_slots _ _ _ _)) _ = Ok _ =>
        apply rbind_ok in H as (c & (cs & Hc & _)%addConstrs_inv & _);
        exact (zero_slots_need_horizon _ _ _ _ _ _ Hc HM Hlen)
    | rbind _ _ = Ok _ => apply rbind_ok in H as (? & _ & H)
    end.
Qed.

(** A time-indexed builder that returns has found no earliest start
    beyond the rescaled horizon: an instance whose critical path is
    longer than the horizon is never turned into a model (its zero-slot
    family would index a slot that was never declared). *)
Theorem returned_model_fits_horizon enc n T M R E p L r VP (h : heap) md h' :
  discrete enc -> (1 <= M)%nat ->
  builder_of enc n T M R E p L r VP h = (Ok md, h') ->
  exists tbl est,
    h' !! p = Some tbl /\
    Utils.get_earliest_start_time n (T / snd md) M R E tbl L r VP = Ok est /\
    Forall (fun e => e <= Z.max 0 (T / snd md)) est.
Proof.
  intros Hd HM H. rewrite builder_run in H.
  destruct (h !! p) as [tbl|]; [|discriminate]. cbv zeta in H.
  destruct (_ =? 0); [discriminate|].
  destruct (build_of _ _ _ _ _ _ _ _ _ _) as [m|] eqn:Hb; [|discriminate].
  injection H as <- <-. simpl.
  destruct (discrete_build_fits_horizon _ _ _ _ _ _ _ _ _ _ _ Hd HM Hb)
    as (est & Hest & Hfit).
  exists (rescaled (compute_divisor tbl T) tbl), est.
  rewrite lookup_insert_eq. auto.
Qed.

Lemma returned_model_fits_horizon_witness :
  exists md h',
    builder_of SDDT 3%nat 6 1%nat [1] chain_E 1%positive [] chain_r []
      {[ 1%positive := [[0]; [4]; [0]] ]} = (Ok md, h') /\
    exists tbl est,
      h' !! 1%positive = Some tbl /\
      Utils.get_earliest_start_time 3 (6 / snd md) 1 [1] chain_E tbl [] chain_r []
        = Ok est /\
      Forall (fun e => e <= Z.max 0 (6 / snd md)) est.
Proof.
  eexists _, _. split; [vm_compute; reflexivity|].
  apply (returned_model_fits_horizon SDDT 3%nat 6 1%nat [1] chain_E 1%positive []
           chain_r [] {[ 1%positive := [[0]; [4]; [0]] ]}).
  - discriminate.
  - lia.
  - vm_compute. reflexivity.
Defined.

(** ** The variables a model declares *)

Lemma length_flat_map_const {A B} (f : A -> list B) k xs :
  (forall x, length (f x) = k) -> length (flat_map f xs) = (length xs * k)%nat.
Proof.
  intros Hf. induction xs as [|x xs IH]; simpl; [reflexivity|].
  rewrite length_app, Hf, IH. reflexivity.
Qed.

Lemma length_range n : length (range n) = n.
Proof. apply length_seq. Qed.

Lemma length_zrange lo hi : length (zrange lo hi) = Z.to_nat (hi - lo).
Proof. unfold zrange. now rewrite length_map, length_seq. Qed.

Lemma length_imt_sets n M T :
  length (imt_sets n M T) = (n * M * Z.to_nat T)%nat.
Proof.
  unfold imt_sets.
  rewrite (length_flat_map_const _ (M * Z.to_nat T)%nat), length_range; [lia|].
  intros i. rewrite (length_flat_map_const _ (Z.to_nat T)), length_range; [lia|].
  intros m. now rewrite length_map, length_zrange, Z.sub_0_r.
Qed.

Lemma length_pair_sets n : length (Continuous.pair_sets n) = (n * n)%nat.
Proof.
  unfold Continuous.pair_sets.
  rewrite (length_flat_map_const _ n), length_range; [lia|].
  intros i. now rewrite length_map, length_range.
Qed.

Lemma length_td_vars keys vt name :
  length (td_vars (addVars keys vt name)) = length keys.
Proof. unfold td_vars. now rewrite length_map. Qed.

Lemma binary_td_vars keys name :
  forallb (fun vt : var * vtype =>
             match snd vt with BINARY => true | CONTINUOUS => false end)
          (td_vars (addVars keys BINARY name)) = true.
Proof.
  unfold td_vars. simpl. induction keys as [|k keys IH]; simpl; auto.
Qed.

Ltac open_build H :=
  repeat match type of H with
  | rbind _ _ = Ok _ => apply rbind_ok in H as (? & _ & H); cbv zeta in H
  | (if ?b then _ else _) = Ok _ => destruct b
  end.

Lemma build_declares enc n T M R E p L r VP m :
  build_of enc n T M R E p L r VP = Ok m ->
  length (m_vars m) = variable_count enc n M (length R) (Z.to_nat T) /\
  (discrete enc -> all_binary m = true).
Proof.
  intros H.
  destruct enc; simpl in H;
    [ unfold Pulse.build in H | unfold Pulse.build in H
    | unfold Step.build in H | unfold Step.build in H
    | unfold OnOff.build in H
    | unfold OnOffPulse.build in H | unfold OnOffPulse.build in H
    | unfold Continuous.build in H ];
    open_build H; injection H as <-; unfold all_binary; simpl m_vars;
    (split; [|intros Hd]);
    rewrite ?length_app, ?forallb_app, ?length_td_vars, ?binary_td_vars,
            ?length_imt_sets, ?length_pair_sets, ?length_map, ?length_zrange,
            ?length_range, ?Z.sub_0_r;
    try reflexivity; try (exfalso; now apply Hd).
  simpl. rewrite (length_flat_map_const _ M), length_range.
  - rewrite (length_flat_map_const _ (n * length R)%nat), length_range; [lia|].
    intros i. rewrite (length_flat_map_const _ (length R)), length_range; [lia|].
    intros j. now rewrite length_map, length_range.
  - intros i. now rewrite length_map, length_range.
Qed.

(** Every returned model declares the number of variables its encoding
    prescribes for the rescaled horizon [T // divisor]: one per activity,
    mode and slot for the pulse and the on-off encoding, the same and
    one per slot more for the step encoding, twice as many for the
    combined one; the continuous encoding needs none per slot.  The
    time-indexed models are all-binary. *)
Theorem declared_variables enc n T M R E p L r VP (h : heap) md h' :
  builder_of enc n T M R E p L r VP h = (Ok md, h') ->
  length (m_vars (fst md))
  = variable_count enc n M (length R) (Z.to_nat (T / snd md)) /\
  (discrete enc -> all_binary (fst md) = true).
Proof.
  intros H. rewrite builder_run in H.
  destruct (h !! p) as [tbl|]; [|discriminate]. cbv zeta in H.
  destruct (_ =? 0); [discriminate|].
  destruct (build_of _ _ _ _ _ _ _ _ _ _) as [m|] eqn:Hb; [|discriminate].
  injection H as <- <-. simpl. exact (build_declares _ _ _ _ _ _ _ _ _ _ _ Hb).
Qed.

Lemma declared_variables_witness :
  exists md h',
    builder_of SDT 3%nat 6 1%nat [1] chain_E 1%positive [] chain_r []
      {[ 1%positive := [[0]; [4]; [0]] ]} = (Ok md, h') /\
    length (m_vars (fst md))
    = variable_count SDT 3 1 (length [1]) (Z.to_nat (6 / snd md)) /\
    (discrete SDT -> all_binary (fst md) = true).
Proof.
  eexists _, _. split; [vm_compute; reflexivity|].
  eapply (declared_variables SDT 3%nat 6 1%nat [1] chain_E 1%positive []
           chain_r [] {[ 1%positive := [[0]; [4]; [0]] ]}).
  vm_compute. reflexivity.
Defined.

(** ** The precedence families *)

Lemma comp_length {A B} (f : A -> result B) xs ys :
  comp f xs = Ok ys -> length ys = length xs.
Proof. intros H%comp_ok_inv. symmetry. eapply Forall2_length. exact H. Qed.

Lemma comp_flat_length {A B} (f : A -> result (list B)) k xs zs :
  (forall x ys, f x = Ok ys -> length ys = k) ->
  comp_flat f xs = Ok zs -> length zs = (length xs * k)%nat.
Proof.
  unfold comp_flat. intros Hf (yss & Hc%comp_ok_inv & [= <-])%rbind_ok.
  induction Hc as [|x ys xs yss Hxy _ IH]; simpl; [reflexivity|].
  rewrite length_app, (Hf _ _ Hxy), IH. reflexivity.
Qed.

Local Abbreviation named name ncs :=
  (map snd (filter (fun nc : string * constr => fst nc = name) ncs)).

Lemma named_app name a b : named name (a ++ b) = named name a ++ named name b.
Proof. now rewrite filter_app, map_app. Qed.

Lemma named_same name cs : named name (map (pair name) cs) = cs.
Proof.
  induction cs as [|c cs IH]; simpl; [reflexivity|].
  rewrite filter_cons_True by reflexivity. simpl. now rewrite IH.
Qed.

Lemma named_other name name' cs :
  name' <> name -> named name (map (pair name') cs) = [].
Proof.
  intros Hne. induction cs as [|c cs IH]; simpl; [reflexivity|].
  rewrite filter_cons_False by exact Hne. exact IH.
Qed.

Lemma named_cons_other name name' c l :
  name' <> name -> named name ((name', c) :: l) = named name l.
Proof. intros Hne. now rewrite filter_cons_False by exact Hne. Qed.

(** Peel a builder body, keeping what every family was made from. *)
Ltac open_families H :=
  repeat match type of H with
  | rbind (addConstrs _ _) _ = Ok _ =>
      let Hc := fresh "Hc" in
      apply rbind_ok in H as (? & (? & Hc & ->)%addConstrs_inv & H)
  | rbind (rbind _ (fun c => Ok [(_, c)])) _ = Ok _ =>
      let Hc := fresh "Hs" in
      apply rbind_ok in H as (? & (? & Hc & [= <-])%rbind_ok & H)
  | rbind _ _ = Ok _ => apply rbind_ok in H as (? & _ & H); cbv zeta in H
  end.

Ltac count_named :=
  repeat first [ rewrite named_cons_other by discriminate | rewrite named_app ];
  repeat first
    [ rewrite named_same
    | rewrite named_other by discriminate
    | rewrite named_cons_other by discriminate ];
  rewrite ?app_nil_l, ?app_nil_r, ?length_app.

Ltac by_comp :=
  match goal with
  | H : _ = Ok ?cs |- length ?cs = _ => exact (comp_length _ _ _ H)
  end.

Ltac by_comp_flat :=
  match goal with
  | H : _ = Ok ?cs |- length ?cs = _ =>
      first [ unfold Pulse.precedence_disaggregated in H
            | unfold Step.precedence_disaggregated in H
            | unfold OnOff.precedence in H ];
      eapply comp_flat_length; [|exact H]
  end.

Lemma build_precedence_rows enc n T M R E p L r VP m :
  build_of enc n T M R E p L r VP = Ok m ->
  length (constraints_named (precedence_family enc) m)
  = precedence_rows enc (length E) (length VP) (Z.to_nat T) /\
  (enc = MSEQCT -> constraints_named "precedence" m = []).
Proof.
  intros H. unfold constraints_named.
  destruct enc; simpl in H;
    [ unfold Pulse.build in H | unfold Pulse.build in H
    | unfold Step.build in H | unfold Step.build in H
    | unfold OnOff.build in H
    | unfold OnOffPulse.build in H | unfold OnOffPulse.build in H
    | unfold Continuous.build in H ];
    open_families H; injection H as <-; simpl m_constrs; simpl precedence_family;
    simpl precedence_rows; (split; [|try discriminate]); count_named.
  - by_comp.
  - by_comp_flat. intros [i j] ys Hy. apply comp_length in Hy.
    now rewrite Hy, length_zrange, Z.sub_0_r.
  - by_comp.
  - by_comp_flat. intros [i j] ys Hy. apply comp_length in Hy.
    rewrite Hy, length_zrange. lia.
  - by_comp_flat. intros [i j] ys Hy. apply comp_length in Hy.
    now rewrite Hy, length_zrange, Z.sub_0_r.
  - by_comp.
  - by_comp_flat. intros [i j] ys Hy. apply comp_length in Hy.
    now rewrite Hy, length_zrange, Z.sub_0_r.
  - f_equal; by_comp.
  - intros _. reflexivity.
Qed.

(** The aggregated encodings state one precedence constraint per edge,
    the disaggregated ones one per edge and time slot (the disaggregated
    step encoding spares slot 0); [continuous_model] files its |E|
    precedence constraints under the name of the |VP| constraints that
    link starts and completions, and has none named precedence. *)
Theorem precedence_constraints_per_encoding enc n T M R E p L r VP (h : heap) md h' :
  builder_of enc n T M R E p L r VP h = (Ok md, h') ->
  length (constraints_named (precedence_family enc) (fst md))
  = precedence_rows enc (length E) (length VP) (Z.to_nat (T / snd md)) /\
  (enc = MSEQCT -> constraints_named "precedence" (fst md) = []).
Proof.
  intros H. rewrite builder_run in H.
  destruct (h !! p) as [tbl|]; [|discriminate]. cbv zeta in H.
  destruct (_ =? 0); [discriminate|].
  destruct (build_of _ _ _ _ _ _ _ _ _ _) as [m|] eqn:Hb; [|discriminate].
  injection H as <- <-. simpl. exact (build_precedence_rows _ _ _ _ _ _ _ _ _ _ _ Hb).
Qed.

Lemma precedence_constraints_per_encoding_witness :
  exists md h',
    builder_of MSEQCT 3%nat 6 1%nat [1] chain_E 1%positive [] chain_r
      (derive_VP 3 chain_E) {[ 1%positive := [[0]; [4]; [0]] ]} = (Ok md, h') /\
    length (constraints_named (precedence_family MSEQCT) (fst md))
    = precedence_rows MSEQCT (length chain_E) (length (derive_VP 3 chain_E))
                      (Z.to_nat (6 / snd md)) /\
    (MSEQCT = MSEQCT -> constraints_named "precedence" (fst md) = []).
Proof.
  eexists _, _. split; [vm_compute; reflexivity|].
  eapply (precedence_constraints_per_encoding MSEQCT 3%nat 6 1%nat [1] chain_E
            1%positive [] chain_r (derive_VP 3 chain_E)
            {[ 1%positive := [[0]; [4]; [0]] ]}).
  vm_compute. reflexivity.
Defined.

(** ** What bound tightening means for the solver *)

Lemma feasible_holds m a name c :
  feasible m a = true -> (name, c) ∈ m_constrs m -> holds a c = true.
Proof.
  unfold feasible. intros H Hin. rewrite forallb_forall in H.
  exact (H _ (proj1 (list_elem_of_In _ _) Hin)).
Qed.

(** In every assignment that satisfies a returned model, no activity
    occupies a slot before its earliest start (time-indexed encodings),
    resp. no start variable lies below the earliest start (continuous
    encoding): the tightening constraints are enforced, not merely
    present. *)
Theorem feasible_assignments_respect_earliest_starts
    enc n T M R E p L r VP (h : heap) md h' (a : var -> Q) :
  builder_of enc n T M R E p L r VP h = (Ok md, h') ->
  feasible (fst md) a = true ->
  exists tbl est,
    h' !! p = Some tbl /\
    Utils.get_earliest_start_time n (T / snd md) M R E tbl L r VP = Ok est /\
    respects_earliest_starts enc n M est a.
Proof.
  intros H Hfeas.
  destruct (returned_model_is_tightened _ _ _ _ _ _ _ _ _ _ _ _ _ H)
    as (tbl & est & Hp & Hest & _ & Htight).
  exists tbl, est. split; [exact Hp|]. split; [exact Hest|].
  assert (forall family,
    fixes_early_slots family n M est (fst md) ->
    forall i mo t e, (i < n)%nat -> (mo < M)%nat -> est !! i = Some e ->
      0 <= t < e -> (a (family, key3 i mo t) == 0)%Q) as Hslots.
  { intros family Hfix i mo t e Hi Hm He Ht.
    destruct (Hfix i mo t e Hi Hm He Ht) as [name Hin].
    apply (feasible_holds _ _ _ _ Hfeas) in Hin.
    unfold holds in Hin. simpl in Hin. now apply Qeq_bool_iff in Hin. }
  destruct enc; simpl in *; try (apply Hslots; exact Htight).
  intros i e Hi He. destruct (Htight i e Hi He) as [name Hin].
  apply (feasible_holds _ _ _ _ Hfeas) in Hin.
  unfold holds in Hin. simpl in Hin. now apply Qle_bool_iff in Hin.
Qed.

Lemma feasible_assignments_respect_earliest_starts_witness :
  exists md h',
    builder_of PDT 3%nat 6 1%nat [1] chain_E 1%positive [] chain_r []
      {[ 1%positive := chain_p ]} = (Ok md, h') /\
    exists tbl est,
      h' !! 1%positive = Some tbl /\
      Utils.get_earliest_start_time 3 (6 / snd md) 1 [1] chain_E tbl [] chain_r []
        = Ok est /\
      respects_earliest_starts PDT 3 1 est
        (ones [("pulse", [0; 0; 0]); ("pulse", [1; 0; 0]); ("pulse", [2; 0; 1])]).
Proof.
  eexists _, _. split; [vm_compute; reflexivity|].
  eapply (feasible_assignments_respect_earliest_starts PDT 3%nat 6 1%nat [1]
            chain_E 1%positive [] chain_r [] {[ 1%positive := chain_p ]}).
  - vm_compute. reflexivity.
  - vm_compute. reflexivity.
Defined.

(** ** A test run *)

Lemma models_hand_back_divisor name init :
  (name, init) ∈ models ->
  forall inp VP (h : heap) md h',
    init inp VP h = (Ok md, h') ->
    exists tbl, h !! in_p inp = Some tbl /\ snd md = compute_divisor tbl (in_T inp).
Proof.
  unfold models. rewrite !elem_of_cons, elem_of_nil.
  intros [[= _ ->]|[[= _ ->]|[[= _ ->]|[[= _ ->]|[[= _ ->]|[[= _ ->]|[[= _ ->]|[[= _ ->]|[]]]]]]]]];
    intros inp VP h md h' H;
    apply builder_inv in H as (tbl & ? & ? & _); eauto.
Qed.

Lemma test_models_results ms input_base tbl :
  (forall name init, (name, init) ∈ ms ->
     writes_only_own_table init /\
     forall inp VP (h : heap) md h',
       init inp VP h = (Ok md, h') ->
       exists tbl, h !! in_p inp = Some tbl /\ snd md = compute_divisor tbl (in_T inp)) ->
  forall (h : heap) results h',
  h !! in_p input_base = Some tbl ->
  test_models ms input_base h = (Ok results, h') ->
  map (fun res => fst (fst res)) results = map fst ms /\
  Forall (fun res => snd res = compute_divisor tbl (in_T input_base)) results.
Proof.
  induction ms as [|[name init] ms IH]; intros Hms h results h' Hp H; simpl in H.
  - unfold pret in H. injection H as <- _. split; [reflexivity|constructor].
  - unfold pbind at 1, deepcopy, pbind at 1, load in H. rewrite Hp in H.
    unfold pbind, alloc, pret in H. simpl in H.
    remember (fresh (dom h)) as l eqn:Hfresh.
    assert (l <> in_p input_base) as Hl.
    { intros Heq. apply elem_of_dom_2 in Hp.
      rewrite <- Heq, Hfresh in Hp. exact (is_fresh _ Hp). }
    destruct (init _ _ _) as [[[m d]|e] h1] eqn:Hinit; [|discriminate].
    destruct (Hms name init (list_elem_of_here _ _)) as [Hown Hdiv].
    pose proof (Hown _ _ _ _ _ Hinit (in_p input_base) (not_eq_sym Hl)) as Hfr.
    simpl in Hfr. rewrite lookup_insert_ne in Hfr by assumption.
    destruct (Hdiv _ _ _ _ _ Hinit) as (tbl' & Htbl' & Hd). simpl in Htbl', Hd.
    rewrite lookup_insert_eq in Htbl'. injection Htbl' as <-.
    destruct (test_models ms input_base h1) as [[rs|e] h2] eqn:Hrest; [|discriminate].
    injection H as <- _.
    destruct (IH (fun n i Hni => Hms n i (list_elem_of_further _ _ _ Hni))
                 h1 rs h2) as [Hnames Hall]; [congruence|exact Hrest|].
    split; simpl; [now rewrite Hnames|]. constructor; [exact Hd|exact Hall].
Qed.

(** When the test run of [__main__] goes through, it yields the eight
    results in the order PDT ... MSEQCT; every builder was handed the
    durations of [input_base] as they were, so all eight report the same
    divisor; and [input_base] reads the same afterwards. *)
Theorem test_run_compares_like_with_like input_base (h : heap) results h' :
  test_models models input_base h = (Ok results, h') ->
  exists tbl,
    h !! in_p input_base = Some tbl /\
    h' !! in_p input_base = Some tbl /\
    map (fun res => fst (fst res)) results
    = ["PDT"; "PDDT"; "SDT"; "SDDT"; "OODDT"; "OOPDT"; "OOPDDT"; "MSEQCT"] /\
    Forall (fun res => snd res = compute_divisor tbl (in_T input_base)) results.
Proof.
  intros H.
  destruct (h !! in_p input_base) as [tbl|] eqn:Hp.
  - exists tbl. split; [reflexivity|]. split.
    + rewrite <- Hp. eapply test_models_preserves_base; [|exact H].
      exact models_write_only_own_table.
    + eapply (test_models_results models); [|exact Hp|exact H].
      intros name init Hin. split.
      * exact (models_write_only_own_table _ _ Hin).
      * exact (models_hand_back_divisor _ _ Hin).
  - exfalso. unfold models in H. simpl in H.
    unfold pbind at 1, deepcopy, pbind at 1, load in H. rewrite Hp in H.
    discriminate.
Qed.

Lemma test_run_compares_like_with_like_witness :
  exists results h',
    test_models models
      {| in_n := 3; in_T := 6; in_M := 1; in_R := [1]; in_E := chain_E;
         in_p := 1%positive; in_L := []; in_r := chain_r |}
      {[ 1%positive := chain_p ]} = (Ok results, h') /\
    exists tbl,
      ({[ 1%positive := chain_p ]} : heap) !! 1%positive = Some tbl /\
      h' !! 1%positive = Some tbl /\
      map (fun res => fst (fst res)) results
      = ["PDT"; "PDDT"; "SDT"; "SDDT"; "OODDT"; "OOPDT"; "OOPDDT"; "MSEQCT"] /\
      Forall (fun res => snd res = compute_divisor tbl 6) results.
Proof.
  eexists _, _. split; [vm_compute; reflexivity|].
  eapply (test_run_compares_like_with_like
            {| in_n := 3; in_T := 6; in_M := 1; in_R := [1]; in_E := chain_E;
               in_p := 1%positive; in_L := []; in_r := chain_r |}
            {[ 1%positive := chain_p ]}).
  vm_compute. reflexivity.
Defined.

(** ** The non-ordered pairs *)

Lemma NoDup_flat_map {A B} (f : A -> list B) xs :
  NoDup xs -> (forall x, x ∈ xs -> NoDup (f x)) ->
  (forall x1 x2 y, x1 ∈ xs -> x2 ∈ xs -> y ∈ f x1 -> y ∈ f x2 -> x1 = x2) ->
  NoDup (flat_map f xs).
Proof.
  induction 1 as [|x xs Hx Hnd IH]; simpl; intros Hf Hdisj; [constructor|].
  apply NoDup_app. split; [apply Hf; left|]. split.
  - intros y Hy (x' & Hx' & Hy')%elem_of_flat_map.
    assert (x = x') as <-; [|contradiction].
    eapply Hdisj; [left|now right|exact Hy|exact Hy'].
  - apply IH.
    + intros x' Hx'. apply Hf. now right.
    + intros x1 x2 y H1 H2. apply Hdisj; now right.
Qed.

(** The derived list VP is symmetric and irreflexive, names only known
    activities, and holds no pair twice, whatever [E] is. *)
Theorem derived_pairs_are_symmetric n E i j :
  (i, j) ∈ derive_VP n E ->
  (j, i) ∈ derive_VP n E /\ i <> j /\ (i < n)%nat /\ (j < n)%nat /\
  NoDup (derive_VP n E).
Proof.
  intros Hij. pose proof Hij as (Hi & Hj & H1 & H2 & Hne)%elem_of_derive_VP.
  split; [apply elem_of_derive_VP; auto|]. do 3 (split; [assumption|]).
  unfold derive_VP. apply NoDup_flat_map.
  - apply NoDup_seq.
  - intros a _. apply NoDup_flat_map.
    + apply NoDup_seq.
    + intros b _. destruct (_ && _); [apply NoDup_singleton|constructor].
    + intros b1 b2 y _ _ Hy1 Hy2.
      destruct (_ && _) in Hy1; [|inversion Hy1].
      destruct (_ && _) in Hy2; [|inversion Hy2].
      apply list_elem_of_singleton in Hy1, Hy2. congruence.
  - intros a1 a2 y _ _ (b1 & _ & Hy1)%elem_of_flat_map (b2 & _ & Hy2)%elem_of_flat_map.
    destruct (_ && _) in Hy1; [|inversion Hy1].
    destruct (_ && _) in Hy2; [|inversion Hy2].
    apply list_elem_of_singleton in Hy1, Hy2. congruence.
Qed.

Lemma derived_pairs_are_symmetric_witness :
  (2%nat, 0%nat) ∈ derive_VP 3 chain_E /\ 0%nat <> 2%nat /\ (0 < 3)%nat /\
  (2 < 3)%nat /\ NoDup (derive_VP 3 chain_E).
Proof.
  apply derived_pairs_are_symmetric.
  apply elem_of_derive_VP. unfold chain_E.
  repeat split; try lia;
    rewrite !elem_of_cons, elem_of_nil; intros [?|[?|[]]]; discriminate.
Defined.

(** ** The variables a model mentions *)

Create HintDb families.

#[local] Hint Unfold
  Pulse.build Pulse.objective Pulse.schedule Pulse.precedence
  Pulse.precedence_disaggregated Pulse.resource Pulse.linked Pulse.zero_time_slots
  Step.build Step.objective Step.schedule Step.started_same_mode Step.before
  Step.completed Step.precedence Step.precedence_disaggregated Step.resource
  Step.linked Step.earliest_start_times
  OnOff.build OnOff.objective OnOff.slot_share OnOff.schedule OnOff.schedule_first
  OnOff.schedule_last OnOff.started_same_mode OnOff.precedence OnOff.resource
  OnOff.linked OnOff.zero_time_slots
  OnOffPulse.build OnOffPulse.connect_pulse_onoff
  OnOffPulse.connect_pulse_onoff_processing_time
  Continuous.build Continuous.earliest_bounds Continuous.objective
  Continuous.chosen_duration Continuous.connect_start_completion
  Continuous.precedence Continuous.connect_start_start_timing
  Continuous.execute_activity Continuous.chosen_requirement Continuous.resource
  Continuous.resource_2 Continuous.linked : families.

Section Mentions.
Variable D : var -> Prop.

Local Abbreviation within e := (Forall D (expr_vars e)).
Local Abbreviation within_c c := (Forall D (constr_vars c)).
Local Abbreviation within_nc nc := (Forall D (constr_vars (snd nc))).

Lemma yields_bind {A B} (Q : A -> Prop) (P : B -> Prop) (c : result A) k :
  (forall a, c = Ok a -> Q a) ->
  (forall a, Q a -> forall b, k a = Ok b -> P b) ->
  forall b, rbind c k = Ok b -> P b.
Proof. intros Hc Hk b (a & Ha & Hb)%rbind_ok. eauto. Qed.

Lemma yields_bind_any {A B} (P : B -> Prop) (c : result A) k :
  (forall a b, k a = Ok b -> P b) -> forall b, rbind c k = Ok b -> P b.
Proof. intros Hk b (a & _ & Hb)%rbind_ok. eauto. Qed.

Lemma yields_comp {A B} (P : B -> Prop) (f : A -> result B) xs :
  (forall x b, f x = Ok b -> P b) -> forall ys, comp f xs = Ok ys -> Forall P ys.
Proof.
  intros Hf ys H%comp_ok_inv. induction H; constructor; eauto.
Qed.

Lemma yields_comp_flat {A B} (P : B -> Prop) (f : A -> result (list B)) xs :
  (forall x ys, f x = Ok ys -> Forall P ys) ->
  forall zs, comp_flat f xs = Ok zs -> Forall P zs.
Proof.
  unfold comp_flat. intros Hf zs (yss & H%comp_ok_inv & [= <-])%rbind_ok.
  induction H as [|x ys xs yss Hxy _ IH]; simpl; [constructor|].
  apply Forall_app. eauto.
Qed.

Lemma within_quicksum es : Forall (fun e => within e) es -> within (Quicksum es).
Proof.
  simpl. induction 1 as [|e es He _ IH]; simpl; [constructor|].
  apply Forall_app. auto.
Qed.

Lemma yields_quicksum c :
  (forall es, c = Ok es -> Forall (fun e => within e) es) ->
  forall e, quicksum c = Ok e -> within e.
Proof.
  unfold quicksum. intros Hc e (es & Hes & [= <-])%rbind_ok.
  apply within_quicksum. auto.
Qed.

Lemma yields_td_get d k :
  (forall k, k ∈ td_keys d -> D (td_name d, k)) ->
  forall e, td_get d k = Ok e -> within e.
Proof.
  intros Hd e [-> Hk]%td_get_inv. simpl. constructor; [auto|constructor].
Qed.

Lemma within_sum_first d i :
  (forall k, k ∈ td_keys d -> D (td_name d, k)) -> within (td_sum_first d i).
Proof.
  intros Hd. unfold td_sum_first. apply within_quicksum.
  apply Forall_forall. intros e (k & -> & Hk)%list_elem_of_fmap.
  simpl. constructor; [|constructor]. apply Hd.
  now apply list_elem_of_filter in Hk as [_ Hk].
Qed.

Lemma yields_addConstrs name c :
  (forall cs, c = Ok cs -> Forall (fun x => within_c x) cs) ->
  forall ncs, addConstrs name c = Ok ncs -> Forall (fun nc => within_nc nc) ncs.
Proof.
  intros Hc ncs (cs & Hcs & ->)%addConstrs_inv.
  specialize (Hc _ Hcs). rewrite Forall_forall in Hc.
  apply Forall_forall. intros nc (c' & -> & Hin)%list_elem_of_fmap.
  simpl. exact (Hc _ Hin).
Qed.

Lemma within_family (ncs : list (string * constr)) :
  Forall (fun nc => within_nc nc) ncs ->
  Forall D (flat_map (fun nc => constr_vars (snd nc)) ncs).
Proof.
  induction 1 as [|nc ncs Hnc _ IH]; simpl; [constructor|].
  apply Forall_app. auto.
Qed.

Ltac within_done :=
  intros ? [= <-];
  unfold occurring, constr_vars, eq_, le_, ge_;
  cbn [expr_vars c_lhs c_rhs snd m_objective m_constrs];
  rewrite ?flat_map_app, ?Forall_app;
  repeat first
    [ assumption
    | split
    | apply Forall_nil
    | apply Forall_cons
    | apply within_family
    | apply within_sum_first ].

Ltac within_step :=
  cbv beta zeta;
  lazymatch goal with
  | |- forall b, Ok _ = Ok b -> _ => within_done
  | |- forall b, (let '(_, _) := ?x in _) = Ok b -> _ => destruct x
  | |- forall b, (if ?c then _ else _) = Ok b -> _ => destruct c
  | |- forall b, td_get _ _ = Ok b -> _ => apply yields_td_get; assumption
  | |- forall b, quicksum _ = Ok b -> _ => apply yields_quicksum
  | |- forall b, addConstrs _ _ = Ok b -> _ => apply yields_addConstrs
  | |- forall b, comp _ _ = Ok b -> _ => apply yields_comp; intros ?
  | |- forall b, comp_flat _ _ = Ok b -> _ => apply yields_comp_flat; intros ?
  | |- forall b, @rbind expr _ _ _ = Ok b -> _ =>
      eapply (yields_bind (fun e => within e)); [|intros ? ?]
  | |- forall b, @rbind constr _ _ _ = Ok b -> _ =>
      eapply (yields_bind (fun c => within_c c)); [|intros ? ?]
  | |- forall b, @rbind (list (string * constr)) _ _ _ = Ok b -> _ =>
      eapply (yields_bind (Forall (fun nc => within_nc nc))); [|intros ? ?]
  | |- forall b, rbind _ _ = Ok b -> _ => apply yields_bind_any; intros ?
  end.

Ltac within_all := autounfold with families; repeat within_step.

Lemma pulse_build_within dis n T M R E p L r VP :
  (forall k, k ∈ imt_sets n M T -> D ("pulse", k)) ->
  forall m, Pulse.build dis n T M R E p L r VP = Ok m -> Forall D (occurring m).
Proof. intros Hx. within_all. Qed.

Lemma step_build_within dis n T M R E p L r VP :
  (forall k, k ∈ imt_sets n M T -> D ("pulse", k)) ->
  forall m, Step.build dis n T M R E p L r VP = Ok m -> Forall D (occurring m).
Proof. intros Hz. within_all. Qed.

Lemma onoff_build_within n T M R E p L r VP :
  (forall k, k ∈ imt_sets n M T -> D ("onoff", k)) ->
  forall m, OnOff.build n T M R E p L r VP = Ok m -> Forall D (occurring m).
Proof. intros Hy. within_all. Qed.

Lemma onoff_pulse_build_within dis n T M R E p L r VP :
  (forall k, k ∈ imt_sets n M T -> D ("pulse", k)) ->
  (forall k, k ∈ imt_sets n M T -> D ("onoff", k)) ->
  forall m, OnOffPulse.build dis n T M R E p L r VP = Ok m -> Forall D (occurring m).
Proof. intros Hx Hy. within_all. Qed.

Lemma continuous_build_within n T M R E VP p L r :
  (forall k, k ∈ map key1 (range n) -> D ("activity", k)) ->
  (forall k, k ∈ flat_map (fun i => map (key2 i) (range M)) (range n) ->
     D ("mode", k)) ->
  (forall k, k ∈ Continuous.pair_sets n -> D ("completion_start_sequence", k)) ->
  (forall k, k ∈ Continuous.pair_sets n -> D ("start_start_sequence", k)) ->
  (forall k, k ∈ flat_map (fun i => flat_map (fun j =>
       map (fun k => key3 i j (Z.of_nat k)) (range (length R))) (range n)) (range n) ->
     D ("resource", k)) ->
  forall m, Continuous.build n T M R E VP p L r = Ok m -> Forall D (occurring m).
Proof. intros HS Hx Hy Hz Hu. within_all. Qed.

End Mentions.

Lemma declared_td d k : k ∈ td_keys d -> (td_name d, k) ∈ map fst (td_vars d).
Proof.
  intros Hk. unfold td_vars. rewrite map_map. simpl.
  apply list_elem_of_fmap. eauto.
Qed.

Ltac covered :=
  intros ? ?; unfold declared; cbn [m_vars];
  rewrite ?map_app, ?elem_of_app;
  first
    [ now apply (declared_td (addVars _ _ _))
    | left; now apply (declared_td (addVars _ _ _))
    | right; left; now apply (declared_td (addVars _ _ _))
    | right; right; left; now apply (declared_td (addVars _ _ _))
    | right; right; right; left; now apply (declared_td (addVars _ _ _))
    | right; now apply (declared_td (addVars _ _ _))
    | right; right; now apply (declared_td (addVars _ _ _))
    | right; right; right; now apply (declared_td (addVars _ _ _))
    | right; right; right; right; now apply (declared_td (addVars _ _ _)) ].

Lemma build_mentions_declared enc n T M R E p L r VP m :
  build_of enc n T M R E p L r VP = Ok m ->
  Forall (fun v => v ∈ declared m) (occurring m).
Proof.
  intros Hb. pose proof Hb as Hv.
  destruct enc; simpl in Hb, Hv;
    [ unfold Pulse.build in Hv | unfold Pulse.build in Hv
    | unfold Step.build in Hv | unfold Step.build in Hv
    | unfold OnOff.build in Hv
    | unfold OnOffPulse.build in Hv | unfold OnOffPulse.build in Hv
    | unfold Continuous.build in Hv ];
    open_build Hv; injection Hv as Hm;
    [ eapply pulse_build_within; [|exact Hb]
    | eapply pulse_build_within; [|exact Hb]
    | eapply step_build_within; [|exact Hb]
    | eapply step_build_within; [|exact Hb]
    | eapply onoff_build_within; [|exact Hb]
    | eapply onoff_pulse_build_within; [| |exact Hb]
    | eapply onoff_pulse_build_within; [| |exact Hb]
    | eapply continuous_build_within; [| | | | |exact Hb] ];
    rewrite <- Hm; covered.
Qed.

(** A returned model is closed: every variable its objective or one of
    its constraints mentions was declared by the builder.  (A key the
    builder never declared raises KeyError instead.) *)
Theorem models_mention_only_declared_variables
    enc n T M R E p L r VP (h : heap) md h' v :
  builder_of enc n T M R E p L r VP h = (Ok md, h') ->
  v ∈ occurring (fst md) -> v ∈ declared (fst md).
Proof.
  intros H. rewrite builder_run in H.
  destruct (h !! p) as [tbl|]; [|discriminate]. cbv zeta in H.
  destruct (_ =? 0); [discriminate|].
  destruct (build_of _ _ _ _ _ _ _ _ _ _) as [m|] eqn:Hb; [|discriminate].
  injection H as <- <-. simpl.
  pose proof (build_mentions_declared _ _ _ _ _ _ _ _ _ _ _ Hb) as Hall.
  rewrite Forall_forall in Hall. apply Hall.
Qed.

Lemma models_mention_only_declared_variables_witness :
  exists md h',
    builder_of OOPDT 3%nat 6 1%nat [1] chain_E 1%positive [] chain_r []
      {[ 1%positive := chain_p ]} = (Ok md, h') /\
    ("onoff", [1; 0; 1]) ∈ declared (fst md).
Proof.
  eexists _, _. split; [vm_compute; reflexivity|].
  eapply (models_mention_only_declared_variables OOPDT 3%nat 6 1%nat [1] chain_E
            1%positive [] chain_r [] {[ 1%positive := chain_p ]}).
  - vm_compute. reflexivity.
  - unfold occurring. apply elem_of_app. right.
    apply list_elem_of_In, in_flat_map.
    eexists ("connect_pulse_onoff", _). split.
    + simpl. right. right. right. right. right. right. left. reflexivity.
    + simpl. left. reflexivity.
Defined.

(** The step builders declare one variable [last_dummy[t]] per slot and
    never use it: no constraint and no objective term of a returned step
    model mentions one; all they mention are step variables. *)
Theorem step_models_never_use_last_dummy
    enc n T M R E p L r VP (h : heap) md h' t :
  enc = SDT \/ enc = SDDT ->
  builder_of enc n T M R E p L r VP h = (Ok md, h') ->
  0 <= t < T / snd md ->
  ("last_dummy", [t]) ∈ declared (fst md) /\
(("last_dummy", [t]) ∉ occurring (fst md)) /\
  Forall (fun v => fst v = "pulse") (occurring (fst md)).
Proof.
  intros Henc H Ht. rewrite builder_run in H.
  destruct (h !! p) as [tbl|]; [|discriminate]. cbv zeta in H.
  destruct (_ =? 0); [discriminate|].
  destruct (build_of _ _ _ _ _ _ _ _ _ _) as [m|] eqn:Hb; [|discriminate].
  injection H as <- <-. simpl in *.
  assert (exists dis, Step.build dis n (T / compute_divisor tbl T) M R E
            (rescaled (compute_divisor tbl T) tbl) L r VP = Ok m) as [dis Hs].
  { destruct Henc as [-> | ->]; [exists false|exists true]; exact Hb. }
  assert (Forall (fun v => fst v = "pulse") (occurring m)) as Hall.
  { eapply (step_build_within (fun v => fst v = "pulse")); [|exact Hs].
    reflexivity. }
  split; [|split; [|exact Hall]].
  - pose proof Hs as Hv. unfold Step.build in Hv. open_build Hv.
    injection Hv as <-. unfold declared. cbn [m_vars].
    rewrite map_app, elem_of_app. left.
    apply (declared_td (addVars _ BINARY "last_dummy") [t]). simpl.
    apply list_elem_of_fmap. exists t. split; [reflexivity|].
    now apply elem_of_zrange.
  - intros Hin. rewrite Forall_forall in Hall.
    specialize (Hall _ Hin). discriminate.
Qed.

Lemma step_models_never_use_last_dummy_witness :
  exists md h',
    builder_of SDT 3%nat 6 1%nat [1] chain_E 1%positive [] chain_r []
      {[ 1%positive := chain_p ]} = (Ok md, h') /\
    ("last_dummy", [1]) ∈ declared (fst md) /\
    (("last_dummy", [1]) ∉ occurring (fst md)) /\
    Forall (fun v => fst v = "pulse") (occurring (fst md)).
Proof.
  eexists _, _. split; [vm_compute; reflexivity|].
  eapply (step_models_never_use_last_dummy SDT 3%nat 6 1%nat [1] chain_E
            1%positive [] chain_r [] {[ 1%positive := chain_p ]}).
  - now left.
  - vm_compute. reflexivity.
  - simpl. split; [lia|]. vm_compute. reflexivity.
Defined.

(** ** The tasks of a process *)

Lemma for_each_invariant {A S} (I : S -> Prop) (body : S -> A -> result S) xs :
  (forall acc x acc', I acc -> body acc x = Ok acc' -> I acc') ->
  forall acc acc', for_each xs body acc = Ok acc' -> I acc -> I acc'.
Proof.
  intros Hstep. induction xs as [|x xs IH]; simpl; intros acc acc' H Hacc.
  - now injection H as <-.
  - apply rbind_ok in H as (acc1 & H1 & H). eauto.
Qed.

Lemma for_each_indexed {A S} (I : nat -> S -> Prop)
    (body : S -> nat * A -> result S) (l : list A) :
  forall k acc acc',
  (forall i x acc acc', (k <= i < k + length l)%nat -> I i acc ->
     body acc (i, x) = Ok acc' -> I (Datatypes.S i) acc') ->
  for_each (combine (seq k (length l)) l) body acc = Ok acc' ->
  I k acc -> I (k + length l)%nat acc'.
Proof.
  induction l as [|x l IH]; simpl; intros k acc acc' Hstep H Hacc.
  - injection H as <-. now rewrite Nat.add_0_r.
  - apply rbind_ok in H as (acc1 & H1 & H).
    replace (k + Datatypes.S (length l))%nat with (Datatypes.S k + length l)%nat by lia.
    apply (IH (Datatypes.S k) acc1 acc'); [|exact H|].
    + intros i y a a' Hi. apply Hstep. lia.
    + apply (Hstep k x acc acc1); [lia|exact Hacc|exact H1].
Qed.

Lemma back_to_back_app s a b :
  Generator.back_to_back s (a ++ b) <->
  Generator.back_to_back s a /\
  Generator.back_to_back (s + Generator.sum_durations a) b.
Proof.
  revert s. induction a as [|t a IH]; intros s; simpl.
  - rewrite Z.add_0_r. tauto.
  - rewrite IH, Z.add_assoc. tauto.
Qed.

Lemma tasks_of_back_to_back phase mode s :
  Generator.back_to_back s (Generator.tasks_of phase mode s).
Proof.
  destruct mode; simpl; repeat split; lia.
Qed.

Lemma tasks_of_length phase mode s :
  (1 <= length (Generator.tasks_of phase mode s) <= 3)%nat.
Proof. destruct mode; simpl; lia. Qed.

Lemma phase_step_inv nt modes done i phase done' :
  Generator.phase_step nt modes done (i, phase) = Ok done' ->
  done' = done \/
  exists mode s, modes !! i = Some mode /\
                 Generator.start_time_of nt i done = Ok s /\
                 done' = done ++ [Generator.tasks_of phase mode s].
Proof.
  unfold Generator.phase_step.
  destruct (_ && _); [intros [= <-]; now left|].
  destruct (_ && _); [intros [= <-]; now left|].
  intros (mode & Hm%getitem_ok & H)%rbind_ok.
  apply rbind_ok in H as (s & Hs & [= <-]). right. eauto.
Qed.

(** In every phase [get_tasks] returns, the one to three tasks run back
    to back: each starts when the one before it ends. *)
Theorem phase_tasks_run_back_to_back self modes built tasks :
  Generator.get_tasks self modes = Ok built ->
  tasks ∈ built ->
  (1 <= length tasks <= 3)%nat /\
  exists start, Generator.back_to_back start tasks.
Proof.
  unfold Generator.get_tasks. intros H Hin.
  assert (Forall (fun ts => (1 <= length ts <= 3)%nat /\
                            exists start, Generator.back_to_back start ts) built)
    as Hall.
  { refine (for_each_invariant
              (fun done => Forall (fun ts => (1 <= length ts <= 3)%nat /\
                 exists start, Generator.back_to_back start ts) done)
              _ _ _ _ _ H _); [|constructor].
    intros done [i phase] done' Hd Hs.
    apply phase_step_inv in Hs as [->|(mode & s & _ & _ & ->)]; [exact Hd|].
    apply Forall_app. split; [exact Hd|].
    constructor; [|constructor].
    split; [apply tasks_of_length|].
    exists s. apply tasks_of_back_to_back. }
  rewrite Forall_forall in Hall. exact (Hall _ Hin).
Qed.

Lemma phase_tasks_run_back_to_back_witness :
  (1 <= length [ {| Generator.duration := 8; Generator.resource := Generator.L2;
                    Generator.earliest_start := 0 |};
                 {| Generator.duration := 2; Generator.resource := Generator.L3;
                    Generator.earliest_start := 8 |} ] <= 3)%nat /\
  exists start,
    Generator.back_to_back start
      [ {| Generator.duration := 8; Generator.resource := Generator.L2;
           Generator.earliest_start := 0 |};
        {| Generator.duration := 2; Generator.resource := Generator.L3;
           Generator.earliest_start := 8 |} ].
Proof.
  apply (phase_tasks_run_back_to_back
           {| Generator.network_type := Generator.SINGLE;
              Generator.phases := [ {| Generator.resource_1_duration := 6;
                                       Generator.resource_2_duration := 4;
                                       Generator.resource_3_duration := 2 |} ] |}
           [Generator.MODE_2]
           [[ {| Generator.duration := 8; Generator.resource := Generator.L2;
                 Generator.earliest_start := 0 |};
              {| Generator.duration := 2; Generator.resource := Generator.L3;
                 Generator.earliest_start := 8 |} ]]).
  - reflexivity.
  - left.
Defined.

(** For the network types SINGLE, DOUBLE and TRIPLE the phases follow
    one another: all tasks [get_tasks] returns, taken in order, run back
    to back from time 0. *)
Theorem chain_processes_run_back_to_back self modes built :
  Generator.network_type self <> Generator.INTREE ->
  Generator.get_tasks self modes = Ok built ->
  Generator.back_to_back 0 (concat built).
Proof.
  unfold Generator.get_tasks. intros Hnt H.
  refine (for_each_invariant
            (fun done => Generator.back_to_back 0 (concat done)) _ _ _ _ _ H _);
    [|exact I].
  intros done [i phase] done' Hd Hs.
  apply phase_step_inv in Hs as [->|(mode & s & _ & Hs & ->)]; [exact Hd|].
  rewrite concat_app. simpl. rewrite app_nil_r.
  apply back_to_back_app. split; [exact Hd|].
  assert (s = Generator.sum_durations (concat done)) as ->.
  { destruct (Generator.network_type self); [contradiction| | |];
      destruct i as [|[|[|i]]]; simpl in Hs; congruence. }
  apply tasks_of_back_to_back.
Qed.

Lemma chain_processes_run_back_to_back_witness :
  Generator.back_to_back 0
    (concat [[ {| Generator.duration := 6; Generator.resource := Generator.L3;
                  Generator.earliest_start := 0 |} ];
             [ {| Generator.duration := 8; Generator.resource := Generator.L2;
                  Generator.earliest_start := 6 |};
               {| Generator.duration := 2; Generator.resource := Generator.L3;
                  Generator.earliest_start := 14 |} ]]).
Proof.
  apply (chain_processes_run_back_to_back
           {| Generator.network_type := Generator.TRIPLE;
              Generator.phases := [ {| Generator.resource_1_duration := 6;
                                       Generator.resource_2_duration := 4;
                                       Generator.resource_3_duration := 2 |};
                                    {| Generator.resource_1_duration := 6;
                                       Generator.resource_2_duration := 4;
                                       Generator.resource_3_duration := 2 |} ] |}
           [Generator.MODE_3; Generator.MODE_2]).
  - discriminate.
  - reflexivity.
Defined.

Lemma intree_step_inv modes done i phase done' :
  Generator.phase_step Generator.INTREE modes done (i, phase) = Ok done' ->
  exists mode s, Generator.start_time_of Generator.INTREE i done = Ok s /\
                 done' = done ++ [Generator.tasks_of phase mode s].
Proof.
  unfold Generator.phase_step. simpl.
  intros (mode & _ & H)%rbind_ok.
  apply rbind_ok in H as (s & Hs & [= <-]). eauto.
Qed.

(** In an INTREE process the first two phases both start at time 0 and
    the third starts when the longer of the two has ended. *)
Theorem intree_phases_join self modes built ts0 ts1 ts2 :
  Generator.network_type self = Generator.INTREE ->
  Generator.get_tasks self modes = Ok built ->
  built !! 0%nat = Some ts0 -> built !! 1%nat = Some ts1 ->
  built !! 2%nat = Some ts2 ->
  Generator.back_to_back 0 ts0 /\ Generator.back_to_back 0 ts1 /\
  Generator.back_to_back
    (Z.max (Generator.sum_durations ts0) (Generator.sum_durations ts1)) ts2.
Proof.
  unfold Generator.get_tasks, Generator.enumerate. intros -> H H0 H1 H2.
  pose (J := fun done : list (list Generator.Task) =>
    (forall a, done !! 0%nat = Some a -> Generator.back_to_back 0 a) /\
    (forall b, done !! 1%nat = Some b -> Generator.back_to_back 0 b) /\
    (forall a b c, done !! 0%nat = Some a -> done !! 1%nat = Some b ->
       done !! 2%nat = Some c ->
       Generator.back_to_back
         (Z.max (Generator.sum_durations a) (Generator.sum_durations b)) c)).
  assert (length built = (0 + length (Generator.phases self))%nat /\ J built)
    as [_ (Ha & Hb & Hc)].
  { refine (for_each_indexed (fun i done => length done = i /\ J done)
              _ _ 0%nat [] built _ H _).
    - intros i phase done done' _ [Hlen HJ] Hs.
      apply intree_step_inv in Hs as (mode & s & Hs & ->).
      split; [rewrite length_app; simpl; lia|].
      destruct done as [|a [|b [|c done]]]; simpl in Hlen; subst i; simpl in Hs.
      + injection Hs as <-. repeat split.
        * intros a [= <-]. apply tasks_of_back_to_back.
        * intros b [=].
        * intros a b c _ [=].
      + injection Hs as <-. destruct HJ as (Ha & _ & _). repeat split.
        * exact Ha.
        * intros b [= <-]. apply tasks_of_back_to_back.
        * intros a' b c _ _ [=].
      + injection Hs as <-. destruct HJ as (Ha & Hb & _). repeat split.
        * exact Ha.
        * exact Hb.
        * intros a' b' c [= <-] [= <-] [= <-]. apply tasks_of_back_to_back.
      + exact HJ.
    - split; [reflexivity|]. repeat split; intros; discriminate. }
  auto.
Qed.

Lemma intree_phases_join_witness :
  Generator.back_to_back 0
    [ {| Generator.duration := 6; Generator.resource := Generator.L3;
         Generator.earliest_start := 0 |} ] /\
  Generator.back_to_back 0
    [ {| Generator.duration := 8; Generator.resource := Generator.L2;
         Generator.earliest_start := 0 |};
      {| Generator.duration := 2; Generator.resource := Generator.L3;
         Generator.earliest_start := 8 |} ] /\
  Generator.back_to_back
    (Z.max (Generator.sum_durations
              [ {| Generator.duration := 6; Generator.resource := Generator.L3;
                   Generator.earliest_start := 0 |} ])
           (Generator.sum_durations
              [ {| Generator.duration := 8; Generator.resource := Generator.L2;
                   Generator.earliest_start := 0 |};
                {| Generator.duration := 2; Generator.resource := Generator.L3;
                   Generator.earliest_start := 8 |} ]))
    [ {| Generator.duration := 6; Generator.resource := Generator.L3;
         Generator.earliest_start := 10 |} ].
Proof.
  apply (intree_phases_join
           {| Generator.network_type := Generator.INTREE;
              Generator.phases :=
                replicate 3 {| Generator.resource_1_duration := 6;
                               Generator.resource_2_duration := 4;
                               Generator.resource_3_duration := 2 |} |}
           [Generator.MODE_3; Generator.MODE_2; Generator.MODE_3]
           [ [ {| Generator.duration := 6; Generator.resource := Generator.L3;
                  Generator.earliest_start := 0 |} ];
             [ {| Generator.duration := 8; Generator.resource := Generator.L2;
                  Generator.earliest_start := 0 |};
               {| Generator.duration := 2; Generator.resource := Generator.L3;
                  Generator.earliest_start := 8 |} ];
             [ {| Generator.duration := 6; Generator.resource := Generator.L3;
                  Generator.earliest_start := 10 |} ] ]);
    reflexivity.
Defined.

Lemma for_each_indexed_total {A S} (I : nat -> S -> Prop)
    (body : S -> nat * A -> result S) (l : list A) :
  forall k acc,
  (forall i x acc, (k <= i < k + length l)%nat -> I i acc ->
     exists acc', body acc (i, x) = Ok acc' /\ I (Datatypes.S i) acc') ->
  I k acc ->
  exists acc', for_each (combine (seq k (length l)) l) body acc = Ok acc' /\
               I (k + length l)%nat acc'.
Proof.
  induction l as [|x l IH]; simpl; intros k acc Hstep Hacc.
  - exists acc. now rewrite Nat.add_0_r.
  - destruct (Hstep k x acc) as (acc1 & H1 & Hacc1); [lia|exact Hacc|].
    rewrite H1. simpl.
    replace (k + Datatypes.S (length l))%nat with (Datatypes.S k + length l)%nat by lia.
    apply IH; [|exact Hacc1].
    intros i y a Hi. apply Hstep. lia.
Qed.

Lemma for_each_indexed_raise {A S} (I : nat -> S -> Prop)
    (body : S -> nat * A -> result S) (e : exn) (m : nat) (l : list A) :
  forall k acc,
  (k <= m < k + length l)%nat ->
  (forall i x acc, (k <= i < m)%nat -> I i acc ->
     exists acc', body acc (i, x) = Ok acc' /\ I (Datatypes.S i) acc') ->
  (forall x acc, I m acc -> body acc (m, x) = Raise e) ->
  I k acc ->
  for_each (combine (seq k (length l)) l) body acc = Raise e.
Proof.
  induction l as [|x l IH]; simpl; intros k acc Hm Hstep Hraise Hacc; [lia|].
  destruct (decide (k = m)) as [->|Hne].
  - now rewrite (Hraise x acc Hacc).
  - destruct (Hstep k x acc) as (acc1 & H1 & Hacc1); [lia|exact Hacc|].
    rewrite H1. simpl. apply IH; [lia| |exact Hraise|exact Hacc1].
    intros i y a Hi. apply Hstep. lia.
Qed.

Lemma phase_step_builds nt modes done i phase mode :
  modes !! i = Some mode ->
  length done = Generator.phases_built nt i ->
  exists done', Generator.phase_step nt modes done (i, phase) = Ok done' /\
                length done' = Generator.phases_built nt (Datatypes.S i).
Proof.
  intros Hmode%getitem_ok Hlen. unfold Generator.phase_step.
  destruct nt; simpl in *.
  - rewrite Hmode. simpl.
    destruct done as [|a [|b done]]; destruct i as [|[|[|i]]]; simpl in *;
      try discriminate; try lia;
      eexists; (split; [reflexivity|]); simpl; rewrite ?length_app; simpl; lia.
  - destruct i as [|i]; simpl.
    + rewrite Hmode. simpl. eexists. split; [reflexivity|].
      rewrite length_app. simpl. lia.
    + exists done. split; [reflexivity|]. lia.
  - destruct i as [|[|i]]; simpl.
    + rewrite Hmode. simpl. eexists. split; [reflexivity|].
      rewrite length_app. simpl. lia.
    + rewrite Hmode. simpl. eexists. split; [reflexivity|].
      rewrite length_app. simpl. lia.
    + exists done. split; [reflexivity|]. lia.
  - rewrite Hmode. simpl. eexists. split; [reflexivity|].
    rewrite length_app. simpl. lia.
Qed.

(** With a mode for every phase it has to build, [get_tasks] returns:
    one task list for the first phase of a SINGLE process, for the first
    two of a DOUBLE one, and for every phase otherwise. *)
Theorem get_tasks_builds_phases self modes :
  (Generator.phases_built (Generator.network_type self)
     (length (Generator.phases self)) <= length modes)%nat ->
  exists built,
    Generator.get_tasks self modes = Ok built /\
    length built = Generator.phases_built (Generator.network_type self)
                     (length (Generator.phases self)).
Proof.
  intros Hmodes. unfold Generator.get_tasks, Generator.enumerate.
  apply (for_each_indexed_total
           (fun i done => length done
                          = Generator.phases_built (Generator.network_type self) i)
           _ (Generator.phases self) 0%nat []).
  - intros i phase done Hi Hlen.
    destruct (decide (i < length modes)%nat) as [Hlt|Hge].
    + destruct (lookup_lt_is_Some_2 modes i Hlt) as [mode Hmode].
      exact (phase_step_builds _ _ _ _ _ _ Hmode Hlen).
    + exists done. unfold Generator.phase_step.
      destruct (Generator.network_type self);
        unfold Generator.phases_built in *; try lia.
      * destruct i as [|i]; [lia|]. simpl. split; [reflexivity|]. lia.
      * destruct i as [|[|i]]; [lia|lia|]. simpl. split; [reflexivity|]. lia.
  - destruct (Generator.network_type self); reflexivity.
Qed.

Lemma get_tasks_builds_phases_witness :
  exists built,
    Generator.get_tasks
      {| Generator.network_type := Generator.SINGLE;
         Generator.phases :=
           replicate 3 {| Generator.resource_1_duration := 6;
                          Generator.resource_2_duration := 4;
                          Generator.resource_3_duration := 2 |} |}
      [Generator.MODE_1] = Ok built /\
    length built = Generator.phases_built Generator.SINGLE
                     (length (replicate 3
                        {| Generator.resource_1_duration := 6;
                           Generator.resource_2_duration := 4;
                           Generator.resource_3_duration := 2 |})).
Proof.
  apply (get_tasks_builds_phases
           {| Generator.network_type := Generator.SINGLE;
              Generator.phases :=
                replicate 3 {| Generator.resource_1_duration := 6;
                               Generator.resource_2_duration := 4;
                               Generator.resource_3_duration := 2 |} |}
           [Generator.MODE_1]).
  simpl. lia.
Defined.

(** With fewer modes than phases to build, [get_tasks] raises IndexError
    at [modes[i]]. *)
Theorem get_tasks_short_of_modes self modes :
  (length modes < Generator.phases_built (Generator.network_type self)
                    (length (Generator.phases self)))%nat ->
  Generator.get_tasks self modes = Raise IndexError.
Proof.
  intros Hmodes. unfold Generator.get_tasks, Generator.enumerate.
  assert (length modes < length (Generator.phases self))%nat as Hlt
    by (destruct (Generator.network_type self);
        unfold Generator.phases_built in Hmodes; lia).
  apply (for_each_indexed_raise
           (fun i done => length done
                          = Generator.phases_built (Generator.network_type self) i)
           _ IndexError (length modes) (Generator.phases self) 0%nat []).
  - lia.
  - intros i phase done Hi Hlen.
    destruct (lookup_lt_is_Some_2 modes i) as [mode Hmode]; [lia|].
    exact (phase_step_builds _ _ _ _ _ _ Hmode Hlen).
  - intros phase done _. unfold Generator.phase_step.
    assert (getitem modes (length modes) = Raise IndexError) as Hg.
    { unfold getitem. now rewrite lookup_ge_None_2. }
    destruct (Generator.network_type self);
      unfold Generator.phases_built in Hmodes; cbn [Generator.is_network andb];
      rewrite ?Hg; try reflexivity.
    + destruct (length modes) as [|k] eqn:Hk; [reflexivity|lia].
    + destruct (length modes) as [|[|k]] eqn:Hk; [reflexivity|reflexivity|lia].
  - destruct (Generator.network_type self); reflexivity.
Qed.

Lemma get_tasks_short_of_modes_witness :
  Generator.get_tasks
    {| Generator.network_type := Generator.DOUBLE;
       Generator.phases :=
         replicate 3 {| Generator.resource_1_duration := 6;
                        Generator.resource_2_duration := 4;
                        Generator.resource_3_duration := 2 |} |}
    [Generator.MODE_1] = Raise IndexError.
Proof.
  apply get_tasks_short_of_modes. simpl. lia.
Defined.
